(** * Plastron import jobs: the item ledger, the binary-source resolver,
      the row processor and the run controller.

    A shallow embedding of
      - plastron-legacy/src/plastron/core/util.py        (class ItemLog)
      - plastron-repo/src/plastron/jobs/imports/__init__.py
        (ImportConfig, ImportJob, ImportRow, ImportRun)
      - plastron-cli/src/plastron/cli/commands/importcommand.py
        (percentile)
    together with the properties of the import engine that are stated
    about them, and with invariants of the ledger, of the run, of the
    directory of a job and of the log of a resource list
    (class ResourceList of plastron/core/util.py). *)

From stdpp Require Import base option list gmap sets strings pretty.
From Stdlib Require Import ZArith Lia Ascii.

#[local] Set Warnings "-clear-no-such-hyp".

Local Open Scope string_scope.
Local Open Scope list_scope.

(** ** Python values used by the code *)

Module Py.

(** [s.startswith(p)] *)
Definition startswith (s p : string) : bool := String.prefix p s.

(** [s.endswith(p)] *)
Definition endswith (s p : string) : bool :=
  String.prefix (String.rev p) (String.rev s).

(** [s[n:]] for [0 <= n] *)
Fixpoint slice_from (n : nat) (s : string) : string :=
  match n, s with
  | O, _ => s
  | S _, EmptyString => EmptyString
  | S n', String _ s' => slice_from n' s'
  end.

(** [sep.join(l)] *)
Definition join (sep : string) (l : list string) : string :=
  String.concat sep l.

(** [str(n)] for a non-negative int *)
Definition str_of_nat (n : nat) : string := pretty n.

(** [os.path.join(a, b)] of posixpath, for two arguments. *)
Definition path_join (a b : string) : string :=
  if startswith b "/" then b
  else if bool_decide (a = "") || endswith a "/" then a +:+ b
  else a +:+ "/" +:+ b.

(** [Path(a) / b], the path of an entry [b] of the directory [a]. *)
Definition path_child (a b : string) : string := a +:+ "/" +:+ b.

(** The exceptions that the modelled code raises or lets through. *)
Inductive exn : Type :=
| RuntimeError (msg : string)
| TypeError (msg : string)
| AttributeError (msg : string)
| ValueError (msg : string)
| KeyError (key : string)
| ValidationError (msg : string)
| RepositoryError (msg : string)
| ClientError (msg : string) (response_text : string)
| ModelClassNotFoundError (model_name : string)
| JobError (args : list string).

(** The result of a call: a value, or a raised exception. *)
Inductive outcome (A : Type) : Type :=
| Return (a : A)
| Raise (e : exn).
Global Arguments Return {A} a.
Global Arguments Raise {A} e.

Global Instance outcome_ret : MRet outcome := fun A a => Return a.

Global Instance outcome_bind : MBind outcome := fun A B k o =>
  match o with
  | Return a => k a
  | Raise e => Raise e
  end.

Definition returned {A} (o : outcome A) : bool :=
  match o with Return _ => true | Raise _ => false end.

(** A [collections.Counter] with string keys: a missing key counts 0. *)
Abbreviation Counter := (gmap string nat).

Definition counter_get (c : Counter) (k : string) : nat :=
  default 0 (c !! k).

(** [c[k] += n] *)
Definition counter_add (c : Counter) (k : string) (n : nat) : Counter :=
  <[k := counter_get c k + n]> c.

End Py.

Export Py.

(** ** plastron.core.util.ItemLog *)

Module ItemLog.

(** One record of a delimited file, as [csv.reader] returns it and as
    [csv.writer.writerow] takes it.  The quoting of the csv module is
    taken to be lossless on records. *)
Abbreviation record := (list string).

(** A file holds its records in order; a path without a file is absent
    from the file system. *)
Abbreviation filesystem := (gmap string (list (list string))).

(** The dict handed to [append]. *)
Abbreviation row := (gmap string string).

(** A key of the in-memory set: a string, or Python's [None] (which
    [csv.DictReader] supplies for the missing fields of a short record). *)
Abbreviation key := (option string).

Record t : Type := mk {
  filename : string;
  fieldnames : list string;
  keyfield : string;
  write_header : bool;
  item_keys : gset key;
}.

(** [exists]: [self.filename.is_file()] *)
Definition exists_ (l : t) (fs : filesystem) : bool :=
  bool_decide (is_Some (fs !! filename l)).

(** [create]: open with mode 'w' and write the header if asked to. *)
Definition create (l : t) (fs : filesystem) : filesystem :=
  <[filename l := if write_header l then [fieldnames l] else []]> fs.

(** One row of [csv.DictReader]: [dict(zip(fieldnames, row))], then the
    fields beyond a short record are set to [None].  (The surplus values
    of a long record go under the key [None], which is not a field name
    and is left out.) *)
Definition dictreader_row (header : list string) (r : record)
  : gmap string key :=
  foldl (fun d k => <[k := None]> d)
        (list_to_map (reverse (zip header (Some <$> r))))
        (drop (length r) header).

(** [__iter__]: the dicts of the file, empty when there is no file.  The
    first record is the header; empty records are skipped. *)
Definition iter (l : t) (fs : filesystem) : list (gmap string key) :=
  match fs !! filename l with
  | None => []
  | Some [] => []
  | Some (header :: records) =>
      dictreader_row header <$> filter (fun r => r <> []) records
  end.

(** [load_keys]: [self.item_keys.add(row[self.keyfield])] for each row. *)
Fixpoint add_keys (kf : string) (rows : list (gmap string key))
         (keys : gset key) : outcome (gset key) :=
  match rows with
  | [] => Return keys
  | d :: rows' =>
      match d !! kf with
      | Some k => add_keys kf rows' ({[k]} ∪ keys)
      | None => Raise (KeyError kf)
      end
  end.

Definition load_keys (l : t) (fs : filesystem) : outcome t :=
  keys ← add_keys (keyfield l) (iter l fs) (item_keys l);
  Return (mk (filename l) (fieldnames l) (keyfield l) (write_header l) keys).

(** [__init__] *)
Definition new (fs : filesystem) (filename : string)
           (fieldnames : list string) (keyfield : string)
           (header : bool) : outcome t :=
  let l := mk filename fieldnames keyfield header ∅ in
  if exists_ l fs then load_keys l fs else Return l.

(** The [writer] property: the file is created on first use. *)
Definition writer (l : t) (fs : filesystem) : filesystem :=
  if exists_ l fs then fs else create l fs.

(** [csv.DictWriter.writerow]: keys outside [fieldnames] are refused,
    missing fields are written as the empty string. *)
Definition dictwriter_row (fields : list string) (r : row) : outcome record :=
  if bool_decide (dom r ⊆ list_to_set fields)
  then Return ((fun f => default "" (r !! f)) <$> fields)
  else Raise (ValueError "dict contains fields not in fieldnames").

(** Writing one record at the end of the file (mode 'a'). *)
Definition write_record (path : string) (rec : record) (fs : filesystem)
  : filesystem :=
  <[path := default [] (fs !! path) ++ [rec]]> fs.

(** [append] *)
Definition append (l : t) (r : row) (fs : filesystem)
  : filesystem * outcome t :=
  let fs1 := writer l fs in
  match dictwriter_row (fieldnames l) r with
  | Raise e => (fs1, Raise e)
  | Return rec =>
      let fs2 := write_record (filename l) rec fs1 in
      match r !! keyfield l with
      | None => (fs2, Raise (KeyError (keyfield l)))
      | Some k =>
          (fs2, Return (mk (filename l) (fieldnames l) (keyfield l)
                           (write_header l) ({[Some k]} ∪ item_keys l)))
      end
  end.

(** [writerow] *)
Definition writerow := append.

(** [__contains__] *)
Definition contains (l : t) (other : key) : bool :=
  bool_decide (other ∈ item_keys l).

(** [__len__] *)
Definition len (l : t) : nat := size (item_keys l).


(** The value that [append] takes for the key of a row. *)
Definition row_key (kf : string) (r : row) : string := default "" (r !! kf).

(** The record that the writer makes of a row. *)
Definition written (fields : list string) (r : row) : record :=
  (fun f => default "" (r !! f)) <$> fields.

(** A row that [append] takes without raising: no field outside of the
    fields of the ledger, and a value for the key field. *)
Definition accepted (fields : list string) (kf : string) (r : row) : Prop :=
  dom r ⊆ list_to_set fields ∧ is_Some (r !! kf).

(** The keys that the rows of a file give, under its header. *)
Definition file_keys (header : list string) (kf : string) (body : list record)
  : gset key :=
  list_to_set ((fun rec => default None (dictreader_row header rec !! kf))
                 <$> filter (fun r => r <> []) body).

(** The ledger in memory agrees with its file: no file and no key yet (the
    file will get its header), or a file under the header of the ledger
    whose rows give the keys. *)
Definition kept (l : t) (fs : filesystem) : Prop :=
  (fs !! filename l = None ∧ item_keys l = ∅ ∧ write_header l = true)
  ∨ (∃ body, fs !! filename l = Some (fieldnames l :: body)
             ∧ item_keys l = file_keys (fieldnames l) (keyfield l) body).

End ItemLog.

(** ** plastron.jobs.imports *)

Module Imports.

Inductive ImportedItemStatus : Type := CREATED | MODIFIED | UNCHANGED.

(** The [value] of a member of the enum. *)
Definition status_value (s : ImportedItemStatus) : string :=
  match s with
  | CREATED => "created"
  | MODIFIED => "modified"
  | UNCHANGED => "unchanged"
  end.

Record ImportConfig : Type := {
  job_id : string;
  model : option string;
  access : option string;
  member_of : option string;
  container : option string;
  binaries_location : option string;
  extract_text_types : option string;
}.

(** *** The classes of plastron.files, as [get_source] builds them *)

Record ssh_options : Type := { key_filename : option string }.

Inductive BinarySource : Type :=
| ZipFileSource (zip_file : string) (path : string) (ssh : option ssh_options)
| RemoteFileSource (location : string) (ssh : ssh_options)
| HTTPFileSource (uri : string)
| LocalFileSource (localpath : string).

(** *** The domain object of a row (an RDFResourceBase) *)

Module Item.
Record t : Type := {
  uri : string;
  identifier : option string;   (* [None]: the object has no such attribute *)
  title : option string;
  has_changes : bool;
  rdf_type : gset string;
  member_of : option string;
}.

Definition add_type (x : string) (i : t) : t :=
  {| uri := uri i; identifier := identifier i; title := title i;
     has_changes := has_changes i; rdf_type := {[x]} ∪ rdf_type i;
     member_of := member_of i |}.

Definition set_member_of (m : string) (i : t) : t :=
  {| uri := uri i; identifier := identifier i; title := title i;
     has_changes := has_changes i; rdf_type := rdf_type i;
     member_of := Some m |}.
End Item.

(** *** Rows of the metadata spreadsheet (plastron.jobs.imports.spreadsheet) *)

Module Row.
Record t : Type := {
  line_reference : string;      (* as [str(line_reference)] *)
  identifier : string;
  filenames : list string;
  item_filenames : list string;
  publish : bool;
  hidden : bool;
  has_files : bool;
  has_item_files : bool;
  file_groups : list (string * list string);   (* group -> its file names *)
}.
End Row.

Module InvalidRow.
Record t : Type := {
  line_reference : string;
  reason : string;
}.
End InvalidRow.

Inductive SourceRow : Type :=
| WellFormed (r : Row.t)
| Malformed (r : InvalidRow.t).

Record MetadataSpreadsheet : Type := {
  total : nat;
  has_binaries : bool;
  source_rows : list SourceRow;
}.

(** *** Validation results (plastron.rdfmapping.validation) *)

Inductive ValidationResult : Type :=
| ValidationSuccess (prop : option string) (message : string)
| ValidationFailure (prop : option string) (message : string).

Definition is_success (r : ValidationResult) : bool :=
  match r with ValidationSuccess _ _ => true | ValidationFailure _ _ => false end.

(** A dict from names to results, in insertion order. *)
Definition ValidationResultsDict := list (string * ValidationResult).

(** [d[k] = v]: an existing key keeps its place, a new one goes last. *)
Fixpoint dict_set (d : ValidationResultsDict) (k : string)
         (v : ValidationResult) : ValidationResultsDict :=
  match d with
  | [] => [(k, v)]
  | (k', v') :: d' =>
      if bool_decide (k' = k) then (k, v) :: d' else (k', v') :: dict_set d' k v
  end.

Fixpoint dict_get (d : ValidationResultsDict) (k : string)
  : option ValidationResult :=
  match d with
  | [] => None
  | (k', v') :: d' => if bool_decide (k' = k) then Some v' else dict_get d' k
  end.

(** Modelled from the spec: [ValidationResultsDict.ok] of
    plastron.rdfmapping.validation, which is not among the sources:
    overall validity is the conjunction of all entries. *)
Definition ok (d : ValidationResultsDict) : bool :=
  forallb (fun e => is_success e.2) d.

(** Modelled from the spec: [ValidationResultsDict.failures], the entries
    that did not pass, with their names. *)
Definition failures (d : ValidationResultsDict) : ValidationResultsDict :=
  filter (fun e => is_success e.2 = false) d.

(** *** Calls to the repository *)

Record PCDMObjectResource : Type := {
  resource_container : option string;
  description : Item.t;
}.

Inductive RepoCall : Type :=
| Read (uri : string)                               (* [repo[uri:...].read()] *)
| Update (uri : string) (description : Item.t)      (* [resource.update()], the PATCH *)
| TxnBegin
| TxnCommit
| TxnRollback
| CreateChild (container : option string) (description : Item.t)
| CreatePageSequence (groups : list (string * list (string * BinarySource)))
| CreateFile (source : BinarySource).

(** The history of the calls made to the repository, oldest first. *)
Definition Repo := list RepoCall.

Definition is_update (c : RepoCall) : bool :=
  match c with Update _ _ => true | _ => false end.

(** A write: anything but reading a resource. *)
Definition is_write (c : RepoCall) : bool :=
  match c with Read _ => false | _ => true end.

(** *** The collaborators of the import engine

    What the engine gets from code outside of these modules: the
    spreadsheet, the models and their validation, the binary sources, the
    repository and the clock. *)

Class Collaborators : Type := {
(** [Row.get_object(repo, read_from_repo)] *)
get_object : Row.t -> bool -> Item.t;
(** [item.validate()], which may raise a ValidationError *)
validate : Item.t -> outcome ValidationResultsDict;
(** [str(result)] of a validation result *)
result_str : ValidationResult -> string;
(** [BinarySource.exists()] *)
source_exists : BinarySource -> bool;
(** [annotate_from_files(item, mime_types)] *)
annotate_from_files : Item.t -> list string -> Item.t;
(** whether the repository answers a call, after a history, by raising *)
repo_raises : Repo -> RepoCall -> option exn;
(** [str(e)] of a JobError built from the given arguments *)
JobError_str : list string -> string;
(** the n-th reading of the clock, as a POSIX timestamp *)
clock : nat -> Z;
(** [isoformat(timespec='seconds')] of a reading of the clock *)
isoformat : Z -> string;
(** the subset that [MetadataSpreadsheet.rows] selects for a percentage *)
percentage_subset : nat -> list SourceRow -> list SourceRow;
(** [ImportJob.get_metadata()] over the stored metadata file *)
get_metadata : option string -> outcome MetadataSpreadsheet;
(** the terms of plastron.namespaces.umdaccess *)
umdaccess_Published : string;
umdaccess_Hidden : string;
}.

(** [str(e)] *)
Definition exn_str `{Collaborators} (e : exn) : string :=
  match e with
  | RuntimeError m | TypeError m | AttributeError m | ValueError m
  | ValidationError m | RepositoryError m | ClientError m _ => m
  | KeyError k => "'" +:+ k +:+ "'"
  | ModelClassNotFoundError m => m
  | JobError args => JobError_str args
  end.

(** *** ImportJob *)

Record ImportJob : Type := {
  id : string;
  dir : string;
  config : ImportConfig;
  completed_log : ItemLog.t;
  ssh_private_key : option string;
  validation_reports : list ValidationResultsDict;
}.

Definition completed_fieldnames : list string :=
  ["id"; "timestamp"; "title"; "uri"; "status"].

(** [ImportJob.__init__], given the directory [Path(jobs_dir) / safe_id]
    of the job. *)
Definition ImportJob_new (fs : ItemLog.filesystem) (job_id job_dir : string)
           (ssh_private_key : option string) : outcome ImportJob :=
  log ← ItemLog.new fs (path_child job_dir "completed.log.csv")
                    completed_fieldnames "id" true;
  Return {| id := job_id; dir := job_dir;
            config := {| job_id := job_id; model := None; access := None;
                         member_of := None; container := None;
                         binaries_location := None;
                         extract_text_types := None |};
            completed_log := log;
            ssh_private_key := ssh_private_key;
            validation_reports := [] |}.

(** [URIRef(x)]: the reference for [x]. *)
Definition URIRef (x : string) : string := x.

(** [URIRef[x]]: a subscription of the class [URIRef], which is a
    subclass of [str] and has no [__class_getitem__]. *)
Definition URIRef_subscript (x : string) : outcome string :=
  Raise (TypeError "type 'URIRef' is not subscriptable").

(** The [access] property. *)
Definition job_access (job : ImportJob) : outcome (option string) :=
  match access (config job) with
  | Some a => u ← URIRef_subscript a; Return (Some u)
  | None => Return None
  end.

(** The [member_of] property. *)
Definition job_member_of (job : ImportJob) : option string :=
  match member_of (config job) with
  | Some m => Some (URIRef m)
  | None => None
  end.

(** [s.split(',')] *)
Fixpoint split_comma_go (cur : string) (s : string) : list string :=
  match s with
  | EmptyString => [String.rev cur]
  | String c s' =>
      if bool_decide (c = (","%char : ascii))
      then String.rev cur :: split_comma_go EmptyString s'
      else split_comma_go (String c cur) s'
  end.

Definition split_comma (s : string) : list string :=
  split_comma_go EmptyString s.

(** The [extract_text_types] property; never [None]. *)
Definition job_extract_text_types (job : ImportJob) : list string :=
  match extract_text_types (config job) with
  | Some t => split_comma t
  | None => []
  end.

(** [get_source] *)
Definition get_source (job : ImportJob) (base_location path : string)
  : BinarySource :=
  if startswith base_location "zip:" then
    ZipFileSource (slice_from 4 base_location) path None
  else if startswith base_location "sftp:" then
    RemoteFileSource (path_join base_location path)
                     {| key_filename := ssh_private_key job |}
  else if startswith base_location "http:"
          || startswith base_location "https:" then
    let base_uri :=
      if endswith base_location "/" then base_location
      else base_location +:+ "/" in
    HTTPFileSource (base_uri +:+ path)
  else if startswith base_location "zip+sftp:" then
    ZipFileSource (slice_from 4 base_location) path
                  (Some {| key_filename := ssh_private_key job |})
  else
LocalFileSource (path_join base_location path).

(** [self.job.get_source(self.job.config.binaries_location, name)]: the
    location of the configuration may be [None], which has no
    [startswith]. *)
Definition get_configured_source (job : ImportJob) (name : string)
  : outcome BinarySource :=
  match binaries_location (config job) with
  | Some base => Return (get_source job base name)
  | None =>
      Raise (AttributeError "'NoneType' object has no attribute 'startswith'")
  end.

(** *** ImportRow *)

Record ImportRow : Type := {
  row_job : ImportJob;
  row : Row.t;
  item : Item.t;
}.

Section WithCollaborators.
Context `{Collaborators}.

(** [ImportRow.__init__] *)
Definition ImportRow_new (job : ImportJob) (r : Row.t) (validate_only : bool)
  : ImportRow :=
  {| row_job := job; row := r; item := get_object r (negb validate_only) |}.

(** The names of [filenames] whose source does not exist. *)
Fixpoint missing_files (job : ImportJob) (filenames : list string)
  : outcome (list string) :=
  match filenames with
  | [] => Return []
  | name :: rest =>
      src ← get_configured_source job name;
      missing ← missing_files job rest;
      Return (if source_exists src then missing else name :: missing)
  end.

(** [validate_files] *)
Definition validate_files (self : ImportRow) (filenames : list string)
  : outcome ValidationResult :=
  missing ← missing_files (row_job self) filenames;
  if Nat.eqb (length missing) 0 then
    Return (ValidationSuccess None "All files present")
  else
    Return (ValidationFailure None
              ("Missing " +:+ str_of_nat (length missing) +:+ " files: "
               +:+ join ";" missing)).

(** [validate_item] *)
Definition validate_item (self : ImportRow) : outcome ValidationResultsDict :=
  match validate (item self) with
  | Raise (ValidationError m) =>
      Raise (RuntimeError ("Unable to run validation: " +:+ m))
  | Raise e => Raise e
  | Return results =>
      files ← validate_files self (Row.filenames (row self));
      let results := dict_set results "FILES" files in
      item_files ← validate_files self (Row.item_filenames (row self));
      Return (dict_set results "ITEM_FILES" item_files)
  end.

(** A computation that calls the repository. *)
Definition RepoM (A : Type) : Type := Repo -> Repo * outcome A.

Definition and_then {A B} (m : RepoM A) (k : A -> RepoM B) : RepoM B :=
  fun h =>
    match m h with
    | (h', Return a) => k a h'
    | (h', Raise e) => (h', Raise e)
    end.

Definition lift {A} (o : outcome A) : RepoM A := fun h => (h, o).

(** One call: it is recorded, and the repository may refuse it. *)
Definition call (c : RepoCall) : RepoM unit :=
  fun h =>
    (h ++ [c],
     match repo_raises h c with
     | Some e => Raise e
     | None => Return ()
     end).

(** Modelled from the spec: the scoped transaction of the repository
    handle ([Repository.transaction], not among the sources): it is
    entered, and then committed when its body ends, or rolled back when
    its body raises. *)
Definition transaction {A} (body : RepoM A) : RepoM A :=
  and_then (call TxnBegin) (fun _ h =>
    match body h with
    | (h', Return a) => and_then (call TxnCommit) (fun _ => lift (Return a)) h'
    | (h', Raise e) => (h' ++ [TxnRollback], Raise e)
    end).

Fixpoint resolve_files (job : ImportJob) (names : list string)
  : outcome (list (string * BinarySource)) :=
  match names with
  | [] => Return []
  | name :: rest =>
      src ← get_configured_source job name;
      others ← resolve_files job rest;
      Return ((name, src) :: others)
  end.

(** [file.source = ...] for every file of every group. *)
Fixpoint resolve_groups (job : ImportJob)
         (groups : list (string * list string))
  : outcome (list (string * list (string * BinarySource))) :=
  match groups with
  | [] => Return []
  | (g, names) :: rest =>
      files ← resolve_files job names;
      others ← resolve_groups job rest;
      Return ((g, files) :: others)
  end.

(** The loop over [item_filenames]. *)
Fixpoint create_files (job : ImportJob) (names : list string) : RepoM unit :=
  match names with
  | [] => lift (Return ())
  | name :: rest =>
      and_then (lift (get_configured_source job name)) (fun src =>
      and_then (call (CreateFile src)) (fun _ =>
      create_files job rest))
  end.

(** The changes that [create_resource] makes to the item before it
    calls the repository. *)
Definition tag_item (self : ImportRow) : outcome Item.t :=
  acc ← job_access (row_job self);
  let i := item self in
  let i := match acc with Some a => Item.add_type a i | None => i end in
  let i := match job_member_of (row_job self) with
           | Some m => Item.set_member_of m i
           | None => i
           end in
  let i := if Row.publish (row self)
           then Item.add_type umdaccess_Published i else i in
  let i := if Row.hidden (row self)
           then Item.add_type umdaccess_Hidden i else i in
  Return (annotate_from_files i (job_extract_text_types (row_job self))).

(** The body of the transaction of [create_resource]. *)
Definition create_in_transaction (self : ImportRow) (i : Item.t)
  : RepoM PCDMObjectResource :=
  let job := row_job self in
  and_then (call (CreateChild (container (config job)) i)) (fun _ =>
  and_then
    (if Row.has_files (row self) then
       and_then (lift (resolve_groups job (Row.file_groups (row self))))
                (fun groups => call (CreatePageSequence groups))
     else lift (Return ())) (fun _ =>
  and_then
    (if Row.has_item_files (row self) then
       create_files job (Row.item_filenames (row self))
     else lift (Return ())) (fun _ =>
  lift (Return {| resource_container := container (config job);
                  description := i |})))).

(** [create_resource]; the item is returned as the call leaves it. *)
Definition create_resource (self : ImportRow) (h : Repo)
  : Item.t * (Repo * outcome PCDMObjectResource) :=
  match tag_item self with
  | Raise e => (item self, (h, Raise e))
  | Return i =>
      (i,
       match transaction (create_in_transaction self i) h with
       | (h', Raise (ClientError m text)) =>
           (h', Raise (JobError [id (row_job self);
                                 "Creating item failed: " +:+ m; text]))
       | r => r
       end)
  end.

(** [update_repo]; the item is returned as the call leaves it. *)
Definition update_repo (self : ImportRow) (h : Repo)
  : Item.t * (Repo * outcome ImportedItemStatus) :=
  if startswith (Item.uri (item self)) "urn:uuid:" then
    match create_resource self h with
    | (i, (h', Return _)) => (i, (h', Return CREATED))
    | (i, (h', Raise e)) => (i, (h', Raise e))
    end
  else if Item.has_changes (item self) then
    (item self,
     match and_then (call (Read (Item.uri (item self)))) (fun _ =>
           call (Update (Item.uri (item self)) (item self))) h with
     | (h', Raise (RepositoryError m)) =>
         (h', Raise (JobError ["Updating item failed: " +:+ m]))
     | (h', Raise e) => (h', Raise e)
     | (h', Return _) => (h', Return MODIFIED)
     end)
  else
    (item self, (h, Return UNCHANGED)).

(** *** The metadata source *)

(** The [completed] filter: a well-formed row is kept unless its
    identifier is in the ledger; a marker of an invalid row has no
    identifier and is kept. *)
Definition not_completed (completed : option ItemLog.t) (r : SourceRow)
  : bool :=
  match r, completed with
  | WellFormed r, Some log =>
      negb (ItemLog.contains log (Some (Row.identifier r)))
  | _, _ => true
  end.

Definition limited (limit : option nat) (rs : list SourceRow)
  : list SourceRow :=
  match limit with
  | Some n => take n rs
  | None => rs
  end.

Definition sampled (percentage : option nat) (rs : list SourceRow)
  : list SourceRow :=
  match percentage with
  | Some p => percentage_subset p rs
  | None => rs
  end.

(** Modelled from the spec: [MetadataSpreadsheet.rows] of
    plastron.jobs.imports.spreadsheet, which is not among the sources.
    The source applies three filters: a hard limit on the row count, the
    selection of a subset for a percentage, and the exclusion of the rows
    whose identifier is in the completed ledger; the sample is taken
    first and the completed rows are excluded from it. *)
Definition rows (metadata : MetadataSpreadsheet) (limit percentage : option nat)
           (completed : option ItemLog.t) : list SourceRow :=
  List.filter (not_completed completed)
              (sampled percentage (limited limit (source_rows metadata))).

(** *** ImportRun *)

Definition DROPPED_INVALID_FIELDNAMES : list string :=
  ["id"; "timestamp"; "title"; "uri"; "reason"].
Definition DROPPED_FAILED_FIELDNAMES : list string :=
  ["id"; "timestamp"; "title"; "uri"; "reason"].

(** The run object with the job that it holds, and the world that it
    acts on: the ledger files, the repository and the clock. *)
Record State : Type := {
  fs : ItemLog.filesystem;
  repo : Repo;
  ticks : nat;                          (* readings of the clock so far *)
  source_csv : option string;           (* the stored metadata file *)
  job : ImportJob;
  run_dir : option string;              (* [self.dir] *)
  timestamp : option string;
  _invalid_items : option ItemLog.t;
  _failed_items : option ItemLog.t;
}.

Definition set_fs (x : ItemLog.filesystem) (s : State) : State :=
  {| fs := x; repo := repo s; ticks := ticks s; source_csv := source_csv s;
     job := job s; run_dir := run_dir s; timestamp := timestamp s;
     _invalid_items := _invalid_items s; _failed_items := _failed_items s |}.
Definition set_repo (x : Repo) (s : State) : State :=
  {| fs := fs s; repo := x; ticks := ticks s; source_csv := source_csv s;
     job := job s; run_dir := run_dir s; timestamp := timestamp s;
     _invalid_items := _invalid_items s; _failed_items := _failed_items s |}.
Definition set_ticks (x : nat) (s : State) : State :=
  {| fs := fs s; repo := repo s; ticks := x; source_csv := source_csv s;
     job := job s; run_dir := run_dir s; timestamp := timestamp s;
     _invalid_items := _invalid_items s; _failed_items := _failed_items s |}.
Definition set_source_csv (x : option string) (s : State) : State :=
  {| fs := fs s; repo := repo s; ticks := ticks s; source_csv := x;
     job := job s; run_dir := run_dir s; timestamp := timestamp s;
     _invalid_items := _invalid_items s; _failed_items := _failed_items s |}.
Definition set_job (x : ImportJob) (s : State) : State :=
  {| fs := fs s; repo := repo s; ticks := ticks s; source_csv := source_csv s;
     job := x; run_dir := run_dir s; timestamp := timestamp s;
     _invalid_items := _invalid_items s; _failed_items := _failed_items s |}.
Definition set_run_dir (ts d : string) (s : State) : State :=
  {| fs := fs s; repo := repo s; ticks := ticks s; source_csv := source_csv s;
     job := job s; run_dir := Some d; timestamp := Some ts;
     _invalid_items := _invalid_items s; _failed_items := _failed_items s |}.
Definition set_invalid_items (x : ItemLog.t) (s : State) : State :=
  {| fs := fs s; repo := repo s; ticks := ticks s; source_csv := source_csv s;
     job := job s; run_dir := run_dir s; timestamp := timestamp s;
     _invalid_items := Some x; _failed_items := _failed_items s |}.
Definition set_failed_items (x : ItemLog.t) (s : State) : State :=
  {| fs := fs s; repo := repo s; ticks := ticks s; source_csv := source_csv s;
     job := job s; run_dir := run_dir s; timestamp := timestamp s;
     _invalid_items := _invalid_items s; _failed_items := Some x |}.

Definition set_completed_log (x : ItemLog.t) (j : ImportJob) : ImportJob :=
  {| id := id j; dir := dir j; config := config j; completed_log := x;
     ssh_private_key := ssh_private_key j;
     validation_reports := validation_reports j |}.

(** A step of the run: it changes the state, and returns or raises. *)
Definition M (A : Type) : Type := State -> State * outcome A.

Definition ret {A} (a : A) : M A := fun s => (s, Return a).
Definition raise {A} (e : exn) : M A := fun s => (s, Raise e).
Definition bindM {A B} (m : M A) (k : A -> M B) : M B :=
  fun s =>
    match m s with
    | (s', Return a) => k a s'
    | (s', Raise e) => (s', Raise e)
    end.

Notation "'let*' x ':=' m 'in' k" := (bindM m (fun x => k))
  (at level 10, x name, m at level 100, k at level 200, only parsing).

(** [datetime.now().timestamp()]: one reading of the clock.  The
    timestamps are kept as integers. *)
Definition now : M Z :=
  fun s => (set_ticks (S (ticks s)) s, Return (clock (ticks s))).

Definition is_digit (c : ascii) : bool :=
  (48 <=? nat_of_ascii c)%nat && (nat_of_ascii c <=? 57)%nat.

(** [re.sub(r'[^0-9]', '', s)] *)
Fixpoint digits_of (s : string) : string :=
  match s with
  | EmptyString => EmptyString
  | String c s' => if is_digit c then String c (digits_of s') else digits_of s'
  end.

(** [datetimestamp] of plastron.core.util *)
Definition datetimestamp (digits_only : bool) : M string :=
  let* t := now in
  let text := isoformat t in
  ret (if digits_only then digits_of text else text).

(** The [invalid_items] property: the log is built on first use. *)
Definition invalid_items : M ItemLog.t :=
  fun s =>
    match _invalid_items s with
    | Some log => (s, Return log)
    | None =>
        match run_dir s with
        | None => (s, Raise (TypeError "unsupported operand type(s) for /"))
        | Some d =>
            match ItemLog.new (fs s) (path_child d "dropped-invalid.log.csv")
                              DROPPED_INVALID_FIELDNAMES "id" true with
            | Return log => (set_invalid_items log s, Return log)
            | Raise e => (s, Raise e)
            end
        end
    end.

(** The [failed_items] property. *)
Definition failed_items : M ItemLog.t :=
  fun s =>
    match _failed_items s with
    | Some log => (s, Return log)
    | None =>
        match run_dir s with
        | None => (s, Raise (TypeError "unsupported operand type(s) for /"))
        | Some d =>
            match ItemLog.new (fs s) (path_child d "dropped-failed.log.csv")
                              DROPPED_FAILED_FIELDNAMES "id" true with
            | Return log => (set_failed_items log s, Return log)
            | Raise e => (s, Raise e)
            end
        end
    end.

(** [getattr(item, 'identifier', default)] and the like; the item is
    [None] for the marker of an invalid row. *)
Definition getattr_identifier (i : option Item.t) (default : string) : string :=
  match i with
  | Some i => match Item.identifier i with Some x => x | None => default end
  | None => default
  end.
Definition getattr_title (i : option Item.t) : string :=
  match i with
  | Some i => match Item.title i with Some x => x | None => "" end
  | None => ""
  end.
Definition getattr_uri (i : option Item.t) : string :=
  match i with
  | Some i => Item.uri i
  | None => ""
  end.

(** The dict that the three ledgers are given for an item; [last] is the
    name of the fifth field, 'status' or 'reason'. *)
Definition ledger_row (i : option Item.t) (line_reference stamp last value : string)
  : ItemLog.row :=
  <["id" := getattr_identifier i line_reference]>
    (<["timestamp" := stamp]>
       (<["title" := getattr_title i]>
          (<["uri" := getattr_uri i]> (<[last := value]> ∅)))).

(** [ItemLog.append] on a log of the state. *)
Definition append_to (log : ItemLog.t) (r : ItemLog.row) : M ItemLog.t :=
  fun s =>
    match ItemLog.append log r (fs s) with
    | (fs', o) => (set_fs fs' s, o)
    end.

(** [drop_invalid] *)
Definition drop_invalid (i : option Item.t) (line_reference reason : string)
  : M unit :=
  let* log := invalid_items in
  let* stamp := datetimestamp false in
  let* log' := append_to log (ledger_row i line_reference stamp "reason" reason) in
  fun s => (set_invalid_items log' s, Return ()).

(** [drop_failed] *)
Definition drop_failed (i : option Item.t) (line_reference reason : string)
  : M unit :=
  let* log := failed_items in
  let* stamp := datetimestamp false in
  let* log' := append_to log (ledger_row i line_reference stamp "reason" reason) in
  fun s => (set_failed_items log' s, Return ()).

(** [complete], which delegates to [ImportJob.complete]. *)
Definition complete (i : Item.t) (line_reference : string)
           (status : ImportedItemStatus) : M unit :=
  let* stamp := datetimestamp false in
  fun s =>
    bindM (append_to (completed_log (job s))
                     (ledger_row (Some i) line_reference stamp "status"
                                 (status_value status)))
          (fun log' s' => (set_job (set_completed_log log' (job s')) s', Return ()))
          s.

(** The counting of an imported item by its status. *)
Definition count_status (count : Counter) (status : ImportedItemStatus)
  : Counter :=
  match status with
  | CREATED => counter_add count "created_items" 1
  | MODIFIED => counter_add count "updated_items" 1
  | UNCHANGED =>
      counter_add (counter_add count "unchanged_items" 1) "skipped_items" 1
  end.

(** The dict that the run yields.  Its count is the one Counter object of
    the run; the snapshot holds what that object reads when the dict is
    yielded. *)
Record Snapshot : Type := {
  started : Z;
  snapshot_now : Z;
  elapsed : Z;
  snapshot_count : Counter;
}.

(** The body of the [try] statement of the loop. *)
Definition try_import (import_row : ImportRow) (count : Counter)
  : M (Item.t * Counter) :=
  fun s =>
    match update_repo import_row (repo s) with
    | (i, (h, Raise e)) => (set_repo h s, Raise e)
    | (i, (h, Return status)) =>
        bindM (complete i (Row.line_reference (row import_row)) status)
              (fun _ => ret (i, count_status count status))
              (set_repo h s)
    end.

(** The item as [update_repo] leaves it when it raises. *)
Definition item_after_update (import_row : ImportRow) (h : Repo) : Item.t :=
  (update_repo import_row h).1.

(** The end of the loop body: the update of the status. *)
Definition yield_status (start_time : Z) (count : Counter)
  : M (Counter * option Snapshot) :=
  let* t := now in
  ret (count, Some {| started := start_time; snapshot_now := t;
                      elapsed := (t - start_time)%Z;
                      snapshot_count := count |}).

(** The body of the loop of [run] for one row: the counters after it and
    the snapshot that it yields, if it gets to the [yield]. *)
Definition process_row (validate_only : bool) (start_time : Z)
           (count : Counter) (r : SourceRow) : M (Counter * option Snapshot) :=
  match r with
  | Malformed inv =>
      let* _ := drop_invalid None (InvalidRow.line_reference inv)
                             (InvalidRow.reason inv) in
      ret (count, None)
  | WellFormed r =>
      fun s =>
      let import_row := ImportRow_new (job s) r validate_only in
      let count := counter_add count "files" (length (Row.filenames r)) in
      match validate_item import_row with
      | Raise e => (s, Raise e)
      | Return validation =>
          if ok validation then
            let count := counter_add count "valid_items" 1 in
            if validate_only then (s, Return (count, None))
            else
              match try_import import_row count s with
              | (s', Return (_, count')) => yield_status start_time count' s'
              | (s', Raise (JobError args)) =>
                  let count := counter_add count "items_with_errors" 1 in
                  (let* _ := drop_failed
                               (Some (item_after_update import_row (repo s)))
                               (Row.line_reference r)
                               (exn_str (JobError args)) in
                   yield_status start_time count) s'
              | (s', Raise e) => (s', Raise e)
              end
          else
            let count := counter_add count "invalid_items" 1 in
            let reasons :=
              (fun e => e.1 +:+ " " +:+ result_str e.2) <$> failures validation in
            (let* _ := drop_invalid (Some (item import_row))
                                    (Row.line_reference r)
                                    ("Validation failures: "
                                     +:+ join "; " reasons) in
             ret (count, None)) s
      end
  end.

(** The loop of [run]: the snapshots in the order of their yield, and the
    counters when the rows are exhausted, unless a row raises. *)
Fixpoint run_rows (validate_only : bool) (start_time : Z) (count : Counter)
         (rs : list SourceRow) (s : State)
  : State * (list Snapshot * outcome Counter) :=
  match rs with
  | [] => (s, ([], Return count))
  | r :: rs' =>
      match process_row validate_only start_time count r s with
      | (s', Raise e) => (s', ([], Raise e))
      | (s', Return (count', snap)) =>
          match run_rows validate_only start_time count' rs' s' with
          | (s'', (snaps, o)) => (s'', (option_list snap ++ snaps, o))
          end
      end
  end.

(** The dict that the run returns. *)
Record Result : Type := {
  type : string;
  validation : list ValidationResultsDict;
  result_count : Counter;
}.

(** The counters at the start of the run. *)
Definition initial_count (metadata : MetadataSpreadsheet) (j : ImportJob)
  : Counter :=
  list_to_map
    [("total_items", total metadata);
     ("rows", 0);
     ("errors", 0);
     ("initially_completed_items", ItemLog.len (completed_log j));
     ("files", 0);
     ("valid_items", 0);
     ("invalid_items", 0);
     ("created_items", 0);
     ("updated_items", 0);
     ("unchanged_items", 0);
     ("skipped_items", 0)].

(** The classification at the end of [run]. *)
Definition result_type (validate_only : bool) (count : Counter) (j : ImportJob)
  : string :=
  if validate_only then
    if Nat.eqb (counter_get count "invalid_items") 0
    then "validate_success" else "validate_failed"
  else
    if Nat.eqb (ItemLog.len (completed_log j)) (counter_get count "total_items")
    then "import_complete" else "import_incomplete".

(** The start of [run], up to the loop: the metadata and the time of
    the start. *)
Definition start_run (import_file : option string)
  : M (Z * MetadataSpreadsheet) :=
  fun s =>
    match run_dir s with
    | Some _ => (s, Raise (RuntimeError "Run completed, cannot start again"))
    | None =>
        (let* stamp := datetimestamp true in
         let* _ := (fun s => (set_run_dir stamp (path_child (dir (job s)) stamp) s,
                              Return ())) in
         let* start_time := now in
         let* _ := (fun s => (match import_file with
                              | Some f => set_source_csv (Some f) s
                              | None => s
                              end, Return ())) in
         let* metadata :=
           (fun s => (s, match get_metadata (source_csv s) with
                         | Raise (ModelClassNotFoundError m) =>
                             Raise (RuntimeError
                                      ("Model class " +:+ m +:+ " not found"))
                         | Raise (JobError args) =>
                             Raise (RuntimeError (exn_str (JobError args)))
                         | o => o
                         end)) in
         fun s =>
           if has_binaries metadata
              && bool_decide (binaries_location (config (job s)) = None)
           then (s, Raise (RuntimeError
                  "Must specify --binaries-location if the metadata has a FILES column"))
           else (s, Return (start_time, metadata))) s
    end.

(** The rows that the loop of [run] goes through:
    [metadata.rows(limit=limit, percentage=percentage,
                   completed=self.job.completed_log)]. *)
Definition row_stream (metadata : MetadataSpreadsheet)
           (limit percentage : option nat) (s : State) : list SourceRow :=
  rows metadata limit percentage (Some (completed_log (job s))).

(** [run]: the snapshots that the generator yields, and what it returns
    or raises. *)
Definition run (limit percentage : option nat) (validate_only : bool)
           (import_file : option string) (s : State)
  : State * (list Snapshot * outcome Result) :=
  match start_run import_file s with
  | (s1, Raise e) => (s1, ([], Raise e))
  | (s1, Return (start_time, metadata)) =>
      let count := initial_count metadata (job s1) in
      match run_rows validate_only start_time count
                     (row_stream metadata limit percentage s1) s1 with
      | (s2, (snaps, Raise e)) => (s2, (snaps, Raise e))
      | (s2, (snaps, Return count')) =>
          (s2, (snaps,
                Return {| type := result_type validate_only count' (job s2);
                          validation := validation_reports (job s2);
                          result_count := count' |}))
      end
  end.

(** *** Notions used to state the properties of the run *)

(** The keys that the counters of a run start with. *)
Definition counter_keys : list string :=
  ["total_items"; "rows"; "errors"; "initially_completed_items"; "files";
   "valid_items"; "invalid_items"; "created_items"; "updated_items";
   "unchanged_items"; "skipped_items"].

(** The keys that the loop of [run] adds to. *)
Definition counted : list string :=
  ["files"; "valid_items"; "invalid_items"; "items_with_errors";
   "created_items"; "updated_items"; "unchanged_items"; "skipped_items"].

(** The row gets to the [try] statement of the loop: the run is not in
    validate-only mode, and the row is well-formed and valid. *)
Definition reaches_commit (validate_only : bool) (j : ImportJob) (r : SourceRow)
  : bool :=
  negb validate_only
  && match r with
     | WellFormed r =>
         match validate_item (ImportRow_new j r validate_only) with
         | Return v => ok v
         | Raise _ => false
         end
     | Malformed _ => false
     end.

(** The calls made since the history [h]. *)
Definition calls_since (h h' : Repo) : Repo := drop (length h) h'.

(** A ledger of the run can be appended to: it is open on [name] in the
    directory of the run with its fields, or it is not open yet and has
    no file. *)
Definition ledger_ready (log : option ItemLog.t) (name : string)
           (fields : list string) (s : State) : Prop :=
  ∃ d, run_dir s = Some d
       ∧ match log with
         | Some l => ItemLog.filename l = path_child d name
                     ∧ ItemLog.fieldnames l = fields
                     ∧ ItemLog.keyfield l = "id"
         | None => fs s !! path_child d name = None
         end.

Definition failed_ledger_path (s : State) : string :=
  path_child (default "" (run_dir s)) "dropped-failed.log.csv".

Definition invalid_ledger_path (s : State) : string :=
  path_child (default "" (run_dir s)) "dropped-invalid.log.csv".

(** The record of an item in the ledgers of the dropped items. *)
Definition dropped_record (i : option Item.t) (line_reference stamp reason : string)
  : ItemLog.record :=
  [getattr_identifier i line_reference; stamp; getattr_title i;
   getattr_uri i; reason].

(** The base location of an HTTP source, with its separator. *)
Definition with_separator (base : string) : string :=
  if endswith base "/" then base else base +:+ "/".

(** Every call that a computation makes is one that [P] allows. *)
Definition only_calls {A} (P : RepoCall → Prop) (m : RepoM A) : Prop :=
  ∀ h h' o, m h = (h', o) → ∃ cs, h' = h ++ cs ∧ Forall P cs.

(** What [update_repo] raises for an exception of the update. *)
Definition update_error (e : exn) : exn :=
  match e with
  | RepositoryError m => JobError ["Updating item failed: " +:+ m]
  | _ => e
  end.

(** The names of [names] whose source under [base] does not exist. *)
Definition missing_names (j : ImportJob) (base : string)
           (names : list string) : list string :=
  List.filter (fun n => negb (source_exists (get_source j base n))) names.

(** The result of [validate_files] for the missing names. *)
Definition files_result (missing : list string) : ValidationResult :=
  match missing with
  | [] => ValidationSuccess None "All files present"
  | _ => ValidationFailure None
           ("Missing " +:+ str_of_nat (length missing) +:+ " files: "
            +:+ join ";" missing)
  end.

(** The reason under which an invalid item is logged. *)
Definition invalid_reason (v : ValidationResultsDict) : string :=
  "Validation failures: "
  +:+ join "; " ((fun e => e.1 +:+ " " +:+ result_str e.2) <$> failures v).

(** A step of the loop changes the counters as [count'] differs from
    [count]: the keys outside of [counted] keep their value, and no key
    is lost. *)
Definition counts_on (count count' : Counter) : Prop :=
  (∀ k, k ∉ counted → count' !! k = count !! k)
  ∧ (∀ k, is_Some (count !! k) → is_Some (count' !! k)).

(** What a step leaves of the state when it only writes to the ledger
    at [path] and reads the clock once. *)
Definition logs_to (path : string) (rec : ItemLog.record) (s s' : State)
  : Prop :=
  repo s' = repo s ∧ job s' = job s ∧ run_dir s' = run_dir s
  ∧ ticks s' = S (ticks s)
  ∧ (∃ before, fs s' !! path = Some (before ++ [rec]))
  ∧ (∀ p, p ≠ path → fs s' !! p = fs s !! p).

End WithCollaborators.

End Imports.

(** ** A job with four rows and one invalid row *)

Module Scenario.
Import Imports.

Definition mkrow (ident : string) (files : list string) : Row.t :=
  {| Row.line_reference := "source.csv:" +:+ ident;
     Row.identifier := ident;
     Row.filenames := files; Row.item_filenames := [];
     Row.publish := false; Row.hidden := false;
     Row.has_files := false; Row.has_item_files := false;
     Row.file_groups := [] |}.

(** A row whose identifier starts with "new" has no resource yet; one
    whose identifier starts with "chg" differs from its resource. *)
Definition object_of (r : Row.t) : Item.t :=
  {| Item.uri := if startswith (Row.identifier r) "new"
                 then "urn:uuid:" +:+ Row.identifier r
                 else "http://repo/" +:+ Row.identifier r;
     Item.identifier := Some (Row.identifier r);
     Item.title := Some "Title";
     Item.has_changes := startswith (Row.identifier r) "chg";
     Item.rdf_type := ∅;
     Item.member_of := None |}.

Definition message_of (r : ValidationResult) : string :=
  match r with
  | ValidationSuccess _ m | ValidationFailure _ m => m
  end.

Definition sheet : MetadataSpreadsheet :=
  {| total := 4; has_binaries := true;
     source_rows :=
       [WellFormed (mkrow "new1" ["a.tif"]);
        WellFormed (mkrow "newbad" []);
        WellFormed (mkrow "chg1" ["b.tif"]);
        WellFormed (mkrow "same" []);
        Malformed {| InvalidRow.line_reference := "source.csv:5";
                     InvalidRow.reason := "bad row" |}] |}.

(** The repository refuses the creation of the item "newbad" and the
    update of the item "chgbad"; the only binary is /data/a.tif. *)
Definition collaborators : Collaborators :=
  {| get_object r _ := object_of r;
     validate i := Return [("title", ValidationSuccess (Some "title") "ok")];
     result_str := message_of;
     source_exists src :=
       match src with
       | LocalFileSource p => bool_decide (p = "/data/a.tif")
       | _ => false
       end;
     annotate_from_files i _ := i;
     repo_raises h c :=
       match c with
       | CreateChild _ i =>
           if bool_decide (Item.identifier i = Some "newbad")
           then Some (ClientError "409 Conflict" "conflict") else None
       | Update _ i =>
           if bool_decide (Item.identifier i = Some "chgbad")
           then Some (RepositoryError "412 Precondition Failed") else None
       | _ => None
       end;
     JobError_str args := join ": " args;
     clock n := (100 + Z.of_nat n)%Z;
     isoformat z := "2024-01-01T00:00:" +:+ pretty z;
     percentage_subset p rs := rs;
     get_metadata src := Return sheet;
     umdaccess_Published := "umdaccess:Published";
     umdaccess_Hidden := "umdaccess:Hidden" |}.

Definition cfg (acc : option string) : ImportConfig :=
  {| job_id := "import-20240101000000"; model := Some "Item"; access := acc;
     member_of := None; container := Some "/objects";
     binaries_location := Some "/data"; extract_text_types := None |}.

Definition job_with (acc : option string) : ImportJob :=
  {| id := "import-20240101000000"; dir := "jobs/import-20240101000000";
     config := cfg acc;
     completed_log :=
       ItemLog.mk "jobs/import-20240101000000/completed.log.csv"
                  completed_fieldnames "id" true ∅;
     ssh_private_key := None; validation_reports := [] |}.

(** The state before the first run of the job. *)
Definition fresh (acc : option string) : State :=
  {| fs := ∅; repo := []; ticks := 0; source_csv := None;
     job := job_with acc; run_dir := None; timestamp := None;
     _invalid_items := None; _failed_items := None |}.

(** The state when the loop of the run starts. *)
Definition running (acc : option string) : State :=
  (@start_run collaborators None (fresh acc)).1.

Definition import_row_of (acc : option string) (ident : string) : ImportRow :=
  @ImportRow_new collaborators (job_with acc) (mkrow ident []) false.

(** Two rows for a ledger with the fields of the completed items. *)
Definition ledger_row_a : ItemLog.row :=
  <["id" := "a"]> (<["title" := "First"]> ∅).

End Scenario.

(** ** Notions used to state the invariants of a run *)

Module Tally.
Import Imports.

Section WithCollaborators.
Context `{Collaborators}.

(** The row is well-formed and its validation passes. *)
Definition valid_row (validate_only : bool) (j : ImportJob) (r : SourceRow)
  : bool :=
  match r with
  | WellFormed r =>
      match validate_item (ImportRow_new j r validate_only) with
      | Return v => ok v
      | Raise _ => false
      end
  | Malformed _ => false
  end.

(** The row is well-formed and its validation does not pass. *)
Definition invalid_row (validate_only : bool) (j : ImportJob) (r : SourceRow)
  : bool :=
  match r with
  | WellFormed r =>
      match validate_item (ImportRow_new j r validate_only) with
      | Return v => negb (ok v)
      | Raise _ => false
      end
  | Malformed _ => false
  end.

(** The files that the row names in its FILES column. *)
Definition row_files (r : SourceRow) : nat :=
  match r with
  | WellFormed r => length (Row.filenames r)
  | Malformed _ => 0
  end.

(** The relations between the counters of a run.  In import mode every
    valid item is created, updated, unchanged or failed; in validate-only
    mode none is. *)
Definition balanced (validate_only : bool) (c : Counter) : Prop :=
  counter_get c "skipped_items" = counter_get c "unchanged_items"
  ∧ counter_get c "errors" = 0
  ∧ if validate_only then
      counter_get c "created_items" = 0
      ∧ counter_get c "updated_items" = 0
      ∧ counter_get c "unchanged_items" = 0
      ∧ counter_get c "items_with_errors" = 0
    else
      counter_get c "valid_items"
      = counter_get c "created_items" + counter_get c "updated_items"
        + counter_get c "unchanged_items"
        + counter_get c "items_with_errors".

(** A ledger of the run, when it is open, is open on [path]. *)
Definition opened_at (log : option ItemLog.t) (path : string) : Prop :=
  match log with
  | Some l => ItemLog.filename l = path
  | None => True
  end.

(** What no step of a run changes: the directory and the timestamp of
    the run, the stored metadata file, and the job but for the keys of
    its completed ledger, which are never lost. *)
Definition same_run (s s' : State) : Prop :=
  run_dir s' = run_dir s ∧ timestamp s' = timestamp s
  ∧ source_csv s' = source_csv s
  ∧ id (job s') = id (job s) ∧ dir (job s') = dir (job s)
  ∧ config (job s') = config (job s)
  ∧ ssh_private_key (job s') = ssh_private_key (job s)
  ∧ validation_reports (job s') = validation_reports (job s)
  ∧ ItemLog.filename (completed_log (job s'))
    = ItemLog.filename (completed_log (job s))
  ∧ ItemLog.fieldnames (completed_log (job s'))
    = ItemLog.fieldnames (completed_log (job s))
  ∧ ItemLog.keyfield (completed_log (job s'))
    = ItemLog.keyfield (completed_log (job s))
  ∧ ItemLog.item_keys (completed_log (job s))
    ⊆ ItemLog.item_keys (completed_log (job s')).

(** The items that a run has completed, by its counters. *)
Definition completed_count (c : Counter) : nat :=
  counter_get c "created_items" + counter_get c "updated_items"
  + counter_get c "unchanged_items".

(** The record of an item in the ledger of the completed items. *)
Definition completed_record (i : Item.t) (line_reference stamp : string)
           (status : ImportedItemStatus) : ItemLog.record :=
  [getattr_identifier (Some i) line_reference; stamp;
   getattr_title (Some i); getattr_uri (Some i); status_value status].

(** The job holds its completed ledger as [ImportJob.__init__] builds
    it, and the ledger agrees with its file. *)
Definition ledger_in_place (s : State) : Prop :=
  ItemLog.filename (completed_log (job s))
  = path_child (dir (job s)) "completed.log.csv"
  ∧ ItemLog.fieldnames (completed_log (job s)) = completed_fieldnames
  ∧ ItemLog.keyfield (completed_log (job s)) = "id"
  ∧ ItemLog.kept (completed_log (job s)) (fs s).


(** The records of a file after its first line. *)
Definition entries (fs : ItemLog.filesystem) (path : string) : nat :=
  match fs !! path with
  | Some recs => pred (length recs)
  | None => 0
  end.

(** The records of the three ledgers of a run: the completed ledger of
    the job and the ledgers of the failed and of the invalid items. *)
Definition completed_entries (s : State) : nat :=
  entries (fs s) (ItemLog.filename (completed_log (job s))).

Definition failed_entries (s : State) : nat :=
  entries (fs s) (failed_ledger_path s).

Definition invalid_entries (s : State) : nat :=
  entries (fs s) (invalid_ledger_path s).

Definition logged (s : State) : nat :=
  completed_entries s + failed_entries s + invalid_entries s.

(** The markers of the invalid rows among the rows. *)
Definition is_marker (r : SourceRow) : bool :=
  match r with
  | Malformed _ => true
  | WellFormed _ => false
  end.

Definition markers (rs : list SourceRow) : nat :=
  length (List.filter is_marker rs).

(** A ledger of the dropped items that can be appended to, and whose
    file, when the ledger is open, is not empty. *)
Definition tidy (log : option ItemLog.t) (name : string) (s : State) : Prop :=
  ledger_ready log name DROPPED_FAILED_FIELDNAMES s
  ∧ match log with
    | Some l =>
        ItemLog.write_header l = true
        ∧ fs s !! ItemLog.filename l ≠ Some []
    | None => True
    end.

(** The state of a run in its loop: the completed ledger is in place,
    and the run is in a directory of the job with tidy ledgers. *)
Definition in_loop (s : State) : Prop :=
  ledger_in_place s
  ∧ (∃ stamp, run_dir s = Some (path_child (dir (job s)) stamp))
  ∧ tidy (_invalid_items s) "dropped-invalid.log.csv" s
  ∧ tidy (_failed_items s) "dropped-failed.log.csv" s.

End WithCollaborators.
End Tally.

(** ** The directory of a job *)

Module JobDir.
Import Imports.

(** The characters that [urllib.parse.quote] never quotes: the letters
    and digits of ASCII and "_", ".", "-" and "~". *)
Definition is_unreserved (c : ascii) : bool :=
  let n := nat_of_ascii c in
  ((65 <=? n)%nat && (n <=? 90)%nat)
  || ((97 <=? n)%nat && (n <=? 122)%nat)
  || ((48 <=? n)%nat && (n <=? 57)%nat)
  || bool_decide (n ∈ [95; 46; 45; 126]).

(** The digit of ["%02X"] for a number below 16. *)
Definition hex_digit (n : nat) : ascii :=
  default ("?"%char : ascii)
          (String.list_ascii_of_string "0123456789ABCDEF" !! n).

(** One byte of the UTF-8 encoding of the string, quoted. *)
Definition quote_byte (c : ascii) : string :=
  if is_unreserved c then String c EmptyString
  else String ("%"%char : ascii)
         (String (hex_digit (nat_of_ascii c / 16))
            (String (hex_digit (nat_of_ascii c mod 16)) EmptyString)).

(** [urllib.parse.quote(s, safe='')] *)
Fixpoint quote (s : string) : string :=
  match s with
  | EmptyString => EmptyString
  | String c s' => quote_byte c +:+ quote s'
  end.

(** [self.safe_id] *)
Definition safe_id (job_id : string) : string := quote job_id.

(** A name that [Path(a) / b] keeps as a segment: pathlib drops an
    empty segment and the segment ".". *)
Definition kept_segment (name : string) : Prop := name ≠ "" ∧ name ≠ ".".

(** [ImportJob.__init__], given the directory of the jobs; the directory
    of the job is [Path(jobs_dir) / self.safe_id], the entry of the name
    [safe_id] when that is a segment that pathlib keeps. *)
Definition ImportJob_init (fs : ItemLog.filesystem) (job_id jobs_dir : string)
           (ssh_private_key : option string) : outcome ImportJob :=
  ImportJob_new fs job_id (path_child jobs_dir (safe_id job_id))
                ssh_private_key.

End JobDir.

(** ** plastron.cli.commands.importcommand *)

Module Cli.

(** What the conversion of an argument of the command line gives: the
    value, the refusal of the argument, or another exception. *)
Inductive parsed (A : Type) : Type :=
| Parsed (a : A)
| ArgumentTypeError (msg : string)
| Uncaught (e : exn).
Global Arguments Parsed {A} a.
Global Arguments ArgumentTypeError {A} msg.
Global Arguments Uncaught {A} e.

Section WithInt.

(** [int(n)] for a string of the command line. *)
Variable int : string -> outcome Z.

(** [percentile], the type of the argument [--percent].  Its test is
    [not p > 0 and p < 100], in which [not] binds tighter than [and]. *)
Definition percentile (n : string) : parsed Z :=
  match int n with
  | Raise e => Uncaught e
  | Return p =>
      if negb (0 <? p)%Z && (p <? 100)%Z
      then ArgumentTypeError "Percent param must be 1-99"
      else Parsed p
  end.

End WithInt.

End Cli.

(** ** plastron.core.util.ResourceList: the log of the completed items *)

Module ResourceList.

Definition completed_fieldnames : list string := ["uri"; "title"; "timestamp"].

(** The list with its two ledgers; the client, the URIs and the file of
    the list play no part in the log of the completed items. *)
Record t : Type := mk {
  completed : option ItemLog.t;
  use_transaction : bool;
  completed_buffer : option ItemLog.t;
}.

(** [__init__]: an exception of the ledger is logged and raised again. *)
Definition new (fs : ItemLog.filesystem) (completed_file : option string)
  : outcome t :=
  match completed_file with
  | Some f =>
      c ← ItemLog.new fs f completed_fieldnames "uri" true;
      Return (mk (Some c) true None)
  | None => Return (mk None true None)
  end.

(** The start of [process] with a transaction: the buffer is a ledger
    without a header over the name of a temporary file, [tmp]; the
    temporary file itself is not kept. *)
Definition open_buffer (rl : t) (tmp : string) (fs : ItemLog.filesystem)
  : outcome t :=
  b ← ItemLog.new fs tmp completed_fieldnames "uri" false;
  Return (mk (completed rl) true (Some b)).

(** The dict that [log_completed] writes. *)
Definition completed_row (uri title timestamp : string) : ItemLog.row :=
  <["uri" := uri]> (<["title" := title]> (<["timestamp" := timestamp]> ∅)).

(** [log_completed] *)
Definition log_completed (rl : t) (uri title timestamp : string)
           (fs : ItemLog.filesystem) : ItemLog.filesystem * outcome t :=
  match completed rl with
  | None => (fs, Return rl)
  | Some c =>
      let row := completed_row uri title timestamp in
      if use_transaction rl then
        match completed_buffer rl with
        | Some b =>
            match ItemLog.writerow b row fs with
            | (fs', Return b') =>
                (fs', Return (mk (completed rl) (use_transaction rl) (Some b')))
            | (fs', Raise e) => (fs', Raise e)
            end
        | None =>
            (fs, Raise (AttributeError
                          "'NoneType' object has no attribute 'writerow'"))
        end
      else
        match ItemLog.writerow c row fs with
        | (fs', Return c') =>
            (fs', Return (mk (Some c') (use_transaction rl)
                             (completed_buffer rl)))
        | (fs', Raise e) => (fs', Raise e)
        end
  end.

(** The calls of [log_completed] that the method of [process] makes, in
    their order, up to the first that raises. *)
Fixpoint log_all (rl : t) (items : list (string * string * string))
         (fs : ItemLog.filesystem) : ItemLog.filesystem * outcome t :=
  match items with
  | [] => (fs, Return rl)
  | (uri, title, timestamp) :: items' =>
      match log_completed rl uri title timestamp fs with
      | (fs', Return rl') => log_all rl' items' fs'
      | (fs', Raise e) => (fs', Raise e)
      end
  end.

(** What [shutil.copyfile] gives. *)
Inductive copied : Type :=
| Copied (fs : ItemLog.filesystem)
| FileNotFoundError (path : string)
| SameFileError
| NoBuffer.

(** [shutil.copyfile(src, dst)] *)
Definition copyfile (src dst : string) (fs : ItemLog.filesystem) : copied :=
  match fs !! src with
  | None => FileNotFoundError src
  | Some recs =>
      if bool_decide (src = dst) then SameFileError
      else Copied (<[dst := recs]> fs)
  end.

(** The end of [process] after the commit of its transaction:
    [if self.completed and self.completed.filename: shutil.copyfile(...)].
    An ItemLog has a length and no truth value of its own, so it is true
    when its length is not zero; a path is always true. *)
Definition copy_completed (rl : t) (fs : ItemLog.filesystem) : copied :=
  match completed rl with
  | Some c =>
      if negb (Nat.eqb (ItemLog.len c) 0) then
        match completed_buffer rl with
        | Some b => copyfile (ItemLog.filename b) (ItemLog.filename c) fs
        | None => NoBuffer
        end
      else Copied fs
  | None => Copied fs
  end.

(** The record of an item in the log. *)
Definition record_of (item : string * string * string) : ItemLog.record :=
  [item.1.1; item.1.2; item.2].

End ResourceList.

(** ** Ledgers, files and a job for the cases of the properties *)

Module Cases.
Import Imports Scenario.

(** A ledger of two fields. *)
Definition small_ledger : ItemLog.t :=
  ItemLog.mk "items.csv" ["id"; "title"] "id" true ∅.

(** A row without a value for the key field. *)
Definition keyless_row : ItemLog.row := <["title" := "First"]> ∅.

(** A row with a field that the ledger does not have. *)
Definition foreign_row : ItemLog.row :=
  <["id" := "a"]> (<["colour" := "red"]> ∅).

(** A file whose header does not hold the key field. *)
Definition foreign_file : ItemLog.filesystem :=
  <["items.csv" := [["uri"; "title"]; ["u1"; "First"]]]> ∅.

(** A file with a record that ends before the column of the key. *)
Definition short_file : ItemLog.filesystem :=
  <["items.csv" := [["title"; "id"]; ["First"]]]> ∅.

(** The job of the scenario without a binaries location, before its
    first run. *)
Definition bare : State :=
  {| fs := ∅; repo := []; ticks := 0; source_csv := None;
     job := {| id := "import-20240101000000";
               dir := "jobs/import-20240101000000";
               config := {| job_id := "import-20240101000000";
                            model := Some "Item"; access := None;
                            member_of := None; container := Some "/objects";
                            binaries_location := None;
                            extract_text_types := None |};
               completed_log :=
                 ItemLog.mk "jobs/import-20240101000000/completed.log.csv"
                            completed_fieldnames "id" true ∅;
               ssh_private_key := None; validation_reports := [] |};
     run_dir := None; timestamp := None;
     _invalid_items := None; _failed_items := None |}.

(** The log of the completed items of a list, empty and with one item,
    the file of the latter, and two items to log. *)
Definition empty_log : ItemLog.t :=
  ItemLog.mk "completed.csv" ResourceList.completed_fieldnames "uri" true ∅.

Definition one_item_log : ItemLog.t :=
  ItemLog.mk "completed.csv" ResourceList.completed_fieldnames "uri" true
             {[Some "http://repo/1"]}.

Definition one_item_files : ItemLog.filesystem :=
  <["completed.csv" := [["uri"; "title"; "timestamp"];
                        ["http://repo/1"; "One"; "2024-01-01T00:00:00"]]]> ∅.

Definition item_two : string * string * string :=
  ("http://repo/2", "Two", "2024-01-02T00:00:00").

Definition item_three : string * string * string :=
  ("http://repo/3", "Three", "2024-01-03T00:00:00").

End Cases.

(** * Properties *)

Module ItemLogFacts.
Import ItemLog.


Lemma lookup_list_to_map_same {V} (l : list (string * V)) (k : string) (x : V) :
  k ∈ l.*1 → (∀ v, (k, v) ∈ l → v = x) →
  (list_to_map l : gmap string V) !! k = Some x.
Proof.
  induction l as [|[k' v'] l IH]; simpl; intros Hin Hall.
  - by apply elem_of_nil in Hin.
  - destruct (decide (k' = k)) as [->|Hne].
    + rewrite lookup_insert_eq. f_equal. apply Hall. left.
    + rewrite lookup_insert_ne by done. apply IH.
      * apply elem_of_cons in Hin as [?|?]; [congruence|done].
      * intros v Hv. apply Hall. by right.
Qed.

Lemma foldl_fill_lookup (ks : list string) (d : gmap string key) (k : string) :
  foldl (fun d k => <[k := None]> d) d ks !! k
  = if bool_decide (k ∈ ks) then Some None else d !! k.
Proof.
  revert d. induction ks as [|k' ks IH]; intros d; simpl.
  - done.
  - rewrite IH. destruct (decide (k ∈ ks)) as [Hin|Hnin].
    + rewrite !bool_decide_eq_true_2; [done| |done]. by right.
    + rewrite (bool_decide_eq_false_2 (k ∈ ks)) by done.
      destruct (decide (k' = k)) as [->|Hne].
      * rewrite lookup_insert_eq, bool_decide_eq_true_2; [done|left].
      * rewrite lookup_insert_ne by done.
        rewrite bool_decide_eq_false_2; [done|].
        intros [?|?]%elem_of_cons; congruence.
Qed.

(** A header that holds the key field gives every row a key. *)
Lemma dictreader_row_key (header : list string) (kf : string) (rec : record) :
  kf ∈ header → is_Some (dictreader_row header rec !! kf).
Proof.
  intros Hin. unfold dictreader_row. rewrite foldl_fill_lookup.
  case_bool_decide as Hd; [by eexists|].
  rewrite <- (take_drop (length rec) header) in Hin.
  apply elem_of_app in Hin as [Hin|Hin]; [|done].
  apply list_elem_of_lookup in Hin as [i Hi].
  pose proof (lookup_lt_Some _ _ _ Hi) as Hlt.
  rewrite length_take in Hlt.
  rewrite lookup_take_Some in Hi. destruct Hi as [Hi Hlti].
  destruct (lookup_lt_is_Some_2 rec i) as [v Hv]; [lia|].
  apply not_eq_None_Some. intros Hnone.
  apply not_elem_of_list_to_map in Hnone. apply Hnone.
  rewrite fmap_reverse, elem_of_reverse.
  apply list_elem_of_lookup. exists i.
  rewrite list_lookup_fmap, lookup_zip_with. rewrite Hi. simpl.
  rewrite list_lookup_fmap, Hv. done.
Qed.

(** Reading back a record that the writer made under the same fields. *)
Lemma dictreader_written (fields : list string) (kf : string) (r : row) :
  kf ∈ fields →
  dictreader_row fields (written fields r) !! kf = Some (Some (row_key kf r)).
Proof.
  intros Hin. unfold dictreader_row, written.
  rewrite length_fmap, drop_all. simpl.
  apply lookup_list_to_map_same.
  - rewrite fmap_reverse, elem_of_reverse.
    apply list_elem_of_lookup in Hin as [i Hi].
    apply list_elem_of_lookup. exists i.
    rewrite list_lookup_fmap, lookup_zip_with, Hi. simpl.
    rewrite !list_lookup_fmap, Hi. done.
  - intros v Hv. rewrite elem_of_reverse in Hv.
    apply list_elem_of_lookup in Hv as [i Hi].
    rewrite lookup_zip_with in Hi.
    destruct (fields !! i) as [f|] eqn:Hf; [|done]. simpl in Hi.
    rewrite !list_lookup_fmap, Hf in Hi. simpl in Hi.
    by inversion Hi.
Qed.

Lemma add_keys_spec (kf : string) (ds : list (gmap string key)) (ks : gset key) :
  Forall (fun d => is_Some (d !! kf)) ds →
  add_keys kf ds ks
  = Return (list_to_set ((fun d => default None (d !! kf)) <$> ds) ∪ ks).
Proof.
  intros Hall. revert ks.
  induction Hall as [|d ds [k Hk] _ IH]; intros ks; csimpl.
  - f_equal. set_solver.
  - rewrite Hk, IH. csimpl. f_equal. set_solver.
Qed.

Lemma new_absent (fs : filesystem) (fn : string) (fields : list string)
      (kf : string) (h : bool) :
  fs !! fn = None → new fs fn fields kf h = Return (mk fn fields kf h ∅).
Proof.
  intros Hfs. unfold new, exists_. simpl. rewrite Hfs.
  rewrite bool_decide_eq_false_2; [done|]. by intros [? ?].
Qed.

Lemma new_present (fs : filesystem) (fn : string) (header : list string)
      (body : list record) (fields : list string) (kf : string) (h : bool) :
  fs !! fn = Some (header :: body) → kf ∈ header →
  new fs fn fields kf h = Return (mk fn fields kf h (file_keys header kf body)).
Proof.
  intros Hfs Hin. unfold new, exists_. simpl. rewrite Hfs.
  rewrite bool_decide_eq_true_2 by by eexists.
  unfold load_keys, iter. simpl. rewrite Hfs.
  rewrite add_keys_spec.
  - simpl. unfold file_keys. rewrite <- list_fmap_compose.
    do 2 f_equal. set_solver.
  - apply Forall_fmap, Forall_forall. intros rec _. simpl.
    by apply dictreader_row_key.
Qed.

Lemma dictwriter_accepted (fields : list string) (kf : string) (r : row) :
  accepted fields kf r → dictwriter_row fields r = Return (written fields r).
Proof.
  intros [Hdom _]. unfold dictwriter_row.
  by rewrite bool_decide_eq_true_2.
Qed.

Lemma append_accepted (l : t) (r : row) (fs : filesystem) :
  accepted (fieldnames l) (keyfield l) r →
  append l r fs
  = (write_record (filename l) (written (fieldnames l) r) (writer l fs),
     Return (mk (filename l) (fieldnames l) (keyfield l) (write_header l)
                ({[Some (row_key (keyfield l) r)]} ∪ item_keys l))).
Proof.
  intros Hacc. unfold append.
  rewrite (dictwriter_accepted _ _ _ Hacc).
  destruct Hacc as [_ [k Hk]]. unfold row_key. rewrite Hk. done.
Qed.

Lemma written_nonempty (fields : list string) (kf : string) (r : row) :
  kf ∈ fields → written fields r ≠ [].
Proof.
  intros Hin Hnil. apply fmap_nil_inv in Hnil. subst.
  by apply elem_of_nil in Hin.
Qed.

Lemma file_keys_snoc (fields : list string) (kf : string)
      (body : list record) (r : row) :
  kf ∈ fields →
  file_keys fields kf (body ++ [written fields r])
  = {[Some (row_key kf r)]} ∪ file_keys fields kf body.
Proof.
  intros Hin. unfold file_keys.
  rewrite filter_app, fmap_app, list_to_set_app_L.
  rewrite filter_cons_True by by eapply written_nonempty.
  rewrite filter_nil. simpl. rewrite dictreader_written by done. simpl.
  set_solver.
Qed.



Lemma kept_append (l : t) (r : row) (fs : filesystem) :
  keyfield l ∈ fieldnames l → kept l fs →
  accepted (fieldnames l) (keyfield l) r →
  ∃ fs' l',
    append l r fs = (fs', Return l') ∧ kept l' fs'
    ∧ filename l' = filename l ∧ fieldnames l' = fieldnames l
    ∧ keyfield l' = keyfield l ∧ write_header l' = write_header l
    ∧ item_keys l' = {[Some (row_key (keyfield l) r)]} ∪ item_keys l
    ∧ ∀ p, p ≠ filename l → fs' !! p = fs !! p.
Proof.
  intros Hin Hkept Hacc. eexists _, _.
  split; [by apply append_accepted|]. simpl.
  split; [|repeat split].
  - right. unfold writer, exists_, write_record, create. simpl.
    destruct Hkept as [(Hfs & Hkeys & Hhdr)|(body & Hfs & Hkeys)].
    + rewrite bool_decide_eq_false_2 by (rewrite Hfs; by intros [? ?]).
      rewrite Hhdr, !lookup_insert_eq. simpl.
      exists [written (fieldnames l) r]. split; [done|].
      rewrite Hkeys. rewrite <- (file_keys_snoc _ _ []) by done. done.
    + rewrite bool_decide_eq_true_2 by (rewrite Hfs; by eexists).
      rewrite Hfs, lookup_insert_eq. simpl.
      exists (body ++ [written (fieldnames l) r]). split; [done|].
      rewrite Hkeys. by rewrite file_keys_snoc.
  - intros p Hp. unfold write_record, writer, create.
    rewrite lookup_insert_ne by done.
    destruct (exists_ l fs); [done|]. by rewrite lookup_insert_ne.
Qed.






End ItemLogFacts.

Module ResolverFacts.
Import Imports.

Lemma rev_app_append (a b c : string) :
  String.rev_app (a +:+ b) c = String.rev_app b (String.rev_app a c).
Proof.
  revert c. induction a as [|x a IH]; intros c; [done|].
  change (String x a +:+ b) with (String x (a +:+ b)). simpl. apply IH.
Qed.

Lemma startswith_append (p rest : string) : startswith (p +:+ rest) p = true.
Proof.
  unfold startswith. induction p as [|a p IH].
  - by destruct rest.
  - change (String a p +:+ rest) with (String a (p +:+ rest)). simpl.
    destruct (ascii_dec a a); [apply IH|done].
Qed.

(** A location that a separator was added to ends with it. *)
Lemma endswith_separator (base : string) : endswith (base +:+ "/") "/" = true.
Proof.
  unfold endswith, String.rev. rewrite rev_app_append. simpl.
  destruct (String.rev_app base ""); reflexivity.
Qed.

Lemma with_separator_ends (base : string) :
  endswith (with_separator base) "/" = true.
Proof.
  unfold with_separator. destruct (endswith base "/") eqn:E; [done|].
  apply endswith_separator.
Qed.

(** C8: [get_source] builds its source from the prefix of the base
    location alone, as a value (it takes and gives no state): "zip:P"
    gives an archive source over P for the path; "sftp:" a remote source
    at the joined location, with the key of the job; "http:" and
    "https:" an HTTP source at the base location, ended by "/",
    followed by the path; "zip+sftp:" an archive source over the remote
    location, with the key of the job; any other base location a local
    source at the join of the base location and the path. *)
Theorem get_source_dispatch (job : ImportJob) (path : string) :
  (∀ P, get_source job ("zip:" +:+ P) path = ZipFileSource P path None)
  ∧ get_source job "zip:/tmp/a.zip" "x/y.tif"
    = ZipFileSource "/tmp/a.zip" "x/y.tif" None
  ∧ (∀ rest, get_source job ("sftp:" +:+ rest) path
             = RemoteFileSource (path_join ("sftp:" +:+ rest) path)
                                {| key_filename := ssh_private_key job |})
  ∧ (∀ rest, get_source job ("http:" +:+ rest) path
             = HTTPFileSource (with_separator ("http:" +:+ rest) +:+ path))
  ∧ (∀ rest, get_source job ("https:" +:+ rest) path
             = HTTPFileSource (with_separator ("https:" +:+ rest) +:+ path))
  ∧ (∀ base, endswith (with_separator base) "/" = true)
  ∧ (∀ rest, get_source job ("zip+sftp:" +:+ rest) path
             = ZipFileSource ("sftp:" +:+ rest) path
                             (Some {| key_filename := ssh_private_key job |}))
  ∧ (∀ base,
       if startswith base "zip:" || startswith base "sftp:"
          || startswith base "http:" || startswith base "https:"
          || startswith base "zip+sftp:"
       then True
       else get_source job base path = LocalFileSource (path_join base path))
  ∧ get_source job "/data" "a/b.txt" = LocalFileSource "/data/a/b.txt".
Proof.
  repeat split; intros;
    try (unfold get_source; rewrite ?startswith_append; reflexivity).
  - apply with_separator_ends.
  - unfold get_source.
    destruct (startswith base "zip:"); [done|].
    destruct (startswith base "sftp:"); [done|].
    destruct (startswith base "http:"); [done|].
    destruct (startswith base "https:"); [done|].
    destruct (startswith base "zip+sftp:"); done.
Qed.
End ResolverFacts.

Module StreamFacts.
Import Imports ItemLog ItemLogFacts.

Lemma dictreader_row_head (kf : string) (rest : list string)
      (v : string) (vs : list string) :
  kf ∉ rest → dictreader_row (kf :: rest) (v :: vs) !! kf = Some (Some v).
Proof.
  intros Hnin. unfold dictreader_row. rewrite foldl_fill_lookup. simpl.
  rewrite bool_decide_eq_false_2.
  2:{ intros Hin. apply Hnin.
      by eapply subseteq_drop. }
  apply lookup_list_to_map_same.
  - rewrite fmap_reverse, elem_of_reverse. simpl. left.
  - intros v' Hv'. rewrite elem_of_reverse in Hv'.
    apply elem_of_cons in Hv' as [Heq|Hin]; [congruence|].
    exfalso. apply Hnin. by apply elem_of_zip_l in Hin.
Qed.

(** The stream leaves out the rows whose identifier the ledger holds. *)
Lemma rows_exclude_completed `{Collaborators} (md : MetadataSpreadsheet)
      (limit pct : option nat) (log : ItemLog.t) (r : Row.t) :
  contains log (Some (Row.identifier r)) = true →
  WellFormed r ∉ rows md limit pct (Some log).
Proof.
  intros Hc Hin. unfold rows in Hin.
  apply list_elem_of_In, filter_In in Hin as [_ Hkeep].
  simpl in Hkeep. rewrite Hc in Hkeep. discriminate.
Qed.

(** A job that is built over the completed ledger of earlier runs holds
    the identifier of every record of that ledger. *)
Lemma ImportJob_new_completed (fs : filesystem) (job_id job_dir : string)
      (key : option string) (body : list record)
      (ident : string) (fields : list string) :
  fs !! path_child job_dir "completed.log.csv"
  = Some (completed_fieldnames :: body) →
  (ident :: fields) ∈ body →
  ∃ j, ImportJob_new fs job_id job_dir key = Return j
       ∧ contains (completed_log j) (Some ident) = true.
Proof.
  intros Hfs Hin. unfold ImportJob_new.
  erewrite new_present; [|exact Hfs|by left].
  eexists. split; [reflexivity|]. simpl.
  unfold contains. simpl. apply bool_decide_eq_true_2.
  unfold file_keys. rewrite elem_of_list_to_set.
  apply list_elem_of_fmap. exists (ident :: fields). split.
  - unfold completed_fieldnames. rewrite dictreader_row_head; [done|].
    apply (bool_decide_unpack _). vm_compute. exact I.
  - apply list_elem_of_filter. by split.
Qed.

(** C1: in a run of a job, the stream of the rows leaves out every row
    whose identifier is a key of the completed ledger of the job, so
    that a row that an earlier run completed is not processed again. *)
Theorem resumed_rows_exclude_completed `{Collaborators} (s : State)
        (md : MetadataSpreadsheet) (limit pct : option nat) (r : Row.t) :
  contains (completed_log (job s)) (Some (Row.identifier r)) = true →
  WellFormed r ∉ row_stream md limit pct s.
Proof. apply rows_exclude_completed. Qed.
End StreamFacts.

Module RowFacts.
Import Imports.

Section WithCollaborators.
Context `{Collaborators}.

Lemma only_calls_lift {A} (P : RepoCall → Prop) (o : outcome A) :
  only_calls P (lift o).
Proof.
  intros h h' o' [= <- <-]. exists []. by rewrite app_nil_r.
Qed.

Lemma only_calls_call (P : RepoCall → Prop) (c : RepoCall) :
  P c → only_calls P (call c).
Proof.
  intros Hc h h' o [= <- <-]. exists [c]. split; [done|]. by constructor.
Qed.

Lemma only_calls_and_then {A B} (P : RepoCall → Prop) (m : RepoM A)
      (k : A → RepoM B) :
  only_calls P m → (∀ a, only_calls P (k a)) → only_calls P (and_then m k).
Proof.
  intros Hm Hk h h' o. unfold and_then.
  destruct (m h) as [h1 [a|e]] eqn:Em; intros Heq.
  - destruct (Hm _ _ _ Em) as (cs1 & -> & H1).
    destruct (Hk _ _ _ _ Heq) as (cs2 & -> & H2).
    exists (cs1 ++ cs2). rewrite app_assoc. split; [done|].
    by apply Forall_app.
  - injection Heq as <- <-. by apply (Hm _ _ _ Em).
Qed.

Lemma only_calls_transaction {A} (P : RepoCall → Prop) (body : RepoM A) :
  P TxnBegin → P TxnCommit → P TxnRollback →
  only_calls P body → only_calls P (transaction body).
Proof.
  intros Hb Hc Hr Hbody. unfold transaction.
  apply only_calls_and_then; [by apply only_calls_call|].
  intros _ h h' o.
  destruct (body h) as [h1 [a|e]] eqn:Eb; intros Heq.
  - destruct (Hbody _ _ _ Eb) as (cs1 & -> & H1).
    pose proof (only_calls_and_then P (call TxnCommit)
                  (fun _ => lift (Return a))) as Hk.
    destruct (Hk (only_calls_call P _ Hc)
                 (fun _ => only_calls_lift P _) _ _ _ Heq)
      as (cs2 & -> & H2).
    exists (cs1 ++ cs2). rewrite app_assoc. split; [done|].
    by apply Forall_app.
  - injection Heq as <- <-.
    destruct (Hbody _ _ _ Eb) as (cs1 & -> & H1).
    exists (cs1 ++ [TxnRollback]). rewrite app_assoc. split; [done|].
    apply Forall_app. split; [done|]. by constructor.
Qed.

Lemma only_calls_create_files (P : RepoCall → Prop) (j : ImportJob)
      (names : list string) :
  (∀ src, P (CreateFile src)) → only_calls P (create_files j names).
Proof.
  intros Hp. induction names as [|name rest IH]; simpl.
  - apply only_calls_lift.
  - apply only_calls_and_then; [apply only_calls_lift|]. intros src.
    apply only_calls_and_then; [by apply only_calls_call|]. by intros _.
Qed.

(** The creation of a resource calls the repository for the
    transaction, the child, the pages and the files only. *)
Lemma create_resource_calls (self : ImportRow) (h : Repo) :
  ∃ cs, (create_resource self h).2.1 = h ++ cs
        ∧ Forall (fun c => is_update c = false) cs.
Proof.
  unfold create_resource. destruct (tag_item self) as [i|e]; simpl.
  2:{ exists []. by rewrite app_nil_r. }
  assert (Ht : only_calls (fun c => is_update c = false)
                 (transaction (create_in_transaction self i))).
  { apply only_calls_transaction; try done.
    unfold create_in_transaction.
    apply only_calls_and_then; [by apply only_calls_call|]. intros _.
    apply only_calls_and_then.
    - destruct (Row.has_files (row self)); [|apply only_calls_lift].
      apply only_calls_and_then; [apply only_calls_lift|].
      intros groups. by apply only_calls_call.
    - intros _. apply only_calls_and_then; [|intros _; apply only_calls_lift].
      destruct (Row.has_item_files (row self)); [|apply only_calls_lift].
      by apply only_calls_create_files. }
  destruct (transaction (create_in_transaction self i) h)
    as [h' o] eqn:Et.
  destruct (Ht _ _ _ Et) as (cs & -> & Hcs).
  exists cs. split; [|done].
  destruct o as [a|[]]; done.
Qed.

(** C2 (as amended): the three-way decision of [update_repo].  For an
    item whose identity is still a placeholder it takes the creation
    path, makes no update call, and returns CREATED when the creation
    returns, and raises what the creation raises otherwise.  Else, for
    an item with changes, it reads the resource and, when the read is
    answered, makes exactly one update call; it returns MODIFIED when
    both calls are answered, and raises (a job error for an error of the
    repository) with at most one update call made otherwise.  Else it
    makes no call and returns UNCHANGED. *)
Theorem update_repo_decision (self : ImportRow) (h : Repo) :
  let uri := Item.uri (item self) in
  let r := update_repo self h in
  if startswith uri "urn:uuid:" then
    r.1 = (create_resource self h).1
    ∧ r.2.1 = (create_resource self h).2.1
    ∧ r.2.2 = match (create_resource self h).2.2 with
              | Return _ => Return CREATED
              | Raise e => Raise e
              end
    ∧ ∃ cs, r.2.1 = h ++ cs ∧ Forall (fun c => is_update c = false) cs
  else if Item.has_changes (item self) then
    r.1 = item self
    ∧ match repo_raises h (Read uri) with
      | Some e => r.2 = (h ++ [Read uri], Raise (update_error e))
      | None =>
          length (filter (fun c => is_update c = true) (calls_since h r.2.1)) = 1
          ∧ match repo_raises (h ++ [Read uri]) (Update uri (item self)) with
            | Some e =>
                r.2 = (h ++ [Read uri; Update uri (item self)],
                       Raise (update_error e))
            | None =>
                r.2 = (h ++ [Read uri; Update uri (item self)],
                       Return MODIFIED)
            end
      end
  else r = (item self, (h, Return UNCHANGED)).
Proof.
  intros uri r. subst uri r. unfold update_repo.
  destruct (startswith (Item.uri (item self)) "urn:uuid:").
  - pose proof (create_resource_calls self h) as Hcs.
    destruct (create_resource self h) as [i [h' [a|e]]]; simpl in *; done.
  - destruct (Item.has_changes (item self)); [|done].
    split; [done|]. unfold and_then, call. simpl.
    destruct (repo_raises h (Read (Item.uri (item self)))) as [e|] eqn:Er.
    { destruct e; done. }
    destruct (repo_raises (h ++ [Read (Item.uri (item self))])
                (Update (Item.uri (item self)) (item self))) as [e|] eqn:Eu.
    + rewrite <- (app_assoc h). simpl.
      destruct e; (split; [|done]);
        unfold calls_since; simpl; by rewrite drop_app_length.
    + rewrite <- (app_assoc h). simpl. split; [|done].
      unfold calls_since. simpl. by rewrite drop_app_length.
Qed.

(** With an access class in the configuration, the [access] property
    raises, and so does the creation, before any change and any call. *)
Lemma create_resource_with_access (self : ImportRow) (h : Repo) (a : string) :
  access (config (row_job self)) = Some a →
  create_resource self h
  = (item self, (h, Raise (TypeError "type 'URIRef' is not subscriptable"))).
Proof.
  intros Ha. unfold create_resource, tag_item, job_access. by rewrite Ha.
Qed.

End WithCollaborators.
End RowFacts.

Module RunFacts.
Import Imports ItemLogFacts.

Section WithCollaborators.
Context `{Collaborators}.

(** *** Counters *)

Lemma counter_add_ne (c : Counter) (k k' : string) (n : nat) :
  k ≠ k' → counter_add c k n !! k' = c !! k'.
Proof. intros Hne. unfold counter_add. by rewrite lookup_insert_ne. Qed.

Lemma counter_add_eq (c : Counter) (k : string) (n : nat) :
  counter_get (counter_add c k n) k = counter_get c k + n.
Proof. unfold counter_get, counter_add. by rewrite lookup_insert_eq. Qed.

Lemma counter_get_add_ne (c : Counter) (k k' : string) (n : nat) :
  k ≠ k' → counter_get (counter_add c k n) k' = counter_get c k'.
Proof. intros Hne. unfold counter_get. by rewrite counter_add_ne. Qed.

Lemma counter_add_is_Some (c : Counter) (k k' : string) (n : nat) :
  is_Some (c !! k') → is_Some (counter_add c k n !! k').
Proof.
  intros Hs. unfold counter_add. destruct (decide (k = k')) as [->|Hne].
  - rewrite lookup_insert_eq. by eexists.
  - by rewrite lookup_insert_ne.
Qed.

Lemma counts_on_refl (c : Counter) : counts_on c c.
Proof. by split. Qed.

Lemma counts_on_trans (a b c : Counter) :
  counts_on a b → counts_on b c → counts_on a c.
Proof.
  intros [H1 H2] [H3 H4]. split.
  - intros k Hk. by rewrite H3, H1.
  - intros k Hk. by apply H4, H2.
Qed.

Lemma counts_on_add (c : Counter) (k : string) (n : nat) :
  k ∈ counted → counts_on c (counter_add c k n).
Proof.
  intros Hin. split.
  - intros k' Hk'. apply counter_add_ne. intros ->. done.
  - intros k'. apply counter_add_is_Some.
Qed.

Lemma counts_on_status (c : Counter) (st : ImportedItemStatus) :
  counts_on c (count_status c st).
Proof.
  destruct st; simpl.
  - apply counts_on_add. unfold counted. set_solver.
  - apply counts_on_add. unfold counted. set_solver.
  - eapply counts_on_trans; apply counts_on_add; unfold counted; set_solver.
Qed.


(** *** The ledgers of the run *)

Lemma dropped_row_accepted (i : option Item.t) (lr stamp reason : string) :
  ItemLog.accepted DROPPED_FAILED_FIELDNAMES "id"
                   (ledger_row i lr stamp "reason" reason).
Proof.
  split.
  - unfold ledger_row, DROPPED_FAILED_FIELDNAMES.
    rewrite !dom_insert_L, dom_empty_L. set_solver.
  - unfold ledger_row. rewrite lookup_insert_eq. by eexists.
Qed.

Lemma dropped_row_written (i : option Item.t) (lr stamp reason : string) :
  ItemLog.written DROPPED_FAILED_FIELDNAMES
                  (ledger_row i lr stamp "reason" reason)
  = dropped_record i lr stamp reason.
Proof.
  unfold ItemLog.written, ledger_row, DROPPED_FAILED_FIELDNAMES,
    dropped_record.
  simpl. by simplify_map_eq.
Qed.

Lemma dropped_row_key (i : option Item.t) (lr stamp reason : string) :
  ItemLog.row_key "id" (ledger_row i lr stamp "reason" reason)
  = getattr_identifier i lr.
Proof. unfold ItemLog.row_key, ledger_row. by rewrite lookup_insert_eq. Qed.

(** An append to a ledger with the fields of the dropped items: the
    record goes to the end of its file, and no other file changes. *)
Lemma append_dropped (l : ItemLog.t) (fs : ItemLog.filesystem)
      (i : option Item.t) (lr stamp reason : string) :
  ItemLog.fieldnames l = DROPPED_FAILED_FIELDNAMES →
  ItemLog.keyfield l = "id" →
  ∃ fs' l' before,
    ItemLog.append l (ledger_row i lr stamp "reason" reason) fs
    = (fs', Return l')
    ∧ fs' !! ItemLog.filename l
      = Some (before ++ [dropped_record i lr stamp reason])
    ∧ (∀ p, p ≠ ItemLog.filename l → fs' !! p = fs !! p)
    ∧ ItemLog.filename l' = ItemLog.filename l
    ∧ ItemLog.fieldnames l' = ItemLog.fieldnames l
    ∧ ItemLog.keyfield l' = ItemLog.keyfield l
    ∧ ItemLog.contains l' (Some (getattr_identifier i lr)) = true.
Proof.
  intros Hf Hk.
  rewrite append_accepted
    by (rewrite Hf, Hk; apply dropped_row_accepted).
  rewrite Hf, Hk, dropped_row_written, dropped_row_key.
  eexists _, _, _. split; [reflexivity|].
  split; [|split; [|repeat split]].
  - unfold ItemLog.write_record. by rewrite lookup_insert_eq.
  - intros p Hp. unfold ItemLog.write_record, ItemLog.writer, ItemLog.create.
    rewrite lookup_insert_ne by done.
    destruct (ItemLog.exists_ l fs); [done|]. by rewrite lookup_insert_ne.
  - unfold ItemLog.contains. simpl. apply bool_decide_eq_true_2. set_solver.
Qed.

Lemma drop_failed_ready (s : State) (i : option Item.t) (lr reason : string) :
  ledger_ready (_failed_items s) "dropped-failed.log.csv"
               DROPPED_FAILED_FIELDNAMES s →
  ∃ s' l',
    drop_failed i lr reason s = (s', Return ())
    ∧ logs_to (failed_ledger_path s)
              (dropped_record i lr (isoformat (clock (ticks s))) reason) s s'
    ∧ _failed_items s' = Some l'
    ∧ _invalid_items s' = _invalid_items s
    ∧ ItemLog.contains l' (Some (getattr_identifier i lr)) = true
    ∧ ledger_ready (_failed_items s') "dropped-failed.log.csv"
                   DROPPED_FAILED_FIELDNAMES s'.
Proof.
  intros (d & Hd & Hlog).
  unfold drop_failed, bindM, failed_items, failed_ledger_path.
  rewrite Hd. simpl.
  destruct (_failed_items s) as [l|] eqn:El.
  - destruct Hlog as (Hfn & Hf & Hk).
    unfold datetimestamp, bindM, now, ret, append_to. simpl.
    destruct (append_dropped l (fs s) i lr (isoformat (clock (ticks s)))
                reason Hf Hk)
      as (fs' & l' & before & Happ & Hrec & Hother & Hfn' & Hf' & Hk' & Hc).
    rewrite Happ. simpl. eexists _, l'. split; [reflexivity|].
    rewrite Hfn in *.
    repeat split; simpl; try done.
    + by exists before.
    + exists d. split; [done|]. repeat split; congruence.
  - rewrite new_absent by done. simpl.
    unfold datetimestamp, bindM, now, ret, append_to. simpl.
    destruct (append_dropped
                (ItemLog.mk (path_child d "dropped-failed.log.csv")
                   DROPPED_FAILED_FIELDNAMES "id" true ∅)
                (fs s) i lr (isoformat (clock (ticks s))) reason
                eq_refl eq_refl)
      as (fs' & l' & before & Happ & Hrec & Hother & Hfn' & Hf' & Hk' & Hc).
    rewrite Happ. simpl. eexists _, l'. split; [reflexivity|].
    simpl in *.
    repeat split; simpl; try done.
    + by exists before.
    + exists d. split; [done|]. repeat split; congruence.
Qed.

Lemma drop_invalid_ready (s : State) (i : option Item.t) (lr reason : string) :
  ledger_ready (_invalid_items s) "dropped-invalid.log.csv"
               DROPPED_INVALID_FIELDNAMES s →
  ∃ s' l',
    drop_invalid i lr reason s = (s', Return ())
    ∧ logs_to (invalid_ledger_path s)
              (dropped_record i lr (isoformat (clock (ticks s))) reason) s s'
    ∧ _invalid_items s' = Some l'
    ∧ _failed_items s' = _failed_items s
    ∧ ItemLog.contains l' (Some (getattr_identifier i lr)) = true
    ∧ ledger_ready (_invalid_items s') "dropped-invalid.log.csv"
                   DROPPED_INVALID_FIELDNAMES s'.
Proof.
  intros (d & Hd & Hlog).
  unfold drop_invalid, bindM, invalid_items, invalid_ledger_path.
  rewrite Hd. simpl.
  destruct (_invalid_items s) as [l|] eqn:El.
  - destruct Hlog as (Hfn & Hf & Hk).
    unfold datetimestamp, bindM, now, ret, append_to. simpl.
    destruct (append_dropped l (fs s) i lr (isoformat (clock (ticks s)))
                reason Hf Hk)
      as (fs' & l' & before & Happ & Hrec & Hother & Hfn' & Hf' & Hk' & Hc).
    rewrite Happ. simpl. eexists _, l'. split; [reflexivity|].
    rewrite Hfn in *.
    repeat split; simpl; try done.
    + by exists before.
    + exists d. split; [done|]. repeat split; congruence.
  - rewrite new_absent by done. simpl.
    unfold datetimestamp, bindM, now, ret, append_to. simpl.
    destruct (append_dropped
                (ItemLog.mk (path_child d "dropped-invalid.log.csv")
                   DROPPED_INVALID_FIELDNAMES "id" true ∅)
                (fs s) i lr (isoformat (clock (ticks s))) reason
                eq_refl eq_refl)
      as (fs' & l' & before & Happ & Hrec & Hother & Hfn' & Hf' & Hk' & Hc).
    rewrite Happ. simpl. eexists _, l'. split; [reflexivity|].
    simpl in *.
    repeat split; simpl; try done.
    + by exists before.
    + exists d. split; [done|]. repeat split; congruence.
Qed.


(** *** Validation *)

Lemma missing_files_spec (j : ImportJob) (base : string) (names : list string) :
  binaries_location (config j) = Some base →
  missing_files j names = Return (missing_names j base names).
Proof.
  intros Hb. induction names as [|n names IH]; [done|].
  cbn [missing_files]. unfold get_configured_source. rewrite Hb, IH.
  simpl. by destruct (source_exists (get_source j base n)).
Qed.

Lemma validate_files_spec (self : ImportRow) (base : string)
      (names : list string) :
  binaries_location (config (row_job self)) = Some base →
  validate_files self names
  = Return (files_result (missing_names (row_job self) base names)).
Proof.
  intros Hb. unfold validate_files.
  rewrite (missing_files_spec _ base) by done. simpl.
  by destruct (missing_names (row_job self) base names).
Qed.

Lemma elem_of_missing_names (j : ImportJob) (base : string)
      (names : list string) (n : string) :
  n ∈ missing_names j base names
  ↔ n ∈ names ∧ source_exists (get_source j base n) = false.
Proof.
  unfold missing_names. rewrite !list_elem_of_In, filter_In.
  by rewrite negb_true_iff.
Qed.

Lemma files_result_missing (missing : list string) (n : string) :
  n ∈ missing →
  files_result missing
  = ValidationFailure None
      ("Missing " +:+ str_of_nat (length missing) +:+ " files: "
       +:+ join ";" missing).
Proof. destruct missing; [by intros ?%elem_of_nil|done]. Qed.

Lemma dict_get_set_eq (d : ValidationResultsDict) (k : string)
      (v : ValidationResult) :
  dict_get (dict_set d k v) k = Some v.
Proof.
  induction d as [|[k' v'] d IH]; simpl.
  - by rewrite bool_decide_eq_true_2.
  - case_bool_decide as Hk; simpl.
    + by rewrite bool_decide_eq_true_2.
    + by rewrite bool_decide_eq_false_2.
Qed.

Lemma dict_get_set_ne (d : ValidationResultsDict) (k k' : string)
      (v : ValidationResult) :
  k ≠ k' → dict_get (dict_set d k v) k' = dict_get d k'.
Proof.
  intros Hne. induction d as [|[k0 v0] d IH]; simpl.
  - by rewrite bool_decide_eq_false_2.
  - case_bool_decide as Hk; simpl.
    + subst k0. by rewrite !bool_decide_eq_false_2.
    + case_bool_decide; [done|apply IH].
Qed.

Lemma ok_failed_entry (d : ValidationResultsDict) (k : string)
      (v : ValidationResult) :
  dict_get d k = Some v → is_success v = false → ok d = false.
Proof.
  intros Hget Hv. induction d as [|[k' v'] d IH]; [done|].
  simpl in *. case_bool_decide.
  - injection Hget as ->. by rewrite Hv.
  - rewrite IH by done. apply andb_false_r.
Qed.

Lemma validate_item_spec (self : ImportRow) (base : string)
      (results : ValidationResultsDict) :
  binaries_location (config (row_job self)) = Some base →
  validate (item self) = Return results →
  validate_item self
  = Return (dict_set
              (dict_set results "FILES"
                 (files_result
                    (missing_names (row_job self) base
                       (Row.filenames (row self)))))
              "ITEM_FILES"
              (files_result
                 (missing_names (row_job self) base
                    (Row.item_filenames (row self))))).
Proof.
  intros Hb Hv. unfold validate_item. rewrite Hv.
  by rewrite !(validate_files_spec _ base).
Qed.

(** C5: a row that names a file whose source does not exist.  Its
    validation gets a failing "FILES" entry (or "ITEM_FILES", for an
    item-level file) whose message lists the missing names, which are
    the named files without an existing source; the row is counted as
    invalid and logged to the invalid ledger of the run with the joined
    reasons of the failures; and it does not get to the commit: the
    repository is not called, the job and its completed ledger stay as
    they are, and nothing is yielded. *)
Theorem missing_file_row_is_dropped (s : State) (r : Row.t)
        (validate_only : bool) (start : Z) (count : Counter) (base : string)
        (results : ValidationResultsDict) (name : string) :
  binaries_location (config (job s)) = Some base →
  validate (get_object r (negb validate_only)) = Return results →
  name ∈ Row.filenames r ∨ name ∈ Row.item_filenames r →
  source_exists (get_source (job s) base name) = false →
  ledger_ready (_invalid_items s) "dropped-invalid.log.csv"
               DROPPED_INVALID_FIELDNAMES s →
  let self := ImportRow_new (job s) r validate_only in
  let missing := missing_names (job s) base (Row.filenames r) in
  let item_missing := missing_names (job s) base (Row.item_filenames r) in
  ∃ v s',
    validate_item self = Return v
    ∧ dict_get v "FILES" = Some (files_result missing)
    ∧ dict_get v "ITEM_FILES" = Some (files_result item_missing)
    ∧ (∃ entry names,
         (entry = "FILES" ∧ names = missing
          ∨ entry = "ITEM_FILES" ∧ names = item_missing)
         ∧ name ∈ names
         ∧ dict_get v entry
           = Some (ValidationFailure None
                     ("Missing " +:+ str_of_nat (length names)
                      +:+ " files: " +:+ join ";" names)))
    ∧ (∀ n, n ∈ missing
            ↔ n ∈ Row.filenames r
              ∧ source_exists (get_source (job s) base n) = false)
    ∧ (∀ n, n ∈ item_missing
            ↔ n ∈ Row.item_filenames r
              ∧ source_exists (get_source (job s) base n) = false)
    ∧ ok v = false
    ∧ process_row validate_only start count (WellFormed r) s
      = (s', Return (counter_add
                       (counter_add count "files" (length (Row.filenames r)))
                       "invalid_items" 1,
                     None))
    ∧ logs_to (invalid_ledger_path s)
              (dropped_record (Some (item self)) (Row.line_reference r)
                              (isoformat (clock (ticks s)))
                              (invalid_reason v))
              s s'.
Proof.
  intros Hb Hv Hname Hmissing Hready self missing item_missing.
  pose proof (validate_item_spec self base results Hb Hv) as Hvi.
  simpl in Hvi. fold missing item_missing in Hvi.
  set (v := dict_set (dict_set results "FILES" (files_result missing))
                     "ITEM_FILES" (files_result item_missing)) in *.
  assert (Hfiles : dict_get v "FILES" = Some (files_result missing)).
  { unfold v. rewrite dict_get_set_ne by done. apply dict_get_set_eq. }
  assert (Hitem : dict_get v "ITEM_FILES" = Some (files_result item_missing)).
  { apply dict_get_set_eq. }
  assert (Hentry : ∃ entry names,
             (entry = "FILES" ∧ names = missing
              ∨ entry = "ITEM_FILES" ∧ names = item_missing)
             ∧ name ∈ names
             ∧ dict_get v entry
               = Some (ValidationFailure None
                         ("Missing " +:+ str_of_nat (length names)
                          +:+ " files: " +:+ join ";" names))).
  { destruct Hname as [Hin|Hin].
    - assert (name ∈ missing) by by apply elem_of_missing_names.
      exists "FILES", missing. split; [by left|]. split; [done|].
      by rewrite Hfiles, (files_result_missing _ name).
    - assert (name ∈ item_missing) by by apply elem_of_missing_names.
      exists "ITEM_FILES", item_missing. split; [by right|]. split; [done|].
      by rewrite Hitem, (files_result_missing _ name). }
  assert (Hok : ok v = false).
  { destruct Hentry as (entry & names & _ & _ & Hget).
    by eapply ok_failed_entry. }
  destruct (drop_invalid_ready s (Some (item self)) (Row.line_reference r)
              (invalid_reason v) Hready)
    as (s' & l' & Hdrop & Hlogs & _).
  exists v, s'. split_and!; try done.
  - intros n. apply elem_of_missing_names.
  - intros n. apply elem_of_missing_names.
  - unfold process_row. fold self. rewrite Hvi, Hok.
    unfold bindM. fold (invalid_reason v). rewrite Hdrop. done.
Qed.


(** *** The commit of a row *)

Lemma yield_status_spec (start : Z) (count : Counter) (s : State) :
  yield_status start count s
  = (set_ticks (S (ticks s)) s,
     Return (count,
             Some {| started := start; snapshot_now := clock (ticks s);
                     elapsed := (clock (ticks s) - start)%Z;
                     snapshot_count := count |})).
Proof. reflexivity. Qed.

(** C4: a row whose commit raises a job error.  The run adds one to
    its counter of the items with errors, logs the item to the failed
    ledger of the run with the message of the error as the reason,
    leaves the job and its completed ledger as they are (the only file
    written is the failed ledger), yields its status, and goes on with
    the rows that remain. *)
Theorem failed_commit_is_logged (s : State) (r : Row.t)
        (rest : list SourceRow) (start : Z) (count : Counter)
        (v : ValidationResultsDict) (i : Item.t) (h : Repo)
        (args : list string) :
  let self := ImportRow_new (job s) r false in
  validate_item self = Return v → ok v = true →
  update_repo self (repo s) = (i, (h, Raise (JobError args))) →
  ledger_ready (_failed_items s) "dropped-failed.log.csv"
               DROPPED_FAILED_FIELDNAMES s →
  let count' :=
    counter_add
      (counter_add (counter_add count "files" (length (Row.filenames r)))
                   "valid_items" 1)
      "items_with_errors" 1 in
  ∃ s' snap before log',
    process_row false start count (WellFormed r) s
    = (s', Return (count', Some snap))
    ∧ counter_get count' "items_with_errors"
      = counter_get count "items_with_errors" + 1
    ∧ snapshot_count snap = count'
    ∧ fs s' !! failed_ledger_path s
      = Some (before
              ++ [dropped_record (Some i) (Row.line_reference r)
                    (isoformat (clock (ticks s)))
                    (exn_str (JobError args))])
    ∧ (∀ p, p ≠ failed_ledger_path s → fs s' !! p = fs s !! p)
    ∧ _failed_items s' = Some log'
    ∧ ItemLog.contains log'
        (Some (getattr_identifier (Some i) (Row.line_reference r))) = true
    ∧ job s' = job s
    ∧ repo s' = h
    ∧ run_rows false start count (WellFormed r :: rest) s
      = (let '(s'', (snaps, o)) := run_rows false start count' rest s' in
         (s'', (snap :: snaps, o))).
Proof.
  intros self Hvi Hok Hupd Hready count'.
  destruct (drop_failed_ready (set_repo h s) (Some i) (Row.line_reference r)
              (exn_str (JobError args)) Hready)
    as (s1 & log' & Hdrop & Hlogs & Hlog' & _ & Hc & _).
  destruct Hlogs as (Hrepo & Hjob & Hdir & Hticks & [before Hrec] & Hother).
  assert (Hproc : process_row false start count (WellFormed r) s
                  = yield_status start count' s1).
  { unfold process_row. fold self. rewrite Hvi, Hok.
    unfold try_import, item_after_update. rewrite Hupd.
    cbn [fst snd]. cbv beta iota. unfold bindM. by rewrite Hdrop. }
  rewrite yield_status_spec in Hproc.
  eexists _, _, before, log'. split; [exact Hproc|].
  split_and!; try done.
  - unfold count'. rewrite counter_add_eq.
    by rewrite !counter_get_add_ne.
  - cbn [run_rows]. rewrite Hproc.
    by destruct (run_rows false start count' rest _) as [? [? ?]].
Qed.


(** *** One row of the loop *)

Lemma try_import_count (self : ImportRow) (count c1 : Counter)
      (s s1 : State) (i : Item.t) :
  try_import self count s = (s1, Return (i, c1)) →
  ∃ st, c1 = count_status count st.
Proof.
  unfold try_import.
  destruct (update_repo self (repo s)) as [i' [h [st|e]]]; [|done].
  unfold bindM, ret.
  destruct (complete i' (Row.line_reference (row self)) st (set_repo h s))
    as [s2 [[]|e]]; [|done].
  intros [= _ _ <-]. by exists st.
Qed.

(** What the body of the loop gives for a row when it does not raise:
    the counters move on the counted keys only, and a snapshot is
    yielded exactly for a row that gets to the commit; the snapshot
    holds the counters as the row leaves them. *)
Lemma process_row_returns (validate_only : bool) (start : Z)
      (count count' : Counter) (r : SourceRow) (s s' : State)
      (snap : option Snapshot) :
  process_row validate_only start count r s = (s', Return (count', snap)) →
  counts_on count count'
  ∧ match snap with
    | Some sn =>
        reaches_commit validate_only (job s) r = true
        ∧ started sn = start
        ∧ elapsed sn = (snapshot_now sn - started sn)%Z
        ∧ snapshot_count sn = count'
    | None => reaches_commit validate_only (job s) r = false
    end.
Proof.
  assert (Hfiles : ∀ n, counts_on count (counter_add count "files" n)).
  { intros n. apply counts_on_add. unfold counted. set_solver. }
  unfold process_row, reaches_commit. destruct r as [r|inv].
  - destruct (validate_item (ImportRow_new (job s) r validate_only))
      as [v|e]; [|done].
    destruct (ok v) eqn:Hok.
    + destruct validate_only.
      * intros [= <- <- <-]. split; [|done].
        eapply counts_on_trans; [apply Hfiles|].
        apply counts_on_add. unfold counted. set_solver.
      * destruct (try_import _ _ s) as [s1 [[i c1]|e]] eqn:Etry.
        -- rewrite yield_status_spec. intros [= <- <- <-].
           destruct (try_import_count _ _ _ _ _ _ Etry) as [st ->].
           split; [|done].
           eapply counts_on_trans; [apply Hfiles|].
           eapply counts_on_trans; [|apply counts_on_status].
           apply counts_on_add. unfold counted. set_solver.
        -- destruct e; try done. unfold bindM.
           destruct (drop_failed _ _ _ s1) as [s2 [[]|e]]; [|done].
           rewrite yield_status_spec. intros [= <- <- <-].
           split; [|done].
           eapply counts_on_trans; [apply Hfiles|].
           eapply counts_on_trans; apply counts_on_add;
             unfold counted; set_solver.
    + unfold bindM.
      destruct (drop_invalid _ _ _ s) as [s1 [[]|e]]; [|done].
      intros [= <- <- <-]. split; [|apply andb_false_r].
      eapply counts_on_trans; [apply Hfiles|].
      apply counts_on_add. unfold counted. set_solver.
  - unfold bindM.
    destruct (drop_invalid _ _ _ s) as [s1 [[]|e]]; [|done].
    intros [= <- <- <-]. split; [apply counts_on_refl|apply andb_false_r].
Qed.

Lemma counts_on_keys (count count' : Counter) (keys : list string) :
  counts_on count count' →
  Forall (fun k => is_Some (count !! k)) keys →
  Forall (fun k => is_Some (count' !! k)) keys.
Proof.
  intros [_ Hsome] Hall. eapply Forall_impl; [exact Hall|exact Hsome].
Qed.

(** X28: the body of the loop yields a snapshot for the rows that get
    to the commit, and for no other.  After a row that gets to the
    commit (the run is not in validate-only mode, and the row is
    well-formed and valid), whether the commit returns or raises a job
    error, the body of the loop yields one snapshot, with the time of
    the start, the time elapsed since, and the counters, which hold
    every listed key; after a marker of an invalid row, a row that
    fails validation, or a row in validate-only mode, it yields none. *)
Theorem snapshot_after_committed_row (validate_only : bool) (start : Z)
        (count : Counter) (r : SourceRow) (s : State) :
  Forall (fun k => is_Some (count !! k)) counter_keys →
  match process_row validate_only start count r s with
  | (s', Return (count', Some sn)) =>
      reaches_commit validate_only (job s) r = true
      ∧ started sn = start
      ∧ elapsed sn = (snapshot_now sn - started sn)%Z
      ∧ snapshot_count sn = count'
      ∧ Forall (fun k => is_Some (snapshot_count sn !! k)) counter_keys
  | (s', Return (count', None)) =>
      reaches_commit validate_only (job s) r = false
  | (s', Raise e) => True
  end.
Proof.
  intros Hkeys.
  destruct (process_row validate_only start count r s)
    as [s' [[count' snap]|e]] eqn:Hrow; [|done].
  destruct (process_row_returns _ _ _ _ _ _ _ _ Hrow) as [Hcounts Hsnap].
  destruct snap as [sn|]; [|done].
  destruct Hsnap as (? & ? & ? & Hc). split_and!; try done.
  rewrite Hc. by eapply counts_on_keys.
Qed.

(** *** The whole loop *)

Lemma run_rows_counts (validate_only : bool) (start : Z)
      (rs : list SourceRow) (count : Counter) (s s' : State)
      (snaps : list Snapshot) (o : outcome Counter) :
  run_rows validate_only start count rs s = (s', (snaps, o)) →
  Forall (fun sn => counts_on count (snapshot_count sn)
                    ∧ started sn = start
                    ∧ elapsed sn = (snapshot_now sn - started sn)%Z) snaps
  ∧ ∀ c, o = Return c → counts_on count c.
Proof.
  revert count s s' snaps o.
  induction rs as [|r rs IH]; intros count s s' snaps o; cbn [run_rows].
  - intros [= <- <- <-]. split; [constructor|].
    intros c [= <-]. apply counts_on_refl.
  - destruct (process_row validate_only start count r s)
      as [s1 [[c1 snap]|e]] eqn:Erow.
    2:{ intros [= <- <- <-]. split; [constructor|done]. }
    destruct (run_rows validate_only start c1 rs s1)
      as [s2 [snaps' o']] eqn:Erest.
    intros [= <- <- <-].
    destruct (process_row_returns _ _ _ _ _ _ _ _ Erow) as [Hc1 Hsnap].
    destruct (IH _ _ _ _ _ Erest) as [Hsnaps Ho].
    split.
    + apply Forall_app. split.
      * destruct snap as [sn|]; [|constructor]. simpl.
        destruct Hsnap as (_ & ? & ? & Hc). constructor; [|constructor].
        by rewrite Hc.
      * eapply Forall_impl; [exact Hsnaps|]. simpl.
        intros sn (? & ? & ?). split; [|done].
        by eapply counts_on_trans.
    + intros c Hc. eapply counts_on_trans; [exact Hc1|]. by apply Ho.
Qed.


(** The steps of the loop leave the configuration and the key of the
    job as they are. *)
Lemma drop_invalid_job (i : option Item.t) (lr reason : string)
      (s s' : State) (o : outcome unit) :
  drop_invalid i lr reason s = (s', o) → job s' = job s.
Proof.
  unfold drop_invalid, bindM, invalid_items, datetimestamp, bindM, now, ret,
    append_to.
  intros Heq. repeat case_match; simplify_eq; done.
Qed.

Lemma drop_failed_job (i : option Item.t) (lr reason : string)
      (s s' : State) (o : outcome unit) :
  drop_failed i lr reason s = (s', o) → job s' = job s.
Proof.
  unfold drop_failed, bindM, failed_items, datetimestamp, bindM, now, ret,
    append_to.
  intros Heq. repeat case_match; simplify_eq; done.
Qed.

Lemma try_import_job (self : ImportRow) (count : Counter) (s s' : State)
      (o : outcome (Item.t * Counter)) :
  try_import self count s = (s', o) →
  config (job s') = config (job s)
  ∧ ssh_private_key (job s') = ssh_private_key (job s).
Proof.
  unfold try_import, complete, bindM, datetimestamp, bindM, now, ret,
    append_to.
  intros Heq. repeat case_match; simplify_eq; done.
Qed.

Lemma process_row_job (validate_only : bool) (start : Z) (count : Counter)
      (r : SourceRow) (s s' : State) (o : outcome (Counter * option Snapshot)) :
  process_row validate_only start count r s = (s', o) →
  config (job s') = config (job s)
  ∧ ssh_private_key (job s') = ssh_private_key (job s).
Proof.
  unfold process_row. destruct r as [r|inv].
  - destruct (validate_item _) as [v|e]; [|by intros [= <- _]].
    destruct (ok v).
    + destruct validate_only; [by intros [= <- _]|].
      destruct (try_import _ _ s) as [s1 [[i c1]|e]] eqn:Etry;
        destruct (try_import_job _ _ _ _ _ Etry) as [Hc Hk].
      * rewrite yield_status_spec. by intros [= <- _].
      * destruct e; try by intros [= <- _].
        unfold bindM.
        destruct (drop_failed _ _ _ s1) as [s2 [[]|e]] eqn:Edrop;
          apply drop_failed_job in Edrop.
        -- rewrite yield_status_spec. intros [= <- _]. simpl. by rewrite Edrop.
        -- intros [= <- _]. by rewrite Edrop.
    + unfold bindM.
      destruct (drop_invalid _ _ _ s) as [s1 [[]|e]] eqn:Edrop;
        apply drop_invalid_job in Edrop; intros [= <- _]; by rewrite Edrop.
  - unfold bindM.
    destruct (drop_invalid _ _ _ s) as [s1 [[]|e]] eqn:Edrop;
      apply drop_invalid_job in Edrop; intros [= <- _]; by rewrite Edrop.
Qed.

Lemma missing_files_job (j j' : ImportJob) (names : list string) :
  config j = config j' → ssh_private_key j = ssh_private_key j' →
  missing_files j names = missing_files j' names.
Proof.
  intros Hc Hk. induction names as [|n names IH]; [done|].
  cbn [missing_files]. rewrite IH.
  unfold get_configured_source, get_source. by rewrite Hc, Hk.
Qed.

Lemma reaches_commit_job (validate_only : bool) (j j' : ImportJob)
      (r : SourceRow) :
  config j = config j' → ssh_private_key j = ssh_private_key j' →
  reaches_commit validate_only j r = reaches_commit validate_only j' r.
Proof.
  intros Hc Hk. unfold reaches_commit. destruct r as [r|inv]; [|done].
  unfold validate_item, validate_files, ImportRow_new. simpl.
  by rewrite !(missing_files_job j j').
Qed.

(** A run of the loop that goes through all its rows yields as many
    snapshots as it has rows that get to the commit. *)
Lemma run_rows_snapshots (validate_only : bool) (start : Z)
      (rs : list SourceRow) (count c : Counter) (s s' : State)
      (snaps : list Snapshot) :
  run_rows validate_only start count rs s = (s', (snaps, Return c)) →
  length snaps
  = length (List.filter (reaches_commit validate_only (job s)) rs).
Proof.
  revert count s s' snaps.
  induction rs as [|r rs IH]; intros count s s' snaps; cbn [run_rows].
  - by intros [= <- <- <-].
  - destruct (process_row validate_only start count r s)
      as [s1 [[c1 snap]|e]] eqn:Erow; [|done].
    destruct (run_rows validate_only start c1 rs s1)
      as [s2 [snaps' o']] eqn:Erest.
    intros [= <- <- ->].
    destruct (process_row_job _ _ _ _ _ _ _ Erow) as [Hc Hk].
    destruct (process_row_returns _ _ _ _ _ _ _ _ Erow) as [_ Hsnap].
    rewrite length_app, (IH _ _ _ _ Erest). cbn [List.filter].
    assert (Hsame : List.filter (reaches_commit validate_only (job s1)) rs
                    = List.filter (reaches_commit validate_only (job s)) rs).
    { apply List.filter_ext. intros r'. by apply reaches_commit_job. }
    rewrite Hsame.
    destruct snap as [sn|].
    + destruct Hsnap as [-> _]. done.
    + by rewrite Hsnap.
Qed.

(** *** The run *)

Lemma initial_count_rows (md : MetadataSpreadsheet) (j : ImportJob) :
  initial_count md j !! "rows" = Some 0.
Proof. unfold initial_count. simpl. by simplify_map_eq. Qed.


Lemma initial_count_keys (md : MetadataSpreadsheet) (j : ImportJob) :
  Forall (fun k => is_Some (initial_count md j !! k)) counter_keys.
Proof.
  unfold counter_keys, initial_count. simpl.
  repeat (constructor; [by simplify_map_eq; eexists|]). constructor.
Qed.

(** The two ways in which [run] ends: at its start, or after its loop. *)
Lemma run_cases (limit pct : option nat) (validate_only : bool)
      (f : option string) (s s' : State) (snaps : list Snapshot)
      (o : outcome Result) :
  run limit pct validate_only f s = (s', (snaps, o)) →
  (∃ e, start_run f s = (s', Raise e) ∧ snaps = [] ∧ o = Raise e)
  ∨ (∃ s1 start md oc,
       start_run f s = (s1, Return (start, md))
       ∧ run_rows validate_only start (initial_count md (job s1))
                  (row_stream md limit pct s1) s1
         = (s', (snaps, oc))
       ∧ o = match oc with
             | Raise e => Raise e
             | Return c =>
                 Return {| type := result_type validate_only c (job s');
                           validation := validation_reports (job s');
                           result_count := c |}
             end).
Proof.
  unfold run. destruct (start_run f s) as [s1 [[start md]|e]].
  - destruct (run_rows _ _ _ _ s1) as [s2 [snaps' [c|e]]] eqn:Erows;
      intros [= <- <- <-]; right.
    + by exists s1, start, md, (Return c).
    + by exists s1, start, md, (Raise e).
  - intros [= <- <- <-]. left. by exists e.
Qed.

(** C10: the counter of the rows is set to zero at the start of a run
    and no step of the run adds to it: it is zero in every snapshot that
    the run yields and in the result that it returns. *)
Theorem rows_counter_stays_zero (limit pct : option nat)
        (validate_only : bool) (f : option string) (s : State) :
  (∀ md j, initial_count md j !! "rows" = Some 0)
  ∧ ("rows" ∉ counted)
  ∧ Forall (fun sn => snapshot_count sn !! "rows" = Some 0
                      ∧ counter_get (snapshot_count sn) "rows" = 0)
           (run limit pct validate_only f s).2.1
  ∧ match (run limit pct validate_only f s).2.2 with
    | Return res => result_count res !! "rows" = Some 0
                    ∧ counter_get (result_count res) "rows" = 0
    | Raise _ => True
    end.
Proof.
  assert (Hnot : "rows" ∉ counted).
  { apply (bool_decide_unpack _). vm_compute. exact I. }
  split; [apply initial_count_rows|]. split; [done|].
  destruct (run limit pct validate_only f s) as [s' [snaps o]] eqn:Erun.
  simpl.
  destruct (run_cases _ _ _ _ _ _ _ _ Erun)
    as [(e & _ & -> & ->)|(s1 & start & md & oc & _ & Erows & ->)].
  { split; [constructor|done]. }
  destruct (run_rows_counts _ _ _ _ _ _ _ _ Erows) as [Hsnaps Ho].
  split.
  - eapply Forall_impl; [exact Hsnaps|]. simpl.
    intros sn ([Hkeep _] & _).
    assert (snapshot_count sn !! "rows" = Some 0) as Hz
      by by rewrite Hkeep, initial_count_rows.
    split; [done|]. unfold counter_get. by rewrite Hz.
  - destruct oc as [c|e]; [|done]. simpl.
    destruct (Ho c eq_refl) as [Hkeep _].
    assert (c !! "rows" = Some 0) as Hz
      by by rewrite Hkeep, initial_count_rows.
    split; [done|]. unfold counter_get. by rewrite Hz.
Qed.


End WithCollaborators.
End RunFacts.

Module Examples.
Import Imports Scenario ItemLogFacts StreamFacts RowFacts RunFacts.

(** C2 (as stated) fails when the repository refuses a call: the item
    "newbad" has a placeholder identity and a creation that the
    repository refuses, and [update_repo] raises a job error instead of
    returning CREATED; the item "chgbad" exists and has changes, the
    repository refuses its update, and [update_repo] raises a job error
    instead of returning MODIFIED. *)
Lemma refused_write_is_not_a_status :
  let new := import_row_of None "newbad" in
  let changed := import_row_of None "chgbad" in
  startswith (Item.uri (item new)) "urn:uuid:" = true
  ∧ (@update_repo collaborators new []).2.2
    = Raise (JobError ["import-20240101000000";
                       "Creating item failed: 409 Conflict"; "conflict"])
  ∧ (@update_repo collaborators new []).2.2 ≠ Return CREATED
  ∧ startswith (Item.uri (item changed)) "urn:uuid:" = false
  ∧ Item.has_changes (item changed) = true
  ∧ (@update_repo collaborators changed []).2.2
    = Raise (JobError ["Updating item failed: 412 Precondition Failed"])
  ∧ (@update_repo collaborators changed []).2.2 ≠ Return MODIFIED.
Proof.
  split_and!; try (vm_compute; reflexivity); vm_compute; discriminate.
Qed.

(** C9: with an access class in the configuration of the job, the
    creation of a new item raises a TypeError before the item is changed
    and before the repository is called, and the run ends with that
    error at the first new item, with nothing yielded and nothing
    completed; without the access class the same item is created. *)
Lemma access_class_breaks_creation :
  let acc := Some "http://vocab.lib.umd.edu/access#Public" in
  let self := import_row_of acc "new1" in
  @update_repo collaborators self []
  = (item self, ([], Raise (TypeError "type 'URIRef' is not subscriptable")))
  ∧ (@run collaborators None None false None (fresh acc)).2
    = ([], Raise (TypeError "type 'URIRef' is not subscriptable"))
  ∧ repo (@run collaborators None None false None (fresh acc)).1 = []
  ∧ ItemLog.len
      (completed_log (job (@run collaborators None None false None
                             (fresh acc)).1)) = 0
  ∧ (@update_repo collaborators (import_row_of None "new1") []).2.2
    = Return CREATED.
Proof. split_and!; vm_compute; reflexivity. Qed.

(** C7: the code does not yield a snapshot after each row, as the claim
    and the docstring of [run] ("yields a dictionary of current status
    after each item") have it.  In validate-only mode the run goes
    through its five rows and yields no snapshot; in import mode it
    yields three snapshots for the five rows, none for the marker of
    the invalid row and none for the row "chg1", which fails
    validation: the [continue] of these branches skips the [yield] at
    the end of the body.  The row "newbad", whose commit raises a job
    error, falls through to the [yield] and gets its snapshot. *)
Lemma rows_without_snapshot :
  length (@row_stream collaborators sheet None None (running None)) = 5
  ∧ (@run collaborators None None true None (fresh None)).2.1 = []
  ∧ returned (@run collaborators None None true None (fresh None)).2.2 = true
  ∧ length (@run collaborators None None false None (fresh None)).2.1 = 3
  ∧ returned (@run collaborators None None false None (fresh None)).2.2 = true
  ∧ (∀ start count,
       (@process_row collaborators false start count
          (Malformed {| InvalidRow.line_reference := "source.csv:5";
                        InvalidRow.reason := "bad row" |})
          (running None)).2
       = Return (count, None))
  ∧ match (@process_row collaborators false 102 ∅
             (WellFormed (mkrow "chg1" ["b.tif"])) (running None)).2 with
    | Return (_, None) => True
    | _ => False
    end
  ∧ match (@process_row collaborators false 102 ∅
             (WellFormed (mkrow "newbad" [])) (running None)).2 with
    | Return (_, Some sn) => started sn = 102%Z
    | _ => False
    end.
Proof.
  split_and!; vm_compute; first [reflexivity | exact I].
Qed.

(** The row "new1" in a run of the job after its first run. *)
Lemma resumed_rows_exclude_completed_witness :
  let s := (@run collaborators None None false None (fresh None)).1 in
  let r := mkrow "new1" ["a.tif"] in
  ItemLog.contains (completed_log (job s)) (Some (Row.identifier r)) = true
  ∧ WellFormed r ∉ @row_stream collaborators sheet None None s.
Proof.
  split; [vm_compute; reflexivity|].
  apply (@resumed_rows_exclude_completed collaborators
           (@run collaborators None None false None (fresh None)).1
           sheet None None (mkrow "new1" ["a.tif"])).
  vm_compute; reflexivity.
Defined.

(** The row "newbad", whose creation the repository refuses. *)
Lemma failed_commit_is_logged_witness :
  let s := running None in
  let r := mkrow "newbad" [] in
  ∃ v i h args s' snap before log',
    @validate_item collaborators (@ImportRow_new collaborators (job s) r false)
    = Return v
    ∧ ok v = true
    ∧ @update_repo collaborators
        (@ImportRow_new collaborators (job s) r false) (repo s)
      = (i, (h, Raise (JobError args)))
    ∧ @process_row collaborators false 0 ∅ (WellFormed r) s
      = (s', Return (counter_add
                       (counter_add (counter_add ∅ "files" 0) "valid_items" 1)
                       "items_with_errors" 1, Some snap))
    ∧ fs s' !! failed_ledger_path s
      = Some (before
              ++ [dropped_record (Some i) (Row.line_reference r)
                    (@isoformat collaborators
                       (@clock collaborators (ticks s)))
                    (@exn_str collaborators (JobError args))])
    ∧ _failed_items s' = Some log'
    ∧ job s' = job s.
Proof.
  intros s r.
  destruct (@failed_commit_is_logged collaborators s r [] 0%Z ∅
              [("title", ValidationSuccess (Some "title") "ok");
               ("FILES", ValidationSuccess None "All files present");
               ("ITEM_FILES", ValidationSuccess None "All files present")]
              (object_of r)
              [TxnBegin; CreateChild (Some "/objects") (object_of r);
               TxnRollback]
              ["import-20240101000000";
               "Creating item failed: 409 Conflict"; "conflict"])
    as (s' & snap & before & log' & Hrow & _ & _ & Hfile & _ & Hlog & _
        & Hjob & _).
  - vm_compute; reflexivity.
  - vm_compute; reflexivity.
  - vm_compute; reflexivity.
  - eexists. split; vm_compute; reflexivity.
  - eexists _, _, _, _, s', snap, before, log'.
    split; [vm_compute; reflexivity|].
    split; [vm_compute; reflexivity|].
    split; [vm_compute; reflexivity|].
    split; [exact Hrow|]. split; [exact Hfile|]. split; [exact Hlog|exact Hjob].
Defined.

(** The row "chg1", which names the file b.tif that does not exist. *)
Lemma missing_file_row_is_dropped_witness :
  let s := running None in
  let r := mkrow "chg1" ["b.tif"] in
  ∃ v s',
    @validate_item collaborators (@ImportRow_new collaborators (job s) r false)
    = Return v
    ∧ dict_get v "FILES"
      = Some (ValidationFailure None "Missing 1 files: b.tif")
    ∧ ok v = false
    ∧ @process_row collaborators false 0 ∅ (WellFormed r) s
      = (s', Return (counter_add (counter_add ∅ "files" 1) "invalid_items" 1,
                     None))
    ∧ repo s' = repo s ∧ job s' = job s.
Proof.
  intros s r.
  destruct (@missing_file_row_is_dropped collaborators s r false 0%Z ∅
              "/data" [("title", ValidationSuccess (Some "title") "ok")]
              "b.tif")
    as (v & s' & Hv & Hfiles & _ & _ & _ & _ & Hok & Hrow & Hrepo & Hjob & _).
  - vm_compute; reflexivity.
  - vm_compute; reflexivity.
  - left. apply list_elem_of_here.
  - vm_compute; reflexivity.
  - eexists. split; vm_compute; reflexivity.
  - exists v, s'. split; [exact Hv|]. split; [exact Hfiles|].
    split; [exact Hok|]. split; [exact Hrow|]. split; [exact Hrepo|exact Hjob].
Defined.

(** The row "new1" at the start of the loop of the first run: the
    counters hold every listed key, the row gets to the commit, and a
    snapshot is yielded. *)
Lemma snapshot_after_committed_row_witness :
  let s := running None in
  let count := initial_count sheet (job s) in
  let r := WellFormed (mkrow "new1" ["a.tif"]) in
  Forall (fun k => is_Some (count !! k)) counter_keys
  ∧ @reaches_commit collaborators false (job s) r = true
  ∧ match @process_row collaborators false 102 count r s with
    | (s', Return (count', Some sn)) =>
        @reaches_commit collaborators false (job s) r = true
        ∧ started sn = 102%Z
        ∧ elapsed sn = (snapshot_now sn - started sn)%Z
        ∧ snapshot_count sn = count'
        ∧ Forall (fun k => is_Some (snapshot_count sn !! k)) counter_keys
    | (s', Return (count', None)) =>
        @reaches_commit collaborators false (job s) r = false
    | (s', Raise e) => True
    end.
Proof.
  intros s count r. split; [apply initial_count_keys|].
  split; [vm_compute; reflexivity|].
  apply (@snapshot_after_committed_row collaborators false 102%Z count r s).
  apply initial_count_keys.
Defined.
End Examples.

Module LedgerFacts.
Import ItemLog ItemLogFacts.

Lemma append_other_files (l : t) (r : row) (fs : filesystem) (p : string) :
  p ≠ filename l → (append l r fs).1 !! p = fs !! p.
Proof.
  intros Hp. unfold append, writer, write_record, create.
  repeat case_match; simpl; rewrite ?lookup_insert_ne by done; done.
Qed.

Lemma writer_lookup (l : t) (fs : filesystem) :
  writer l fs !! filename l
  = Some (default (if write_header l then [fieldnames l] else [])
                  (fs !! filename l)).
Proof.
  unfold writer, exists_, create. case_bool_decide as He.
  - destruct He as [recs Hrecs]. by rewrite Hrecs.
  - rewrite lookup_insert_eq.
    destruct (fs !! filename l) as [recs|] eqn:E; [|done].
    exfalso. apply He. by eexists.
Qed.

Lemma write_record_lookup (path : string) (rec : record) (fs : filesystem) :
  write_record path rec fs !! path = Some (default [] (fs !! path) ++ [rec]).
Proof. unfold write_record. by rewrite lookup_insert_eq. Qed.

Lemma size_add_key (k : key) (ks : gset key) :
  (size ks ≤ size ({[k]} ∪ ks) ≤ S (size ks))%nat.
Proof.
  split.
  - apply subseteq_size. set_solver.
  - destruct (decide (k ∈ ks)) as [Hin|Hnin].
    + assert ({[k]} ∪ ks = ks) as -> by set_solver. lia.
    + rewrite size_union by set_solver. rewrite size_singleton. lia.
Qed.

(** What an append that returns has done. *)
Lemma append_returns (l l' : t) (r : row) (fs fs' : filesystem) :
  append l r fs = (fs', Return l') →
  filename l' = filename l ∧ fieldnames l' = fieldnames l
  ∧ keyfield l' = keyfield l ∧ write_header l' = write_header l
  ∧ item_keys l' = {[Some (row_key (keyfield l) r)]} ∪ item_keys l
  ∧ fs' = write_record (filename l) (written (fieldnames l) r) (writer l fs).
Proof.
  unfold append, dictwriter_row, row_key, written.
  case_bool_decide; [|done].
  destruct (r !! keyfield l) as [k|] eqn:Ek; [|done].
  intros [= <- <-]. simpl. done.
Qed.

(** An append, whether it returns or raises, touches no other file and
    removes no record of its own. *)
Lemma append_extends (l : t) (r : row) (fs : filesystem) (recs : list record) :
  fs !! filename l = Some recs →
  ∃ more, (append l r fs).1 !! filename l = Some (recs ++ more)
          ∧ (length more ≤ 1)%nat.
Proof.
  intros Hfs. unfold append.
  assert (Hw : writer l fs !! filename l = Some recs).
  { by rewrite writer_lookup, Hfs. }
  destruct (dictwriter_row (fieldnames l) r) as [rec|e]; simpl.
  - exists [rec]. split; [|simpl; lia].
    assert (write_record (filename l) rec (writer l fs) !! filename l
            = Some (recs ++ [rec])) as Hrec.
    { by rewrite write_record_lookup, Hw. }
    by destruct (r !! keyfield l).
  - exists []. split; [by rewrite app_nil_r|simpl; lia].
Qed.

(** X1: an append never rewrites the ledger.  Whether it returns or
    raises, every other file stays as it was and the records that the
    file of the ledger held are still there, in their order, followed by
    at most one new record.  When it returns, the ledger keeps its file
    and fields, no key is lost, the length grows by at most one, and the
    record of the row is the last of the file. *)
Theorem append_keeps_what_is_there (l : t) (r : row) (fs : filesystem) :
  let res := append l r fs in
  (∀ p, p ≠ filename l → res.1 !! p = fs !! p)
  ∧ (∀ recs, fs !! filename l = Some recs →
       ∃ more, res.1 !! filename l = Some (recs ++ more)
               ∧ (length more ≤ 1)%nat)
  ∧ match res.2 with
    | Return l' =>
        filename l' = filename l ∧ fieldnames l' = fieldnames l
        ∧ keyfield l' = keyfield l ∧ write_header l' = write_header l
        ∧ (∀ k, contains l k = true → contains l' k = true)
        ∧ (len l ≤ len l' ≤ S (len l))%nat
        ∧ ∃ before,
            res.1 !! filename l = Some (before ++ [written (fieldnames l) r])
    | Raise _ => True
    end.
Proof.
  intros res. subst res. split; [|split].
  - intros p Hp. by apply append_other_files.
  - intros recs. apply append_extends.
  - destruct (append l r fs) as [fs' [l'|e]] eqn:Happ; [|done]. simpl.
    destruct (append_returns _ _ _ _ _ Happ)
      as (Hfn & Hf & Hk & Hh & Hkeys & ->).
    split_and!; try done.
    + intros k. unfold contains. rewrite Hkeys.
      intros Hin%bool_decide_eq_true_1. apply bool_decide_eq_true_2.
      set_solver.
    + unfold len. rewrite Hkeys. apply size_add_key.
    + unfold len. rewrite Hkeys. apply size_add_key.
    + eexists. apply write_record_lookup.
Qed.

(** X2: a ledger over a file that does not exist is empty, and its file
    is made by the first append: the header, when the ledger writes one,
    and then the record of the row. *)
Theorem first_append_creates_the_file (fs : filesystem) (fn : string)
        (fields : list string) (kf : string) (h : bool) (r : row) :
  fs !! fn = None → accepted fields kf r →
  ∃ l fs' l',
    new fs fn fields kf h = Return l
    ∧ len l = 0 ∧ (∀ k, contains l k = false) ∧ iter l fs = []
    ∧ append l r fs = (fs', Return l')
    ∧ fs' !! fn = Some ((if h then [fields] else []) ++ [written fields r])
    ∧ len l' = 1 ∧ contains l' (Some (row_key kf r)) = true.
Proof.
  intros Hfs Hacc. eexists _, _, _.
  split; [by apply new_absent|]. split; [done|].
  split; [done|]. split; [unfold iter; simpl; by rewrite Hfs|].
  split; [by apply append_accepted|]. cbn [filename fieldnames keyfield].
  split.
  - pose proof (writer_lookup (mk fn fields kf h ∅) fs) as Hw.
    cbn [filename fieldnames write_header] in Hw.
    rewrite write_record_lookup, Hw, Hfs. done.
  - unfold len, contains. cbn [item_keys]. rewrite union_empty_r_L.
    split; [apply size_singleton|].
    apply bool_decide_eq_true_2. set_solver.
Qed.

(** X3: a row without a value for the key field is written before it is
    refused.  The append raises a KeyError for the key field, the ledger
    in memory stays as it was, and the file has the record of the row,
    with the empty string for the key; a ledger that is built over the
    file afterwards holds the empty key. *)
Theorem keyless_row_is_written_then_refused (l : t) (r : row) (fs : filesystem) :
  keyfield l ∈ fieldnames l → kept l fs →
  dom r ⊆ list_to_set (fieldnames l) → r !! keyfield l = None →
  ∃ fs' before re,
    append l r fs = (fs', Raise (KeyError (keyfield l)))
    ∧ fs' !! filename l = Some (before ++ [written (fieldnames l) r])
    ∧ new fs' (filename l) (fieldnames l) (keyfield l) (write_header l)
      = Return re
    ∧ item_keys re = {[Some ""]} ∪ item_keys l.
Proof.
  intros Hin Hkept Hdom Hnone.
  assert (Happ : append l r fs
                 = (write_record (filename l) (written (fieldnames l) r)
                      (writer l fs), Raise (KeyError (keyfield l)))).
  { unfold append, dictwriter_row. rewrite bool_decide_eq_true_2 by done.
    by rewrite Hnone. }
  assert (Hkey : row_key (keyfield l) r = "").
  { unfold row_key. by rewrite Hnone. }
  rewrite Happ.
  destruct Hkept as [(Hfs & Hkeys & Hhdr)|(body & Hfs & Hkeys)].
  - eexists _, _, _. split; [done|]. split; [apply write_record_lookup|].
    split.
    + eapply (new_present _ _ (fieldnames l) [written (fieldnames l) r]);
        [|done].
      rewrite write_record_lookup, writer_lookup, Hfs, Hhdr. done.
    + simpl. rewrite <- (app_nil_l [written _ _]).
      rewrite file_keys_snoc by done. rewrite Hkey, Hkeys. done.
  - eexists _, _, _. split; [done|]. split; [apply write_record_lookup|].
    split.
    + eapply (new_present _ _ (fieldnames l)
                (body ++ [written (fieldnames l) r])); [|done].
      rewrite write_record_lookup, writer_lookup, Hfs. done.
    + simpl. rewrite file_keys_snoc by done. by rewrite Hkey, Hkeys.
Qed.


(** X4: a row with a field that the ledger does not have is refused
    with a ValueError before any record is written: the file of the
    ledger keeps its records and no other file changes.  Yet the file is
    made, with its header when the ledger writes one, when it did not
    exist. *)
Theorem foreign_field_writes_no_record (l : t) (r : row) (fs : filesystem) :
  ¬ dom r ⊆ list_to_set (fieldnames l) →
  (∃ msg, (append l r fs).2 = Raise (ValueError msg))
  ∧ (append l r fs).1 !! filename l
    = Some (default (if write_header l then [fieldnames l] else [])
                    (fs !! filename l))
  ∧ ∀ p, p ≠ filename l → (append l r fs).1 !! p = fs !! p.
Proof.
  intros Hdom. split; [|split].
  - unfold append, dictwriter_row. rewrite bool_decide_eq_false_2 by done.
    by eexists.
  - unfold append, dictwriter_row. rewrite bool_decide_eq_false_2 by done.
    apply writer_lookup.
  - intros p Hp. by apply append_other_files.
Qed.

Lemma dictreader_row_no_key (header : list string) (kf : string)
      (rec : record) :
  kf ∉ header → dictreader_row header rec !! kf = None.
Proof.
  intros Hnin. unfold dictreader_row. rewrite foldl_fill_lookup.
  rewrite bool_decide_eq_false_2.
  2:{ intros Hin. apply Hnin. by eapply subseteq_drop. }
  apply not_elem_of_list_to_map_1.
  rewrite fmap_reverse, elem_of_reverse. intros Hin.
  apply list_elem_of_fmap in Hin as [[k v] [-> Hin]].
  apply Hnin. by apply elem_of_zip_l in Hin.
Qed.

(** A record under a header without the key field stops the
    construction of the ledger. *)
Lemma new_without_key_field (fs : filesystem) (fn : string)
      (header : list string) (body : list record)
      (fields : list string) (kf : string) (h : bool) (rec : record) :
  fs !! fn = Some (header :: body) → kf ∉ header →
  rec ∈ body → rec ≠ [] →
  new fs fn fields kf h = Raise (KeyError kf).
Proof.
  intros Hfs Hnin Hin Hne. unfold new, exists_. cbn [filename].
  rewrite Hfs. rewrite bool_decide_eq_true_2 by by eexists.
  unfold load_keys, iter. cbn [filename keyfield item_keys]. rewrite Hfs.
  assert (rec ∈ filter (fun r : list string => r ≠ []) body) as Hf.
  { by apply list_elem_of_filter. }
  destruct (filter (fun r : list string => r ≠ []) body) as [|r0 rest];
    [by apply elem_of_nil in Hf|].
  csimpl. by rewrite dictreader_row_no_key.
Qed.

(** X5: a ledger over an existing file reads it under the header of the
    file; the field names that the ledger was given play no part.  When
    the header holds the key field, the keys are those of the records of
    the file.  When it does not, the construction raises a KeyError for
    the key field at the first record, and gives an empty ledger when
    the file has no record. *)
Theorem ledger_reads_under_the_file_header (fs : filesystem) (fn : string)
        (header : list string) (body : list record)
        (fields : list string) (kf : string) (h : bool) :
  fs !! fn = Some (header :: body) →
  (kf ∈ header →
     new fs fn fields kf h = Return (mk fn fields kf h (file_keys header kf body)))
  ∧ (kf ∉ header → Forall (fun rec => rec = []) body →
       new fs fn fields kf h = Return (mk fn fields kf h ∅))
  ∧ (kf ∉ header → ∀ rec, rec ∈ body → rec ≠ [] →
       new fs fn fields kf h = Raise (KeyError kf)).
Proof.
  intros Hfs. split; [by apply new_present|].
  assert (Hnew : new fs fn fields kf h
                 = load_keys (mk fn fields kf h ∅) fs).
  { unfold new, exists_. cbn [filename]. rewrite Hfs.
    rewrite bool_decide_eq_true_2; [done|by eexists]. }
  rewrite Hnew. unfold load_keys, iter. cbn [filename keyfield item_keys].
  rewrite Hfs. split.
  - intros _ Hall.
    assert (filter (fun r : list string => r ≠ []) body = []) as ->; [|done].
    clear -Hall. induction Hall as [|rec body -> _ IH]; [done|].
    rewrite filter_cons_False; [exact IH|]. intros Hne. by apply Hne.
  - intros Hnin rec Hin Hne.
    assert (rec ∈ filter (fun r : list string => r ≠ []) body) as Hf.
    { by apply list_elem_of_filter. }
    destruct (filter (fun r : list string => r ≠ []) body) as [|r0 rest];
      [by apply elem_of_nil in Hf|].
    csimpl. by rewrite dictreader_row_no_key.
Qed.

(** X6: a record of the file that ends before the column of the key
    field has the key [None]: the ledger that is built over the file
    holds [None] among its keys. *)
Theorem short_record_has_the_key_none (fs : filesystem) (fn : string)
        (header : list string) (body : list record) (rec : record)
        (fields : list string) (kf : string) (h : bool) :
  fs !! fn = Some (header :: body) → rec ∈ body → rec ≠ [] →
  kf ∈ drop (length rec) header →
  ∃ l, new fs fn fields kf h = Return l ∧ contains l None = true.
Proof.
  intros Hfs Hin Hne Hkf. eexists. split.
  - eapply new_present; [exact Hfs|]. by eapply subseteq_drop.
  - unfold contains. cbn [item_keys]. apply bool_decide_eq_true_2.
    unfold file_keys. rewrite elem_of_list_to_set.
    apply list_elem_of_fmap. exists rec. split.
    + unfold dictreader_row. rewrite foldl_fill_lookup.
      by rewrite bool_decide_eq_true_2.
    + by apply list_elem_of_filter.
Qed.



End LedgerFacts.

Module RunInvariants.
Import Imports ItemLogFacts LedgerFacts RunFacts Tally.

Section WithCollaborators.
Context `{Collaborators}.

(** *** What the steps leave as it is *)

Lemma same_run_refl (s : State) : same_run s s.
Proof. unfold same_run. split_and!; done. Qed.

Lemma same_run_trans (a b c : State) :
  same_run a b → same_run b c → same_run a c.
Proof.
  unfold same_run. intros Hab Hbc. destruct_and!.
  split_and!; try congruence. set_solver.
Qed.

Lemma new_fields (fs : ItemLog.filesystem) (fn : string)
      (fields : list string) (kf : string) (h : bool) (l : ItemLog.t) :
  ItemLog.new fs fn fields kf h = Return l →
  ItemLog.filename l = fn ∧ ItemLog.fieldnames l = fields
  ∧ ItemLog.keyfield l = kf ∧ ItemLog.write_header l = h.
Proof.
  unfold ItemLog.new, ItemLog.load_keys. cbn.
  destruct (ItemLog.exists_ _ fs).
  - destruct (ItemLog.add_keys _ _ _) as [ks|e]; [|done].
    by intros [= <-].
  - by intros [= <-].
Qed.

Lemma datetimestamp_spec (b : bool) (s : State) :
  datetimestamp b s
  = (set_ticks (S (ticks s)) s,
     Return (if b then digits_of (isoformat (clock (ticks s)))
             else isoformat (clock (ticks s)))).
Proof. reflexivity. Qed.

(** [drop_invalid] writes to the invalid ledger of the run only. *)
Lemma drop_invalid_frame (i : option Item.t) (lr reason : string)
      (s s' : State) (o : outcome unit) (d : string) :
  drop_invalid i lr reason s = (s', o) →
  run_dir s = Some d →
  opened_at (_invalid_items s) (path_child d "dropped-invalid.log.csv") →
  same_run s s' ∧ repo s' = repo s ∧ job s' = job s
  ∧ _failed_items s' = _failed_items s
  ∧ opened_at (_invalid_items s') (path_child d "dropped-invalid.log.csv")
  ∧ ∀ p, p ≠ path_child d "dropped-invalid.log.csv" → fs s' !! p = fs s !! p.
Proof.
  intros Hdrop Hd Hopen.
  unfold drop_invalid, bindM, invalid_items in Hdrop. rewrite Hd in Hdrop.
  assert (Hstep : ∀ l s0,
    ItemLog.filename l = path_child d "dropped-invalid.log.csv" →
    same_run s s0 → repo s0 = repo s → job s0 = job s →
    _failed_items s0 = _failed_items s → fs s0 = fs s →
    bindM (datetimestamp false) (fun stamp =>
      bindM (append_to l (ledger_row i lr stamp "reason" reason))
            (fun log' s => (set_invalid_items log' s, Return ()))) s0
    = (s', o) →
    _invalid_items s0 = Some l →
    same_run s s' ∧ repo s' = repo s ∧ job s' = job s
    ∧ _failed_items s' = _failed_items s
    ∧ opened_at (_invalid_items s') (path_child d "dropped-invalid.log.csv")
    ∧ ∀ p, p ≠ path_child d "dropped-invalid.log.csv"
           → fs s' !! p = fs s !! p).
  { intros l s0 Hfn Hsame Hrepo Hjob Hfailed Hfs Hrun Hinv.
    unfold bindM in Hrun. rewrite datetimestamp_spec in Hrun.
    unfold append_to in Hrun. cbn [fs set_ticks] in Hrun.
    pose proof (append_other_files l
                  (ledger_row i lr (isoformat (clock (ticks s0))) "reason" reason)
                  (fs s0)) as Hother.
    destruct (ItemLog.append l _ (fs s0)) as [fs' [l'|e]] eqn:Happ;
      injection Hrun as <- <-; cbn.
    - destruct (append_returns _ _ _ _ _ Happ) as (Hfn' & _).
      split; [exact Hsame|]. split; [exact Hrepo|]. split; [exact Hjob|].
      split; [exact Hfailed|]. split; [congruence|].
      intros p Hp. rewrite <- Hfs. apply Hother. congruence.
    - split; [exact Hsame|]. split; [exact Hrepo|]. split; [exact Hjob|].
      split; [exact Hfailed|]. split; [by rewrite Hinv|].
      intros p Hp. rewrite <- Hfs. apply Hother. congruence. }
  destruct (_invalid_items s) as [l|] eqn:El.
  - eapply (Hstep l s); first [done|apply same_run_refl].
  - destruct (ItemLog.new (fs s) _ _ _ _) as [l|e] eqn:Enew.
    + destruct (new_fields _ _ _ _ _ _ Enew) as (Hfn & _).
      eapply (Hstep l (set_invalid_items l s));
        first [done|apply same_run_refl].
    + injection Hdrop as <- <-. split; [apply same_run_refl|].
      split_and!; try done. by rewrite El.
Qed.

(** [drop_failed] leaves the repository, the job and the invalid ledger
    as they are. *)
Lemma drop_failed_frame (i : option Item.t) (lr reason : string)
      (s s' : State) (o : outcome unit) :
  drop_failed i lr reason s = (s', o) →
  same_run s s' ∧ repo s' = repo s ∧ job s' = job s
  ∧ _invalid_items s' = _invalid_items s.
Proof.
  unfold drop_failed, bindM, failed_items, datetimestamp, bindM, now, ret,
    append_to.
  intros Heq. repeat case_match; simplify_eq; cbn;
    (split; [unfold same_run; cbn; split_and!; done|split_and!; done]).
Qed.


Lemma drop_invalid_same_run (i : option Item.t) (lr reason : string)
      (s s' : State) (o : outcome unit) :
  drop_invalid i lr reason s = (s', o) →
  same_run s s' ∧ repo s' = repo s ∧ job s' = job s
  ∧ _failed_items s' = _failed_items s.
Proof.
  unfold drop_invalid, bindM, invalid_items, datetimestamp, bindM, now, ret,
    append_to.
  intros Heq. repeat case_match; simplify_eq; cbn;
    (split; [unfold same_run; cbn; split_and!; done|split_and!; done]).
Qed.

(** [complete] appends to the completed ledger of the job and changes
    nothing else of the job. *)
Lemma complete_frame (i : Item.t) (lr : string) (st : ImportedItemStatus)
      (s s' : State) (o : outcome unit) :
  complete i lr st s = (s', o) →
  same_run s s' ∧ repo s' = repo s
  ∧ _invalid_items s' = _invalid_items s
  ∧ _failed_items s' = _failed_items s
  ∧ (∀ p, p ≠ ItemLog.filename (completed_log (job s))
          → fs s' !! p = fs s !! p)
  ∧ match o with
    | Return _ =>
        (ItemLog.len (completed_log (job s'))
         ≤ S (ItemLog.len (completed_log (job s))))%nat
    | Raise _ => job s' = job s
    end.
Proof.
  unfold complete, bindM. rewrite datetimestamp_spec.
  unfold append_to. cbn [fs job set_ticks].
  pose proof (append_other_files (completed_log (job s))
                (ledger_row (Some i) lr (isoformat (clock (ticks s)))
                            "status" (status_value st)) (fs s)) as Hother.
  destruct (ItemLog.append (completed_log (job s)) _ (fs s))
    as [fs' [l'|e]] eqn:Happ; intros [= <- <-]; cbn.
  - destruct (append_returns _ _ _ _ _ Happ)
      as (Hfn & Hf & Hk & Hh & Hkeys & _).
    split; [unfold same_run; cbn; split_and!; try done; set_solver|].
    split_and!; try done.
    unfold ItemLog.len. rewrite Hkeys. apply size_add_key.
  - split; [unfold same_run; cbn; split_and!; done|]. split_and!; done.
Qed.

Lemma count_status_completed (c : Counter) (st : ImportedItemStatus) :
  completed_count (count_status c st) = S (completed_count c).
Proof.
  unfold completed_count.
  destruct st; cbn [count_status];
    repeat (rewrite counter_add_eq || rewrite counter_get_add_ne by done);
    lia.
Qed.

Lemma try_import_frame (self : ImportRow) (count : Counter) (s s' : State)
      (o : outcome (Item.t * Counter)) :
  try_import self count s = (s', o) →
  same_run s s'
  ∧ _invalid_items s' = _invalid_items s
  ∧ _failed_items s' = _failed_items s
  ∧ (∀ p, p ≠ ItemLog.filename (completed_log (job s))
          → fs s' !! p = fs s !! p)
  ∧ match o with
    | Return (_, c1) =>
        (∃ st, c1 = count_status count st)
        ∧ (ItemLog.len (completed_log (job s'))
           ≤ S (ItemLog.len (completed_log (job s))))%nat
    | Raise _ => job s' = job s
    end.
Proof.
  unfold try_import.
  destruct (update_repo self (repo s)) as [i [h [st|e]]].
  2:{ intros [= <- <-].
      split; [unfold same_run; cbn; split_and!; done|]. split_and!; done. }
  unfold bindM, ret.
  destruct (complete i (Row.line_reference (row self)) st (set_repo h s))
    as [s1 [[]|e]] eqn:Ec;
    destruct (complete_frame _ _ _ _ _ _ Ec)
      as (Hsame & _ & Hinv & Hfailed & Hfs & Ho);
    intros [= <- <-]; (split; [exact Hsame|]); split_and!; try done.
  by exists st.
Qed.

Lemma yield_status_same_run (start : Z) (count : Counter) (s : State) :
  same_run s (yield_status start count s).1.
Proof. rewrite yield_status_spec. exact (same_run_refl s). Qed.

(** One row of the loop leaves the run and the job as they are, but for
    the completed ledger, which grows by at most the item that the
    counters gain. *)
Lemma process_row_same_run (validate_only : bool) (start : Z)
      (count : Counter) (r : SourceRow) (s s' : State)
      (o : outcome (Counter * option Snapshot)) :
  process_row validate_only start count r s = (s', o) →
  same_run s s'
  ∧ match o with
    | Return (c', _) =>
        (ItemLog.len (completed_log (job s')) + completed_count count
         ≤ ItemLog.len (completed_log (job s)) + completed_count c')%nat
    | Raise _ => True
    end.
Proof.
  assert (Hcc : ∀ c k n,
            k ∈ ["files"; "valid_items"; "invalid_items"; "items_with_errors"] →
            completed_count (counter_add c k n) = completed_count c).
  { intros c k n Hk. unfold completed_count.
    rewrite !counter_get_add_ne; [done|..]; intros ->; set_solver. }
  unfold process_row. destruct r as [r|inv].
  - destruct (validate_item _) as [v|e].
    2:{ intros [= <- <-]. split; [apply same_run_refl|done]. }
    destruct (ok v).
    + destruct validate_only.
      { intros [= <- <-]. split; [apply same_run_refl|].
        rewrite !Hcc by set_solver. done. }
      destruct (try_import _ _ s) as [s1 [[i c1]|e]] eqn:Etry;
        destruct (try_import_frame _ _ _ _ _ Etry)
          as (Hsame & _ & _ & _ & Ho).
      * rewrite yield_status_spec. intros [= <- <-].
        split; [exact Hsame|]. destruct Ho as [[st ->] Hlen].
        cbn. rewrite count_status_completed, !Hcc by set_solver. lia.
      * destruct e; try (intros [= <- <-]; split; [exact Hsame|done]).
        unfold bindM.
        destruct (drop_failed _ _ _ s1) as [s2 [[]|e]] eqn:Edrop;
          destruct (drop_failed_frame _ _ _ _ _ _ Edrop)
            as (Hsame2 & _ & Hjob2 & _).
        -- rewrite yield_status_spec. intros [= <- <-].
           split; [eapply same_run_trans; [exact Hsame|exact Hsame2]|].
           cbn. rewrite Hjob2, Ho, !Hcc by set_solver. done.
        -- intros [= <- <-].
           split; [eapply same_run_trans; [exact Hsame|exact Hsame2]|done].
    + unfold bindM.
      destruct (drop_invalid _ _ _ s) as [s1 [[]|e]] eqn:Edrop;
        destruct (drop_invalid_same_run _ _ _ _ _ _ Edrop)
          as (Hsame & _ & Hjob & _);
        intros [= <- <-]; (split; [exact Hsame|]); [|done].
      rewrite Hjob, !Hcc by set_solver. done.
  - unfold bindM.
    destruct (drop_invalid _ _ _ s) as [s1 [[]|e]] eqn:Edrop;
      destruct (drop_invalid_same_run _ _ _ _ _ _ Edrop)
        as (Hsame & _ & Hjob & _);
      intros [= <- <-]; (split; [exact Hsame|]); [|done].
    by rewrite Hjob.
Qed.

Lemma run_rows_same_run (validate_only : bool) (start : Z)
      (rs : list SourceRow) (count : Counter) (s s' : State)
      (snaps : list Snapshot) (o : outcome Counter) :
  run_rows validate_only start count rs s = (s', (snaps, o)) →
  same_run s s'
  ∧ match o with
    | Return c' =>
        (ItemLog.len (completed_log (job s')) + completed_count count
         ≤ ItemLog.len (completed_log (job s)) + completed_count c')%nat
    | Raise _ => True
    end.
Proof.
  revert count s s' snaps o.
  induction rs as [|r rs IH]; intros count s s' snaps o; cbn [run_rows].
  - intros [= <- <- <-]. split; [apply same_run_refl|done].
  - destruct (process_row validate_only start count r s)
      as [s1 [[c1 snap]|e]] eqn:Erow;
      destruct (process_row_same_run _ _ _ _ _ _ _ Erow) as [Hsame Hlen].
    2:{ intros [= <- <- <-]. done. }
    destruct (run_rows validate_only start c1 rs s1)
      as [s2 [snaps' o']] eqn:Erest.
    intros [= <- <- <-].
    destruct (IH _ _ _ _ _ Erest) as [Hsame' Hlen'].
    split; [by eapply same_run_trans|].
    destruct o' as [c'|e]; [lia|done].
Qed.

(** *** The start of a run *)

Lemma start_run_started (f : option string) (s : State) :
  is_Some (run_dir s) →
  start_run f s = (s, Raise (RuntimeError "Run completed, cannot start again")).
Proof. intros [d Hd]. unfold start_run. by rewrite Hd. Qed.

(** What [start_run] does to a run that has not started. *)
Lemma start_run_fresh (f : option string) (s s1 : State)
      (o : outcome (Z * MetadataSpreadsheet)) :
  run_dir s = None → start_run f s = (s1, o) →
  let stamp := digits_of (isoformat (clock (ticks s))) in
  fs s1 = fs s ∧ repo s1 = repo s ∧ job s1 = job s
  ∧ ticks s1 = S (S (ticks s))
  ∧ timestamp s1 = Some stamp
  ∧ run_dir s1 = Some (path_child (dir (job s)) stamp)
  ∧ source_csv s1 = match f with Some x => Some x | None => source_csv s end
  ∧ _invalid_items s1 = _invalid_items s
  ∧ _failed_items s1 = _failed_items s
  ∧ match o with
    | Return (start, md) =>
        start = clock (S (ticks s))
        ∧ get_metadata (source_csv s1) = Return md
        ∧ (has_binaries md = true
           → is_Some (binaries_location (config (job s))))
    | Raise _ => True
    end.
Proof.
  intros Hd. unfold start_run. rewrite Hd.
  unfold bindM. rewrite datetimestamp_spec. unfold now.
  cbn [ticks set_ticks set_run_dir job dir].
  destruct f as [x|]; cbn;
    destruct (get_metadata _) as [md|e] eqn:Emd.
  - destruct (has_binaries md) eqn:Hb; cbn.
    + case_bool_decide as Hloc; intros [= <- <-]; cbn; split_and!; try done.
      intros _. by destruct (binaries_location (config (job s))).
    + intros [= <- <-]; cbn; split_and!; try done. by rewrite Hb.
  - destruct e; intros [= <- <-]; cbn; split_and!; done.
  - destruct (has_binaries md) eqn:Hb; cbn.
    + case_bool_decide as Hloc; intros [= <- <-]; cbn; split_and!; try done.
      intros _. by destruct (binaries_location (config (job s))).
    + intros [= <- <-]; cbn; split_and!; try done. by rewrite Hb.
  - destruct e; intros [= <- <-]; cbn; split_and!; done.
Qed.

Lemma run_started (limit pct : option nat) (validate_only : bool)
      (f : option string) (s : State) :
  is_Some (run_dir (run limit pct validate_only f s).1).
Proof.
  destruct (run limit pct validate_only f s) as [s' [snaps o]] eqn:Erun.
  cbn. destruct (run_dir s) as [d|] eqn:Hd.
  - unfold run in Erun. rewrite start_run_started in Erun by by eexists.
    injection Erun as <- _ _. by eexists.
  - destruct (run_cases _ _ _ _ _ _ _ _ Erun)
      as [(e & Estart & _)|(s1 & start & md & oc & Estart & Erows & _)];
      destruct (start_run_fresh _ _ _ _ Hd Estart)
        as (_ & _ & _ & _ & _ & Hdir & _).
    + by eexists.
    + destruct (run_rows_same_run _ _ _ _ _ _ _ _ Erows) as [Hsame _].
      destruct Hsame as (-> & _). by eexists.
Qed.

(** X8: a run object runs once.  Whatever a run was given and however
    it ended, starting it again raises the RuntimeError 'Run completed,
    cannot start again': nothing is yielded and nothing changes. *)
Theorem run_cannot_start_again (limit pct limit' pct' : option nat)
        (validate_only validate_only' : bool) (f f' : option string)
        (s : State) :
  let s1 := (run limit pct validate_only f s).1 in
  run limit' pct' validate_only' f' s1
  = (s1, ([], Raise (RuntimeError "Run completed, cannot start again"))).
Proof.
  intros s1. unfold run at 1.
  rewrite start_run_started; [done|]. apply run_started.
Qed.


(** *** Validate-only mode *)

Lemma process_row_validate_only (start : Z) (count : Counter)
      (r : SourceRow) (s s' : State)
      (o : outcome (Counter * option Snapshot)) (d : string) :
  process_row true start count r s = (s', o) →
  run_dir s = Some d →
  opened_at (_invalid_items s) (path_child d "dropped-invalid.log.csv") →
  repo s' = repo s ∧ job s' = job s ∧ _failed_items s' = _failed_items s
  ∧ run_dir s' = Some d
  ∧ opened_at (_invalid_items s') (path_child d "dropped-invalid.log.csv")
  ∧ (∀ p, p ≠ path_child d "dropped-invalid.log.csv" → fs s' !! p = fs s !! p)
  ∧ match o with
    | Return (_, snap) => snap = None
    | Raise _ => True
    end.
Proof.
  intros Hrow Hd Hopen.
  unfold process_row in Hrow. destruct r as [r|inv].
  - destruct (validate_item _) as [v|e].
    2:{ injection Hrow as <- <-. split_and!; done. }
    destruct (ok v).
    { injection Hrow as <- <-. split_and!; done. }
    unfold bindM in Hrow.
    destruct (drop_invalid _ _ _ s) as [s1 [[]|e]] eqn:Edrop;
      destruct (drop_invalid_frame _ _ _ _ _ _ _ Edrop Hd Hopen)
        as ((Hdir & _) & Hrepo & Hjob & Hfailed & Hopen' & Hfs);
      injection Hrow as <- <-; split_and!; try done; congruence.
  - unfold bindM in Hrow.
    destruct (drop_invalid _ _ _ s) as [s1 [[]|e]] eqn:Edrop;
      destruct (drop_invalid_frame _ _ _ _ _ _ _ Edrop Hd Hopen)
        as ((Hdir & _) & Hrepo & Hjob & Hfailed & Hopen' & Hfs);
      injection Hrow as <- <-; split_and!; try done; congruence.
Qed.

Lemma run_rows_validate_only (start : Z) (rs : list SourceRow)
      (count : Counter) (s s' : State) (snaps : list Snapshot)
      (o : outcome Counter) (d : string) :
  run_rows true start count rs s = (s', (snaps, o)) →
  run_dir s = Some d →
  opened_at (_invalid_items s) (path_child d "dropped-invalid.log.csv") →
  snaps = [] ∧ repo s' = repo s ∧ job s' = job s
  ∧ _failed_items s' = _failed_items s ∧ run_dir s' = Some d
  ∧ ∀ p, p ≠ path_child d "dropped-invalid.log.csv" → fs s' !! p = fs s !! p.
Proof.
  revert count s s' snaps o.
  induction rs as [|r rs IH]; intros count s s' snaps o; cbn [run_rows].
  - intros [= <- <- <-] Hd Hopen. split_and!; done.
  - intros Hrun Hd Hopen.
    destruct (process_row true start count r s)
      as [s1 [[c1 snap]|e]] eqn:Erow;
      destruct (process_row_validate_only _ _ _ _ _ _ _ Erow Hd Hopen)
        as (Hrepo & Hjob & Hfailed & Hd1 & Hopen1 & Hfs & Hsnap).
    2:{ injection Hrun as <- <- <-. split_and!; done. }
    destruct (run_rows true start c1 rs s1) as [s2 [snaps' o']] eqn:Erest.
    injection Hrun as <- <- <-. subst snap.
    destruct (IH _ _ _ _ _ Erest Hd1 Hopen1)
      as (-> & Hrepo2 & Hjob2 & Hfailed2 & Hd2 & Hfs2).
    split_and!; try done; try congruence.
    intros p Hp. by rewrite Hfs2, Hfs.
Qed.

(** X9: a run in validate-only mode imports nothing.  Whatever it
    returns or raises, it makes no call to the repository, leaves the
    job with its completed ledger and the failed ledger of the run as
    they are, yields no snapshot, and changes no ledger file but the
    invalid ledger of the run.  The one other file that it writes is
    the stored metadata file of the job: a run that has not started
    replaces it by the import file when it is given one, before the
    metadata is read, and leaves it as it is otherwise. *)
Theorem validate_only_run_imports_nothing (limit pct : option nat)
        (f : option string) (s : State) :
  _invalid_items s = None →
  let r := run limit pct true f s in
  repo r.1 = repo s ∧ job r.1 = job s
  ∧ _failed_items r.1 = _failed_items s
  ∧ r.2.1 = []
  ∧ (∀ p, p ≠ invalid_ledger_path r.1 → fs r.1 !! p = fs s !! p)
  ∧ source_csv r.1 = match run_dir s, f with
                     | None, Some x => Some x
                     | _, _ => source_csv s
                     end.
Proof.
  intros Hinv r. subst r.
  destruct (run limit pct true f s) as [s' [snaps o]] eqn:Erun. cbn.
  destruct (run_dir s) as [d|] eqn:Hd.
  { unfold run in Erun. rewrite start_run_started in Erun by by eexists.
    injection Erun as <- <- _. done. }
  destruct (run_cases _ _ _ _ _ _ _ _ Erun)
    as [(e & Estart & -> & _)|(s1 & start & md & oc & Estart & Erows & _)];
    destruct (start_run_fresh _ _ _ _ Hd Estart)
      as (Hfs & Hrepo & Hjob & _ & _ & Hdir & Hsrc & Hinv1 & Hfailed & _).
  { split; [done|]. split; [done|]. split; [done|]. split; [done|].
    split; [|by destruct f]. intros p _. by rewrite Hfs. }
  destruct (run_rows_same_run _ _ _ _ _ _ _ _ Erows) as [Hsame _].
  destruct Hsame as (_ & _ & Hsrc2 & _).
  destruct (run_rows_validate_only _ _ _ _ _ _ _ _ Erows Hdir)
    as (-> & Hrepo2 & Hjob2 & Hfailed2 & Hd2 & Hfs2).
  { by rewrite Hinv1, Hinv. }
  split; [congruence|]. split; [congruence|]. split; [congruence|].
  split; [done|]. split.
  - intros p Hp. unfold invalid_ledger_path in Hp. rewrite Hd2 in Hp.
    rewrite Hfs2, Hfs; done.
  - rewrite Hsrc2, Hsrc. by destruct f.
Qed.

(** *** The completed ledger over a run *)

Lemma initial_count_get (md : MetadataSpreadsheet) (j : ImportJob) :
  counter_get (initial_count md j) "initially_completed_items"
  = ItemLog.len (completed_log j)
  ∧ Forall (fun k => counter_get (initial_count md j) k = 0)
           ["errors"; "files"; "valid_items"; "invalid_items";
            "created_items"; "updated_items"; "unchanged_items";
            "skipped_items"; "items_with_errors"].
Proof.
  unfold counter_get, initial_count, list_to_map. cbn [foldr fst snd].
  split; [|repeat constructor];
    repeat (rewrite lookup_insert_ne by done);
    by rewrite ?lookup_insert_eq, ?lookup_empty.
Qed.

Lemma initial_count_completed (md : MetadataSpreadsheet) (j : ImportJob) :
  counter_get (initial_count md j) "initially_completed_items"
  = ItemLog.len (completed_log j)
  ∧ completed_count (initial_count md j) = 0.
Proof.
  destruct (initial_count_get md j) as [Hinit Hzero].
  split; [done|]. unfold completed_count.
  repeat (apply Forall_cons in Hzero as [? Hzero]). by simplify_eq.
Qed.

(** X10: the completed ledger of a job only grows in a run.  Whatever the
    run returns or raises, no key of the ledger is lost and the
    configuration of the job is as it was; when the run returns, its
    counter of the initially completed items is the length of the ledger
    at the start, and the ledger has gained at most as many keys as the
    run counts created, updated and unchanged items. *)
Theorem completed_ledger_only_grows (limit pct : option nat)
        (validate_only : bool) (f : option string) (s : State) :
  match run limit pct validate_only f s with
  | (s', (snaps, o)) =>
      (∀ k, ItemLog.contains (completed_log (job s)) k = true
            → ItemLog.contains (completed_log (job s')) k = true)
      ∧ (ItemLog.len (completed_log (job s))
         ≤ ItemLog.len (completed_log (job s')))%nat
      ∧ config (job s') = config (job s)
      ∧ match o with
        | Return res =>
            counter_get (result_count res) "initially_completed_items"
            = ItemLog.len (completed_log (job s))
            ∧ (ItemLog.len (completed_log (job s'))
               ≤ ItemLog.len (completed_log (job s))
                 + completed_count (result_count res))%nat
        | Raise _ => True
        end
  end.
Proof.
  destruct (run limit pct validate_only f s) as [s' [snaps o]] eqn:Erun.
  destruct (run_dir s) as [d|] eqn:Hd.
  { unfold run in Erun. rewrite start_run_started in Erun by by eexists.
    injection Erun as <- _ <-. done. }
  destruct (run_cases _ _ _ _ _ _ _ _ Erun)
    as [(e & Estart & _ & ->)|(s1 & start & md & oc & Estart & Erows & ->)];
    destruct (start_run_fresh _ _ _ _ Hd Estart) as (_ & _ & Hjob & _).
  { by rewrite Hjob. }
  destruct (run_rows_same_run _ _ _ _ _ _ _ _ Erows) as [Hsame Hlen].
  destruct (run_rows_counts _ _ _ _ _ _ _ _ Erows) as [_ Hc].
  destruct Hsame as (_ & _ & _ & _ & _ & Hcfg & _ & _ & _ & _ & _ & Hkeys).
  rewrite Hjob in *.
  split_and!; try done.
  - intros k. unfold ItemLog.contains.
    intros Hin%bool_decide_eq_true_1. apply bool_decide_eq_true_2.
    by apply Hkeys.
  - unfold ItemLog.len. by apply subseteq_size.
  - destruct oc as [c|e]; [|done]. cbn.
    destruct (initial_count_completed md (job s)) as [Hinit Hzero].
    rewrite Hzero in Hlen. split; [|lia].
    destruct (Hc c eq_refl) as [Hkeep _].
    unfold counter_get in *. rewrite Hkeep; [done|].
    apply (bool_decide_unpack _). vm_compute. exact I.
Qed.

(** *** The counters over a run *)

Lemma valid_row_job (validate_only : bool) (j j' : ImportJob)
      (r : SourceRow) :
  config j = config j' → ssh_private_key j = ssh_private_key j' →
  valid_row validate_only j r = valid_row validate_only j' r
  ∧ invalid_row validate_only j r = invalid_row validate_only j' r.
Proof.
  intros Hc Hk. unfold valid_row, invalid_row. destruct r as [r|inv]; [|done].
  unfold validate_item, validate_files, ImportRow_new. simpl.
  by rewrite !(missing_files_job j j').
Qed.

Lemma initial_count_balanced (validate_only : bool)
      (md : MetadataSpreadsheet) (j : ImportJob) :
  balanced validate_only (initial_count md j)
  ∧ counter_get (initial_count md j) "files" = 0
  ∧ counter_get (initial_count md j) "valid_items" = 0
  ∧ counter_get (initial_count md j) "invalid_items" = 0.
Proof.
  destruct (initial_count_get md j) as [_ Hzero].
  repeat (apply Forall_cons in Hzero as [? Hzero]).
  unfold balanced. destruct validate_only; split_and!; lia.
Qed.

Ltac counters :=
  repeat (rewrite counter_add_eq || rewrite counter_get_add_ne by done).

(** What one row of the loop adds to the counters. *)
Lemma process_row_tally (validate_only : bool) (start : Z)
      (count c' : Counter) (r : SourceRow) (s s' : State)
      (snap : option Snapshot) :
  process_row validate_only start count r s = (s', Return (c', snap)) →
  counter_get c' "files" = counter_get count "files" + row_files r
  ∧ counter_get c' "valid_items"
    = counter_get count "valid_items"
      + (if valid_row validate_only (job s) r then 1 else 0)
  ∧ counter_get c' "invalid_items"
    = counter_get count "invalid_items"
      + (if invalid_row validate_only (job s) r then 1 else 0)
  ∧ (balanced validate_only count → balanced validate_only c').
Proof.
  unfold process_row, valid_row, invalid_row, row_files.
  destruct r as [r|inv].
  - destruct (validate_item (ImportRow_new (job s) r validate_only))
      as [v|e]; [|done].
    destruct (ok v) eqn:Hok; cbn [negb].
    + destruct validate_only.
      * intros [= <- <- <-]. unfold balanced. counters.
        split_and!; try lia; intros; destruct_and?; split_and?; lia.
      * destruct (try_import _ _ s) as [s1 [[i c1]|e]] eqn:Etry.
        -- rewrite yield_status_spec. intros [= <- <- <-].
           destruct (try_import_count _ _ _ _ _ _ Etry) as [st ->].
           destruct st; cbn [count_status]; unfold balanced; counters;
             (split_and!; try lia; intros; destruct_and?; split_and?; lia).
        -- destruct e; try done. unfold bindM.
           destruct (drop_failed _ _ _ s1) as [s2 [[]|e]]; [|done].
           rewrite yield_status_spec. intros [= <- <- <-].
           unfold balanced. counters.
           split_and!; try lia; intros; destruct_and?; split_and?; lia.
    + unfold bindM.
      destruct (drop_invalid _ _ _ s) as [s1 [[]|e]]; [|done].
      intros [= <- <- <-]. unfold balanced. counters.
      split_and!; try lia; intros;
        destruct validate_only; destruct_and?; split_and?; lia.
  - unfold bindM.
    destruct (drop_invalid _ _ _ s) as [s1 [[]|e]]; [|done].
    intros [= <- <- <-]. split_and!; try done; lia.
Qed.

Lemma run_rows_tally (validate_only : bool) (start : Z)
      (rs : list SourceRow) (count : Counter) (s s' : State)
      (snaps : list Snapshot) (o : outcome Counter) :
  run_rows validate_only start count rs s = (s', (snaps, o)) →
  (balanced validate_only count →
   Forall (fun sn => balanced validate_only (snapshot_count sn)) snaps)
  ∧ ∀ c, o = Return c →
      counter_get c "files"
      = counter_get count "files" + sum_list (row_files <$> rs)
      ∧ counter_get c "valid_items"
        = counter_get count "valid_items"
          + length (List.filter (valid_row validate_only (job s)) rs)
      ∧ counter_get c "invalid_items"
        = counter_get count "invalid_items"
          + length (List.filter (invalid_row validate_only (job s)) rs)
      ∧ (balanced validate_only count → balanced validate_only c).
Proof.
  revert count s s' snaps o.
  induction rs as [|r rs IH]; intros count s s' snaps o; cbn [run_rows].
  - intros [= <- <- <-]. split; [constructor|].
    intros c [= <-]. cbn. split_and!; try done; lia.
  - destruct (process_row validate_only start count r s)
      as [s1 [[c1 snap]|e]] eqn:Erow.
    2:{ intros [= <- <- <-]. split; [constructor|done]. }
    destruct (run_rows validate_only start c1 rs s1)
      as [s2 [snaps' o']] eqn:Erest.
    intros [= <- <- <-].
    destruct (process_row_tally _ _ _ _ _ _ _ _ Erow)
      as (Hf & Hv & Hi & Hb).
    destruct (process_row_returns _ _ _ _ _ _ _ _ Erow) as [_ Hsnap].
    destruct (process_row_job _ _ _ _ _ _ _ Erow) as [Hcfg Hkey].
    destruct (IH _ _ _ _ _ Erest) as [Hsnaps Ho].
    split.
    + intros Hbal. apply Forall_app. split; [|by apply Hsnaps, Hb].
      destruct snap as [sn|]; [|constructor]. cbn.
      destruct Hsnap as (_ & _ & _ & Hsc).
      constructor; [rewrite Hsc; by apply Hb|constructor].
    + intros c Hc. destruct (Ho c Hc) as (Hf' & Hv' & Hi' & Hb').
      assert (Hsame : ∀ r', valid_row validate_only (job s1) r'
                            = valid_row validate_only (job s) r'
                            ∧ invalid_row validate_only (job s1) r'
                              = invalid_row validate_only (job s) r').
      { intros r'. by apply valid_row_job. }
      rewrite (List.filter_ext _ _ (fun r' => proj1 (Hsame r'))) in Hv'.
      rewrite (List.filter_ext _ _ (fun r' => proj2 (Hsame r'))) in Hi'.
      rewrite Hf', Hv', Hi', Hf, Hv, Hi. cbn [List.filter fmap list_fmap sum_list].
      split_and!.
      * cbn. lia.
      * destruct (valid_row validate_only (job s) r); cbn; lia.
      * destruct (invalid_row validate_only (job s) r); cbn; lia.
      * intros Hbal. by apply Hb', Hb.
Qed.

(** X11: the counters of a run balance.  In every snapshot that the run
    yields and in the result that it returns, the skipped items are the
    unchanged items and the counter of the errors is zero (the failed
    items are counted under another key); in import mode every valid
    item is counted once more as created, updated, unchanged or failed;
    in validate-only mode none of these four counters moves. *)
Theorem counters_balance (limit pct : option nat) (validate_only : bool)
        (f : option string) (s : State) :
  let r := run limit pct validate_only f s in
  Forall (fun sn => balanced validate_only (snapshot_count sn)) r.2.1
  ∧ match r.2.2 with
    | Return res => balanced validate_only (result_count res)
    | Raise _ => True
    end.
Proof.
  intros r. subst r.
  destruct (run limit pct validate_only f s) as [s' [snaps o]] eqn:Erun.
  cbn.
  destruct (run_cases _ _ _ _ _ _ _ _ Erun)
    as [(e & _ & -> & ->)|(s1 & start & md & oc & _ & Erows & ->)].
  { split; [constructor|done]. }
  destruct (run_rows_tally _ _ _ _ _ _ _ _ Erows) as [Hsnaps Ho].
  destruct (initial_count_balanced validate_only md (job s1)) as [Hbal _].
  split; [by apply Hsnaps|].
  destruct oc as [c|e]; [|done]. cbn.
  destruct (Ho c eq_refl) as (_ & _ & _ & Hb). by apply Hb.
Qed.

(** X12: the counters of a run that returns tally the rows that it went
    through.  The files are those that the well-formed rows name; the
    valid items are the well-formed rows whose validation passes and the
    invalid items those whose validation does not; the markers of the
    invalid rows are in neither count; and the run has yielded one
    snapshot for each valid item in import mode, and none in
    validate-only mode. *)
Theorem counters_tally_the_rows (limit pct : option nat)
        (validate_only : bool) (f : option string) (s : State) :
  match run limit pct validate_only f s with
  | (s', (snaps, Return res)) =>
      ∃ s1 start md,
        start_run f s = (s1, Return (start, md))
        ∧ let rs := row_stream md limit pct s1 in
          let c := result_count res in
          counter_get c "files" = sum_list (row_files <$> rs)
          ∧ counter_get c "valid_items"
            = length (List.filter (valid_row validate_only (job s1)) rs)
          ∧ counter_get c "invalid_items"
            = length (List.filter (invalid_row validate_only (job s1)) rs)
          ∧ length snaps
            = if validate_only then 0 else counter_get c "valid_items"
  | (s', (snaps, Raise e)) => True
  end.
Proof.
  destruct (run limit pct validate_only f s) as [s' [snaps [res|e]]] eqn:Erun;
    [|done].
  destruct (run_cases _ _ _ _ _ _ _ _ Erun)
    as [(e & _ & _ & [=])|(s1 & start & md & oc & Estart & Erows & Ho)].
  destruct oc as [c|e]; [|done]. injection Ho as ->.
  exists s1, start, md. split; [done|]. cbn.
  destruct (run_rows_tally _ _ _ _ _ _ _ _ Erows) as [_ Hc].
  destruct (Hc c eq_refl) as (Hf & Hv & Hi & _).
  destruct (initial_count_balanced validate_only md (job s1))
    as (_ & Hf0 & Hv0 & Hi0).
  rewrite Hf0 in Hf. rewrite Hv0 in Hv. rewrite Hi0 in Hi.
  split_and!; try done.
  rewrite (run_rows_snapshots _ _ _ _ _ _ _ _ Erows), Hv. cbn.
  unfold reaches_commit. destruct validate_only; cbn.
  - generalize (row_stream md limit pct s1). clear.
    intros rs. induction rs as [|r0 rs IH]; [done|exact IH].
  - done.
Qed.

(** X13: a run in validate-only mode that returns reports
    "validate_success" exactly when no well-formed row of its stream
    fails validation.  The markers of the invalid rows are logged but do
    not count: a stream that holds only markers is a success. *)
Theorem validate_success_ignores_markers (limit pct : option nat)
        (f : option string) (s : State) :
  match run limit pct true f s with
  | (s', (snaps, Return res)) =>
      ∃ s1 start md,
        start_run f s = (s1, Return (start, md))
        ∧ (type res = "validate_success"
           ↔ ∀ r, WellFormed r ∈ row_stream md limit pct s1
                  → invalid_row true (job s1) (WellFormed r) = false)
        ∧ ((∀ r, r ∈ row_stream md limit pct s1 → ∃ inv, r = Malformed inv)
           → type res = "validate_success")
  | (s', (snaps, Raise e)) => True
  end.
Proof.
  destruct (run limit pct true f s) as [s' [snaps [res|e]]] eqn:Erun; [|done].
  destruct (run_cases _ _ _ _ _ _ _ _ Erun)
    as [(e & _ & _ & [=])|(s1 & start & md & oc & Estart & Erows & Ho)].
  destruct oc as [c|e]; [|done]. injection Ho as ->.
  exists s1, start, md. split; [done|]. cbn.
  destruct (run_rows_tally _ _ _ _ _ _ _ _ Erows) as [_ Hc].
  destruct (Hc c eq_refl) as (_ & _ & Hi & _).
  destruct (initial_count_balanced true md (job s1)) as (_ & _ & _ & Hi0).
  rewrite Hi0 in Hi. cbn in Hi.
  assert (Hiff : counter_get c "invalid_items" = 0
                 ↔ ∀ r, WellFormed r ∈ row_stream md limit pct s1
                        → invalid_row true (job s1) (WellFormed r) = false).
  { rewrite Hi. generalize (row_stream md limit pct s1). intros rs.
    induction rs as [|r0 rs IH]; cbn [List.filter].
    - split; [|done]. by intros _ r ?%elem_of_nil.
    - destruct (invalid_row true (job s1) r0) eqn:Hr0; cbn [length].
      + split; [done|]. intros Hall. destruct r0 as [r0|inv]; [|done].
        rewrite Hall in Hr0; [done|left].
      + rewrite IH. split.
        * intros Hall r [<-|Hin]%elem_of_cons; [done|by apply Hall].
        * intros Hall r Hin. apply Hall. by right. }
  unfold result_type.
  assert (Htype : (if Nat.eqb (counter_get c "invalid_items") 0
                   then "validate_success" else "validate_failed")
                  = "validate_success"
                  ↔ counter_get c "invalid_items" = 0).
  { destruct (Nat.eqb_spec (counter_get c "invalid_items") 0); split; done. }
  split.
  - by rewrite Htype, Hiff.
  - intros Hall. apply Htype, Hiff. intros r Hin.
    destruct (Hall _ Hin) as [inv [=]].
Qed.


(** *** The commit of a row that the repository takes *)

Lemma completed_row_accepted (i : Item.t) (lr stamp : string)
      (st : ImportedItemStatus) :
  ItemLog.accepted completed_fieldnames "id"
    (ledger_row (Some i) lr stamp "status" (status_value st)).
Proof.
  split.
  - unfold ledger_row, completed_fieldnames.
    rewrite !dom_insert_L, dom_empty_L. set_solver.
  - unfold ledger_row. rewrite lookup_insert_eq. by eexists.
Qed.

Lemma completed_row_written (i : Item.t) (lr stamp : string)
      (st : ImportedItemStatus) :
  ItemLog.written completed_fieldnames
    (ledger_row (Some i) lr stamp "status" (status_value st))
  = completed_record i lr stamp st.
Proof.
  unfold ItemLog.written, ledger_row, completed_fieldnames, completed_record.
  simpl. by simplify_map_eq.
Qed.

(** [complete] on a ledger with the fields of the completed items. *)
Lemma complete_spec (i : Item.t) (lr : string) (st : ImportedItemStatus)
      (s : State) :
  ItemLog.fieldnames (completed_log (job s)) = completed_fieldnames →
  ItemLog.keyfield (completed_log (job s)) = "id" →
  ∃ s' l',
    complete i lr st s = (s', Return ())
    ∧ ItemLog.append (completed_log (job s))
        (ledger_row (Some i) lr (isoformat (clock (ticks s))) "status"
                    (status_value st)) (fs s)
      = (fs s', Return l')
    ∧ job s' = set_completed_log l' (job s)
    ∧ repo s' = repo s ∧ run_dir s' = run_dir s
    ∧ _invalid_items s' = _invalid_items s
    ∧ _failed_items s' = _failed_items s.
Proof.
  intros Hf Hk. unfold complete, bindM. rewrite datetimestamp_spec.
  unfold append_to. cbn [fs job set_ticks].
  rewrite append_accepted by (rewrite Hf, Hk; apply completed_row_accepted).
  eexists _, _. split; [reflexivity|]. cbn. split_and!; done.
Qed.

(** X14: a valid row whose commit returns a status is recorded as
    completed.  The body of the loop counts it by its status, appends
    its record, with the value of the status, to the file of the
    completed ledger and changes no other file, holds its identifier in
    the ledger afterwards, leaves the ledgers of the dropped items as
    they are, and yields its snapshot. *)
Theorem committed_row_is_completed (s : State) (r : Row.t) (start : Z)
        (count : Counter) (v : ValidationResultsDict) (i : Item.t)
        (h : Repo) (st : ImportedItemStatus) :
  let self := ImportRow_new (job s) r false in
  validate_item self = Return v → ok v = true →
  update_repo self (repo s) = (i, (h, Return st)) →
  ItemLog.fieldnames (completed_log (job s)) = completed_fieldnames →
  ItemLog.keyfield (completed_log (job s)) = "id" →
  let count' :=
    count_status
      (counter_add (counter_add count "files" (length (Row.filenames r)))
                   "valid_items" 1) st in
  let path := ItemLog.filename (completed_log (job s)) in
  ∃ s' snap before,
    process_row false start count (WellFormed r) s
    = (s', Return (count', Some snap))
    ∧ snapshot_count snap = count'
    ∧ fs s' !! path
      = Some (before
              ++ [completed_record i (Row.line_reference r)
                    (isoformat (clock (ticks s))) st])
    ∧ (∀ p, p ≠ path → fs s' !! p = fs s !! p)
    ∧ ItemLog.contains (completed_log (job s'))
        (Some (getattr_identifier (Some i) (Row.line_reference r))) = true
    ∧ repo s' = h
    ∧ _invalid_items s' = _invalid_items s
    ∧ _failed_items s' = _failed_items s.
Proof.
  intros self Hvi Hok Hupd Hf Hk count' path.
  destruct (complete_spec i (Row.line_reference r) st (set_repo h s) Hf Hk)
    as (s1 & l' & Hcomplete & Happ & Hjob & Hrepo & _ & Hinv & Hfailed).
  cbn [fs job ticks set_repo] in Happ.
  assert (Hproc : process_row false start count (WellFormed r) s
                  = yield_status start count' s1).
  { unfold process_row. fold self. rewrite Hvi, Hok.
    unfold try_import. rewrite Hupd. unfold bindM.
    cbn [row self ImportRow_new]. rewrite Hcomplete. done. }
  rewrite yield_status_spec in Hproc.
  pose proof (append_other_files (completed_log (job s))
                (ledger_row (Some i) (Row.line_reference r)
                   (isoformat (clock (ticks s))) "status" (status_value st))
                (fs s)) as Hother.
  rewrite Happ in Hother. cbn [fst] in Hother.
  destruct (append_returns _ _ _ _ _ Happ)
    as (_ & _ & _ & _ & Hkeys & Hfs).
  eexists _, _, _. split; [exact Hproc|]. cbn.
  split; [done|]. split.
  { rewrite Hfs, write_record_lookup, Hf, completed_row_written. done. }
  split; [exact Hother|]. split.
  { rewrite Hjob. cbn. unfold ItemLog.contains. rewrite Hkeys, Hk.
    apply bool_decide_eq_true_2. unfold ItemLog.row_key, ledger_row.
    rewrite lookup_insert_eq. set_solver. }
  split_and!; done.
Qed.

(** *** Runs that stop at their start *)

(** X15: a run over metadata with a FILES column stops at its start
    when the job has no binaries location.  It raises the RuntimeError
    that asks for the location, with no file written, no call to the
    repository and nothing yielded; the directory of the run is set and
    a given import file is stored by then. *)
Theorem missing_binaries_location_stops_the_run (limit pct : option nat)
        (validate_only : bool) (f : option string) (s : State)
        (md : MetadataSpreadsheet) :
  run_dir s = None →
  get_metadata (match f with Some x => Some x | None => source_csv s end)
  = Return md →
  has_binaries md = true →
  binaries_location (config (job s)) = None →
  ∃ s',
    run limit pct validate_only f s
    = (s', ([], Raise (RuntimeError
         "Must specify --binaries-location if the metadata has a FILES column")))
    ∧ fs s' = fs s ∧ repo s' = repo s ∧ job s' = job s
    ∧ is_Some (run_dir s')
    ∧ source_csv s'
      = match f with Some x => Some x | None => source_csv s end.
Proof.
  intros Hd Hmd Hb Hloc.
  destruct (start_run f s) as [s1 o] eqn:Estart.
  destruct (start_run_fresh _ _ _ _ Hd Estart)
    as (Hfs & Hrepo & Hjob & _ & _ & Hdir & Hsrc & _ & _ & Ho).
  assert (o = Raise (RuntimeError
            "Must specify --binaries-location if the metadata has a FILES column"))
    as ->.
  { revert Estart Ho. unfold start_run. rewrite Hd.
    unfold bindM. rewrite datetimestamp_spec. unfold now.
    cbn [ticks set_ticks set_run_dir job dir].
    destruct f as [x|]; cbn; rewrite Hmd, Hb; cbn;
      rewrite bool_decide_eq_true_2 by done; by intros [= <- <-]. }
  exists s1. unfold run. rewrite Estart.
  split_and!; try done; by eexists.
Qed.

(** X16: the files of a row need a binaries location.  Without one in
    the configuration of the job, the check of an empty list of names
    passes, and a row that names a file makes the body of the loop raise
    an AttributeError, which is not a job error: nothing is counted or
    logged for the row. *)
Theorem files_need_a_binaries_location (validate_only : bool) (start : Z)
        (count : Counter) (r : Row.t) (s : State)
        (results : ValidationResultsDict) :
  binaries_location (config (job s)) = None →
  validate (get_object r (negb validate_only)) = Return results →
  let self := ImportRow_new (job s) r validate_only in
  validate_files self [] = Return (ValidationSuccess None "All files present")
  ∧ (∀ name names,
       validate_files self (name :: names)
       = Raise (AttributeError
                  "'NoneType' object has no attribute 'startswith'"))
  ∧ (Row.filenames r ≠ [] ∨ Row.item_filenames r ≠ [] →
     process_row validate_only start count (WellFormed r) s
     = (s, Raise (AttributeError
                    "'NoneType' object has no attribute 'startswith'"))).
Proof.
  intros Hloc Hv self.
  assert (Hcons : ∀ name names,
            validate_files self (name :: names)
            = Raise (AttributeError
                       "'NoneType' object has no attribute 'startswith'")).
  { intros name names. unfold validate_files. cbn [missing_files].
    unfold get_configured_source. cbn [row_job self ImportRow_new].
    by rewrite Hloc. }
  split; [done|]. split; [exact Hcons|].
  intros Hfiles. unfold process_row. fold self.
  unfold validate_item. cbn [item self ImportRow_new]. rewrite Hv.
  cbn [row self ImportRow_new].
  destruct (Row.filenames r) as [|n ns] eqn:Hn.
  - destruct (Row.item_filenames r) as [|m ms] eqn:Hm.
    + by destruct Hfiles.
    + fold self. rewrite (Hcons m ms).
      change (validate_files self []) with
        (Return (ValidationSuccess None "All files present")
           : outcome ValidationResult).
      done.
  - fold self. by rewrite (Hcons n ns).
Qed.


(** *** The completed ledger and its file *)

Lemma string_length_append (a b : string) :
  String.length (a +:+ b) = String.length a + String.length b.
Proof.
  induction a as [|c a IH]; [done|].
  change (String c a +:+ b) with (String c (a +:+ b)). simpl. by rewrite IH.
Qed.

(** The ledgers of a run are not the completed ledger of the job. *)
Lemma ledger_paths_differ (d stamp name : string) :
  (17 < String.length name)%nat →
  path_child (path_child d stamp) name ≠ path_child d "completed.log.csv".
Proof.
  intros Hlen Heq. apply (f_equal String.length) in Heq.
  unfold path_child in Heq. rewrite !string_length_append in Heq.
  simpl in Heq. lia.
Qed.

Lemma kept_frame (l : ItemLog.t) (fs fs' : ItemLog.filesystem) :
  fs' !! ItemLog.filename l = fs !! ItemLog.filename l →
  ItemLog.kept l fs → ItemLog.kept l fs'.
Proof. unfold ItemLog.kept. intros ->. done. Qed.









(** X18: the directory of a run.  A run that starts takes the digits
    of the time of its start for its timestamp and the entry of that
    name in the directory of the job for its directory, and keeps both
    to its end; the timestamp holds digits only. *)
Theorem run_directory_is_named_by_the_start (limit pct : option nat)
        (validate_only : bool) (f : option string) (s : State) :
  run_dir s = None →
  let s' := (run limit pct validate_only f s).1 in
  let stamp := digits_of (isoformat (clock (ticks s))) in
  timestamp s' = Some stamp
  ∧ run_dir s' = Some (path_child (dir (job s)) stamp)
  ∧ dir (job s') = dir (job s)
  ∧ digits_of stamp = stamp
  ∧ Forall (fun c => is_digit c = true) (String.list_ascii_of_string stamp).
Proof.
  intros Hd s' stamp.
  assert (Hdigits : ∀ t, digits_of (digits_of t) = digits_of t
                         ∧ Forall (fun c => is_digit c = true)
                                  (String.list_ascii_of_string (digits_of t))).
  { intros t. induction t as [|c t [IH1 IH2]]; [by split; [|constructor]|].
    simpl. destruct (is_digit c) eqn:Hc; [|done]. simpl. rewrite Hc, IH1.
    split; [done|by constructor]. }
  destruct (Hdigits (isoformat (clock (ticks s)))) as [Hidem Hall].
  subst s' stamp.
  destruct (run limit pct validate_only f s) as [s2 [snaps o]] eqn:Erun.
  cbn.
  destruct (run_cases _ _ _ _ _ _ _ _ Erun)
    as [(e & Estart & _)|(s1 & start & md & oc & Estart & Erows & _)];
    destruct (start_run_fresh _ _ _ _ Hd Estart)
      as (_ & _ & Hjob & _ & Hts & Hdir & _).
  - split_and!; try done. by rewrite Hjob.
  - destruct (run_rows_same_run _ _ _ _ _ _ _ _ Erows) as [Hsame _].
    destruct Hsame as (Hd' & Hts' & _ & _ & Hjd & _).
    split_and!; try done; congruence.
Qed.

End WithCollaborators.
End RunInvariants.

Module JobFacts.
Import Imports ResolverFacts.

Lemma append_empty_r (s : string) : s +:+ "" = s.
Proof.
  induction s as [|c s IH]; [done|].
  change (String c s +:+ "") with (String c (s +:+ "")). by rewrite IH.
Qed.

Lemma rev_app_append_r (s acc t : string) :
  String.rev_app s acc +:+ t = String.rev_app s (acc +:+ t).
Proof.
  revert acc. induction s as [|c s IH]; intros acc; [done|].
  simpl. by rewrite IH.
Qed.

Lemma split_comma_go_nonempty (cur s : string) : split_comma_go cur s ≠ [].
Proof.
  revert cur. induction s as [|c s IH]; intros cur; simpl; [done|].
  case_bool_decide; [done|apply IH].
Qed.

Lemma join_cons (sep x : string) (l : list string) :
  l ≠ [] → join sep (x :: l) = x +:+ sep +:+ join sep l.
Proof. by destruct l. Qed.

Lemma join_split_comma_go (cur s : string) :
  join "," (split_comma_go cur s) = String.rev cur +:+ s.
Proof.
  revert cur. induction s as [|c s IH]; intros cur; simpl.
  - unfold join. simpl. by rewrite append_empty_r.
  - case_bool_decide as Hc.
    + rewrite join_cons by apply split_comma_go_nonempty.
      rewrite IH. by subst c.
    + rewrite IH. unfold String.rev. simpl.
      rewrite !rev_app_append_r. reflexivity.
Qed.

(** X19: the MIME types of the text extraction.  Without the setting
    of the configuration the list is empty; with it, the list is never
    empty and joining it by commas gives the setting back: the empty
    setting gives one empty type, not an empty list. *)
Theorem extract_text_types_round_trip (j : ImportJob) :
  match extract_text_types (config j) with
  | None => job_extract_text_types j = []
  | Some t =>
      job_extract_text_types j ≠ []
      ∧ join "," (job_extract_text_types j) = t
      ∧ (t = "" → job_extract_text_types j = [""])
  end.
Proof.
  unfold job_extract_text_types.
  destruct (extract_text_types (config j)) as [t|]; [|done].
  split; [apply split_comma_go_nonempty|]. split.
  - unfold split_comma. by rewrite join_split_comma_go.
  - by intros ->.
Qed.

(** X20: a file name that starts with "/" leaves the base location.
    For a base location on SFTP and for a local one, the source of such
    a name is at the name itself, whatever the base location; the source
    of any other name is at a location that starts with the base
    location. *)
Theorem absolute_name_leaves_the_base_location (j : ImportJob)
        (name : string) :
  (∀ rest, get_source j ("sftp:" +:+ rest) ("/" +:+ name)
           = RemoteFileSource ("/" +:+ name)
                              {| key_filename := ssh_private_key j |})
  ∧ (∀ base,
       if startswith base "zip:" || startswith base "sftp:"
          || startswith base "http:" || startswith base "https:"
          || startswith base "zip+sftp:"
       then True
       else get_source j base ("/" +:+ name)
            = LocalFileSource ("/" +:+ name))
  ∧ (∀ base, startswith name "/" = false →
             startswith (path_join base name) base = true).
Proof.
  assert (Habs : ∀ base, path_join base ("/" +:+ name) = "/" +:+ name).
  { intros base. unfold path_join. by rewrite startswith_append. }
  split_and!.
  - intros rest. unfold get_source. rewrite ?startswith_append. cbn.
    by rewrite Habs.
  - intros base. unfold get_source.
    destruct (startswith base "zip:"); [done|].
    destruct (startswith base "sftp:"); [done|].
    destruct (startswith base "http:"); [done|].
    destruct (startswith base "https:"); [done|].
    destruct (startswith base "zip+sftp:"); [done|]. cbn.
    by rewrite Habs.
  - intros base Hrel. unfold path_join. rewrite Hrel.
    destruct (bool_decide (base = "") || endswith base "/");
      apply startswith_append.
Qed.

End JobFacts.


Module JobDirFacts.
Import Imports JobDir.

Lemma hex_digit_inj (n m : nat) :
  (n < 16)%nat → (m < 16)%nat → hex_digit n = hex_digit m → n = m.
Proof.
  intros Hn Hm.
  do 16 (destruct n as [|n];
         [do 16 (destruct m as [|m]; [by (done || vm_compute; intros [=])|]);
          lia|]).
  lia.
Qed.

Lemma hex_digit_unreserved (n : nat) :
  (n < 16)%nat → is_unreserved (hex_digit n) = true.
Proof.
  intros Hn. do 16 (destruct n as [|n]; [by vm_compute|]). lia.
Qed.

Lemma nat_of_ascii_lt (c : ascii) : (nat_of_ascii c < 256)%nat.
Proof. apply nat_ascii_bounded. Qed.

Lemma string_append_cons (c : ascii) (a b : string) :
  String c a +:+ b = String c (a +:+ b).
Proof. reflexivity. Qed.

Lemma quote_byte_append (c : ascii) (rest : string) :
  quote_byte c +:+ rest
  = if is_unreserved c then String c rest
    else String ("%"%char : ascii)
           (String (hex_digit (nat_of_ascii c / 16))
              (String (hex_digit (nat_of_ascii c mod 16)) rest)).
Proof. unfold quote_byte. by destruct (is_unreserved c). Qed.

(** The quoting of a byte can be read back from the front of a string. *)
Lemma quote_byte_inj (c c' : ascii) (rest rest' : string) :
  quote_byte c +:+ rest = quote_byte c' +:+ rest' → c = c' ∧ rest = rest'.
Proof.
  assert (Hpct : is_unreserved ("%"%char : ascii) = false) by by vm_compute.
  rewrite !quote_byte_append.
  destruct (is_unreserved c) eqn:Hc, (is_unreserved c') eqn:Hc'; intros Heq.
  - by injection Heq as -> ->.
  - injection Heq as -> _. congruence.
  - injection Heq as <- _. congruence.
  - pose proof (nat_of_ascii_lt c) as Hlt.
    pose proof (nat_of_ascii_lt c') as Hlt'.
    assert (Hq : (nat_of_ascii c / 16 < 16)%nat)
      by (apply Nat.Div0.div_lt_upper_bound; lia).
    assert (Hq' : (nat_of_ascii c' / 16 < 16)%nat)
      by (apply Nat.Div0.div_lt_upper_bound; lia).
    assert (Hm : (nat_of_ascii c mod 16 < 16)%nat)
      by (apply Nat.mod_upper_bound; lia).
    assert (Hm' : (nat_of_ascii c' mod 16 < 16)%nat)
      by (apply Nat.mod_upper_bound; lia).
    pose proof (Nat.div_mod_eq (nat_of_ascii c) 16) as Hn.
    pose proof (Nat.div_mod_eq (nat_of_ascii c') 16) as Hn'.
    remember (nat_of_ascii c / 16) as q.
    remember (nat_of_ascii c' / 16) as q'.
    remember (nat_of_ascii c mod 16) as m.
    remember (nat_of_ascii c' mod 16) as m'.
    injection Heq as H1 H2 Hrest. split; [|done].
    apply hex_digit_inj in H1; [|done..].
    apply hex_digit_inj in H2; [|done..].
    rewrite <- (ascii_nat_embedding c), <- (ascii_nat_embedding c').
    f_equal. lia.
Qed.

Lemma quote_inj (a b : string) : quote a = quote b → a = b.
Proof.
  revert b. induction a as [|c a IH]; intros [|c' b]; simpl.
  - done.
  - rewrite quote_byte_append. by destruct (is_unreserved c').
  - rewrite quote_byte_append. by destruct (is_unreserved c).
  - intros [-> Hrest]%quote_byte_inj. f_equal. by apply IH.
Qed.

Lemma list_ascii_append (a b : string) :
  String.list_ascii_of_string (a +:+ b)
  = String.list_ascii_of_string a ++ String.list_ascii_of_string b.
Proof.
  induction a as [|c a IH]; [done|].
  rewrite string_append_cons. simpl. by rewrite IH.
Qed.

Lemma quote_chars (s : string) :
  Forall (fun c => is_unreserved c = true ∨ c = ("%"%char : ascii))
         (String.list_ascii_of_string (quote s)).
Proof.
  induction s as [|c s IH]; [constructor|].
  simpl. rewrite list_ascii_append. apply Forall_app. split; [|done].
  unfold quote_byte. destruct (is_unreserved c) eqn:Hc; cbn [String.list_ascii_of_string].
  - constructor; [by left|constructor].
  - pose proof (nat_of_ascii_lt c) as Hlt.
    constructor; [by right|].
    constructor; [left; apply hex_digit_unreserved,
                    Nat.Div0.div_lt_upper_bound; lia|].
    constructor; [left; apply hex_digit_unreserved,
                    Nat.mod_upper_bound; lia|constructor].
Qed.

(** X21: the safe id of a job holds no separator.  It is made of the
    unreserved characters and "%" only, and so holds no "/", whatever
    the id.  An id of unreserved characters is its own safe id, and "/"
    is written as "%2F". *)
Theorem safe_id_is_a_path_segment (job_id : string) :
  Forall (fun c => is_unreserved c = true ∨ c = ("%"%char : ascii))
         (String.list_ascii_of_string (safe_id job_id))
  ∧ Forall (fun c => c ≠ ("/"%char : ascii))
           (String.list_ascii_of_string (safe_id job_id))
  ∧ (Forall (fun c => is_unreserved c = true)
            (String.list_ascii_of_string job_id)
     → safe_id job_id = job_id)
  ∧ safe_id "foo/bar" = "foo%2Fbar".
Proof.
  split_and!.
  - apply quote_chars.
  - eapply Forall_impl; [apply quote_chars|]. simpl.
    intros c [Hc | Hc]; [intros ->; by vm_compute in Hc|by rewrite Hc].
  - unfold safe_id. induction job_id as [|c s IH]; [done|].
    simpl. intros [Hc Hs]%Forall_cons. rewrite quote_byte_append, Hc.
    f_equal. by apply IH.
  - by vm_compute.
Qed.

(** X22: jobs with different ids have different directories, and so
    different completed ledgers: the safe id tells the ids apart, since
    it quotes "%" as well.  (The ids "" and ".", whose safe ids pathlib
    drops from the path, are left out.) *)
Theorem job_directories_are_distinct (jobs_dir a b : string) :
  kept_segment (safe_id a) → kept_segment (safe_id b) →
  a ≠ b →
  safe_id a ≠ safe_id b
  ∧ path_child jobs_dir (safe_id a) ≠ path_child jobs_dir (safe_id b)
  ∧ ∀ fs key key' j j',
      ImportJob_init fs a jobs_dir key = Return j →
      ImportJob_init fs b jobs_dir key' = Return j' →
      dir j ≠ dir j'
      ∧ ItemLog.filename (completed_log j)
        ≠ ItemLog.filename (completed_log j').
Proof.
  intros _ _ Hne.
  assert (Hsafe : safe_id a ≠ safe_id b).
  { intros Heq. by apply Hne, quote_inj. }
  assert (Hdir : path_child jobs_dir (safe_id a)
                 ≠ path_child jobs_dir (safe_id b)).
  { unfold path_child. intros Heq.
    apply (inj (String.append jobs_dir)) in Heq.
    rewrite !string_append_cons in Heq. injection Heq as Heq.
    by apply Hsafe. }
  split; [done|]. split; [done|].
  intros fs key key' j j' Hj Hj'.
  unfold ImportJob_init, ImportJob_new in Hj, Hj'.
  destruct (ItemLog.new fs (path_child (path_child jobs_dir (safe_id a)) _) _ _ _)
    as [l|e] eqn:El; [|done].
  destruct (ItemLog.new fs (path_child (path_child jobs_dir (safe_id b)) _) _ _ _)
    as [l'|e] eqn:El'; [|done].
  injection Hj as <-. injection Hj' as <-. cbn.
  split; [done|].
  apply RunInvariants.new_fields in El as (-> & _).
  apply RunInvariants.new_fields in El' as (-> & _).
  unfold path_child at 1 3. intros Heq. apply Hdir.
  revert Heq. generalize (path_child jobs_dir (safe_id a)).
  generalize (path_child jobs_dir (safe_id b)).
  intros y x Heq.
  assert (Hrev : ∀ u v w, u +:+ w = v +:+ w → u = v).
  { clear. intros u v w Huv.
    assert (Hlen : String.length u = String.length v).
    { apply (f_equal String.length) in Huv.
      rewrite !RunInvariants.string_length_append in Huv. lia. }
    revert v Huv Hlen. induction u as [|c u IH]; intros [|c' v] Huv Hlen;
      try done.
    rewrite !string_append_cons in Huv. injection Huv as -> Huv.
    f_equal. apply IH; [done|]. by injection Hlen. }
  by apply Hrev in Heq.
Qed.

End JobDirFacts.

Module CliFacts.
Import Cli.

(** X23: the argument of [--percent] is refused only when it is zero or
    negative.  Because of the precedence of [not], the test of
    [percentile] lets every integer from 1 on through, 100 and more
    included, although its message asks for 1-99. *)
Theorem percentile_accepts_every_positive (int : string → outcome Z)
        (n : string) :
  match int n with
  | Return p =>
      (percentile int n = Parsed p ↔ (1 ≤ p)%Z)
      ∧ (percentile int n = ArgumentTypeError "Percent param must be 1-99"
         ↔ (p ≤ 0)%Z)
      ∧ ((100 ≤ p)%Z → percentile int n = Parsed p)
  | Raise e => percentile int n = Uncaught e
  end.
Proof.
  unfold percentile. destruct (int n) as [p|e]; [|done].
  destruct (Z.ltb_spec 0 p) as [Hpos|Hneg]; cbn.
  - split_and!; [split; [lia|done]|split; [done|lia]|done].
  - destruct (Z.ltb_spec p 100) as [Hlt|Hge]; [|lia].
    split_and!; [split; [done|lia]|split; [lia|done]|lia].
Qed.

End CliFacts.

Module Accounting.
Import Imports ItemLogFacts LedgerFacts RunFacts Tally RunInvariants.

Section WithCollaborators.
Context `{Collaborators}.

Lemma entries_frame (fs fs' : ItemLog.filesystem) (p : string) :
  fs' !! p = fs !! p → entries fs' p = entries fs p.
Proof. unfold entries. by intros ->. Qed.

(** An append that returns adds one entry to the file of a ledger that
    writes its header. *)
Lemma append_entry (l l' : ItemLog.t) (r : ItemLog.row)
      (fs fs' : ItemLog.filesystem) :
  ItemLog.append l r fs = (fs', Return l') →
  ItemLog.write_header l = true →
  fs !! ItemLog.filename l ≠ Some [] →
  entries fs' (ItemLog.filename l) = S (entries fs (ItemLog.filename l))
  ∧ fs' !! ItemLog.filename l ≠ Some []
  ∧ fs' !! ItemLog.filename l ≠ None
  ∧ (∀ p, p ≠ ItemLog.filename l → fs' !! p = fs !! p)
  ∧ ItemLog.filename l' = ItemLog.filename l
  ∧ ItemLog.fieldnames l' = ItemLog.fieldnames l
  ∧ ItemLog.keyfield l' = ItemLog.keyfield l
  ∧ ItemLog.write_header l' = true.
Proof.
  intros Happ Hh Hne.
  pose proof (append_other_files l r fs) as Hother.
  rewrite Happ in Hother. cbn [fst] in Hother.
  destruct (append_returns _ _ _ _ _ Happ) as (Hfn & Hf & Hk & Hh' & _ & Hfs).
  assert (Hfile : fs' !! ItemLog.filename l
                  = Some (default [ItemLog.fieldnames l]
                                  (fs !! ItemLog.filename l)
                          ++ [ItemLog.written (ItemLog.fieldnames l) r])).
  { by rewrite Hfs, write_record_lookup, writer_lookup, Hh. }
  split_and!; try done; try congruence.
  - unfold entries. rewrite Hfile.
    destruct (fs !! ItemLog.filename l) as [[|x xs]|]; cbn; [done| |done].
    rewrite length_app. cbn. lia.
  - rewrite Hfile.
    destruct (fs !! ItemLog.filename l) as [[|x xs]|]; cbn; done.
Qed.

Lemma path_child_inj (d a b : string) :
  path_child d a = path_child d b → a = b.
Proof.
  unfold path_child. intros Heq.
  apply (inj (String.append d)) in Heq.
  by apply (inj (String.append "/")) in Heq.
Qed.

(** The three ledgers of a run are three files. *)
Lemma ledger_paths (s : State) :
  in_loop s →
  ∃ d,
    run_dir s = Some d
    ∧ failed_ledger_path s = path_child d "dropped-failed.log.csv"
    ∧ invalid_ledger_path s = path_child d "dropped-invalid.log.csv"
    ∧ ItemLog.filename (completed_log (job s)) ≠ failed_ledger_path s
    ∧ ItemLog.filename (completed_log (job s)) ≠ invalid_ledger_path s
    ∧ failed_ledger_path s ≠ invalid_ledger_path s.
Proof.
  intros ((Hfn & _) & (stamp & Hd) & _).
  exists (path_child (dir (job s)) stamp).
  unfold failed_ledger_path, invalid_ledger_path. rewrite Hd, Hfn. cbn.
  split_and!; try done.
  - apply not_eq_sym, ledger_paths_differ. simpl. lia.
  - apply not_eq_sym, ledger_paths_differ. simpl. lia.
  - by intros ?%path_child_inj.
Qed.

Lemma tidy_frame (log : option ItemLog.t) (name : string) (s s' : State) :
  run_dir s' = run_dir s →
  (∀ d, run_dir s = Some d →
        fs s' !! path_child d name = fs s !! path_child d name) →
  tidy log name s → tidy log name s'.
Proof.
  intros Hdir Hfs [(d & Hd & Hready) Hfile]. split.
  - exists d. rewrite Hdir. split; [done|].
    destruct log as [l|]; [done|]. by rewrite Hfs.
  - destruct log as [l|]; [|done].
    destruct Hready as (Hfn & _). rewrite Hfn in *.
    by rewrite Hfs.
Qed.

(** A step that leaves the files, the job, the directory and the ledgers
    of a run as they are stays in the loop and logs nothing. *)
Lemma in_loop_frame (s s' : State) :
  fs s' = fs s → job s' = job s → run_dir s' = run_dir s →
  _invalid_items s' = _invalid_items s →
  _failed_items s' = _failed_items s →
  in_loop s →
  in_loop s'
  ∧ completed_entries s' = completed_entries s
  ∧ failed_entries s' = failed_entries s
  ∧ invalid_entries s' = invalid_entries s.
Proof.
  intros Hfs Hjob Hdir Hinv Hfailed (Hledger & Hrun & Hi & Hf). split.
  - unfold in_loop, ledger_in_place. rewrite Hjob, Hfs, Hdir, Hinv, Hfailed.
    split; [done|]. split; [done|]. split.
    + eapply tidy_frame; [done| |exact Hi]. intros d _. by rewrite Hfs.
    + eapply tidy_frame; [done| |exact Hf]. intros d _. by rewrite Hfs.
  - unfold completed_entries, failed_entries, invalid_entries,
      failed_ledger_path, invalid_ledger_path.
    by rewrite Hjob, Hfs, Hdir.
Qed.

(** A step that adds one entry to one of the three ledgers and leaves
    the other files as they are. *)
Lemma entries_step (s s' : State) (path : string) :
  in_loop s →
  ItemLog.filename (completed_log (job s'))
  = ItemLog.filename (completed_log (job s)) →
  run_dir s' = run_dir s →
  entries (fs s') path = S (entries (fs s) path) →
  (∀ p, p ≠ path → fs s' !! p = fs s !! p) →
  (path = ItemLog.filename (completed_log (job s)) →
   completed_entries s' = S (completed_entries s)
   ∧ failed_entries s' = failed_entries s
   ∧ invalid_entries s' = invalid_entries s)
  ∧ (path = failed_ledger_path s →
     completed_entries s' = completed_entries s
     ∧ failed_entries s' = S (failed_entries s)
     ∧ invalid_entries s' = invalid_entries s)
  ∧ (path = invalid_ledger_path s →
     completed_entries s' = completed_entries s
     ∧ failed_entries s' = failed_entries s
     ∧ invalid_entries s' = S (invalid_entries s)).
Proof.
  intros Hloop Hfn Hdir Hentry Hother.
  destruct (ledger_paths s Hloop) as (d & Hd & Hfp & Hip & Hcf & Hci & Hfi).
  unfold completed_entries, failed_entries, invalid_entries.
  assert (failed_ledger_path s' = failed_ledger_path s) as ->
    by (unfold failed_ledger_path; by rewrite Hdir).
  assert (invalid_ledger_path s' = invalid_ledger_path s) as ->
    by (unfold invalid_ledger_path; by rewrite Hdir).
  rewrite Hfn.
  split_and!; intros ->; rewrite Hentry; (split; [|split]); try done;
    apply entries_frame, Hother; done || by apply not_eq_sym.
Qed.

(** The append of [drop_invalid] and of [drop_failed]. *)
Lemma append_to_dropped (l : ItemLog.t) (i : option Item.t)
      (lr stamp reason : string) (s0 : State) :
  ItemLog.fieldnames l = DROPPED_FAILED_FIELDNAMES →
  ItemLog.keyfield l = "id" →
  ItemLog.write_header l = true →
  fs s0 !! ItemLog.filename l ≠ Some [] →
  ∃ fs' l',
    append_to l (ledger_row i lr stamp "reason" reason) s0
    = (set_fs fs' s0, Return l')
    ∧ entries fs' (ItemLog.filename l)
      = S (entries (fs s0) (ItemLog.filename l))
    ∧ fs' !! ItemLog.filename l ≠ Some []
    ∧ (∀ p, p ≠ ItemLog.filename l → fs' !! p = fs s0 !! p)
    ∧ ItemLog.filename l' = ItemLog.filename l
    ∧ ItemLog.fieldnames l' = ItemLog.fieldnames l
    ∧ ItemLog.keyfield l' = ItemLog.keyfield l
    ∧ ItemLog.write_header l' = true.
Proof.
  intros Hf Hk Hh Hne. unfold append_to.
  destruct (ItemLog.append l (ledger_row i lr stamp "reason" reason) (fs s0))
    as [fs' o] eqn:Happ.
  assert (Hacc := Happ). rewrite append_accepted in Hacc
    by (rewrite Hf, Hk; apply dropped_row_accepted).
  destruct o as [l'|e]; [|done].
  destruct (append_entry _ _ _ _ _ Happ Hh Hne)
    as (He & Hne' & _ & Hother & Hfn' & Hf' & Hk' & Hh').
  exists fs', l'. split_and!; done.
Qed.

(** [drop_invalid] in the loop logs one record, to the invalid ledger. *)
Lemma drop_invalid_entry (i : option Item.t) (lr reason : string)
      (s : State) :
  in_loop s →
  ∃ s', drop_invalid i lr reason s = (s', Return ())
        ∧ in_loop s'
        ∧ completed_entries s' = completed_entries s
        ∧ failed_entries s' = failed_entries s
        ∧ invalid_entries s' = S (invalid_entries s).
Proof.
  intros Hloop.
  destruct (ledger_paths s Hloop) as (d & Hd & Hfp & Hip & Hcf & Hci & Hfi).
  assert (Hloop' := Hloop).
  destruct Hloop' as (Hledger & Hrun & [(d' & Hd' & Hready) Hfile] & Hfailed).
  assert (d' = d) as -> by congruence.
  assert (Hstep : ∀ l s0,
    ItemLog.filename l = path_child d "dropped-invalid.log.csv" →
    ItemLog.fieldnames l = DROPPED_FAILED_FIELDNAMES →
    ItemLog.keyfield l = "id" → ItemLog.write_header l = true →
    fs s !! ItemLog.filename l ≠ Some [] →
    fs s0 = fs s → job s0 = job s → run_dir s0 = run_dir s →
    _failed_items s0 = _failed_items s →
    ∃ s',
      bindM (datetimestamp false) (fun stamp =>
        bindM (append_to l (ledger_row i lr stamp "reason" reason))
              (fun log' s => (set_invalid_items log' s, Return ()))) s0
      = (s', Return ())
      ∧ in_loop s'
      ∧ completed_entries s' = completed_entries s
      ∧ failed_entries s' = failed_entries s
      ∧ invalid_entries s' = S (invalid_entries s)).
  { intros l s0 Hfn Hf Hk Hh Hne Hfs0 Hjob0 Hdir0 Hfailed0.
    unfold bindM. rewrite datetimestamp_spec.
    destruct (append_to_dropped l i lr (isoformat (clock (ticks s0))) reason
                (set_ticks (S (ticks s0)) s0) Hf Hk Hh)
      as (fs' & l' & Happ & He & Hne' & Hother & Hfn' & Hf' & Hk' & Hh').
    { cbn. by rewrite Hfs0. }
    rewrite Happ. eexists. split; [reflexivity|].
    cbn [fs set_ticks] in He, Hother. rewrite Hfs0, Hfn in *.
    split.
    - destruct Hledger as (Hcfn & Hcf' & Hck & Hkept).
      split; [|split; [|split]].
      + unfold ledger_in_place. cbn. rewrite Hjob0.
        split; [done|]. split; [done|]. split; [done|].
        eapply kept_frame; [|exact Hkept].
        apply Hother. by rewrite <- Hip.
      + cbn. by rewrite Hjob0, Hdir0.
      + split.
        * exists d. cbn. rewrite Hdir0. split; [done|].
          split; [congruence|]. split; congruence.
        * cbn. split; [done|]. by rewrite Hfn'.
      + change (tidy (_failed_items s0) "dropped-failed.log.csv"
                  (set_invalid_items l'
                     (set_fs fs' (set_ticks (S (ticks s0)) s0)))).
        rewrite Hfailed0.
        eapply tidy_frame; [| |exact Hfailed]; cbn; [by rewrite Hdir0|].
        intros d0 Hd0. assert (d0 = d) as -> by congruence.
        apply Hother. rewrite <- Hfp, <- Hip. done.
    - eapply (entries_step s _ (invalid_ledger_path s)); cbn;
        rewrite ?Hjob0, ?Hdir0, ?Hip; done. }
  unfold drop_invalid, bindM at 1, invalid_items. rewrite Hd.
  destruct (_invalid_items s) as [l|] eqn:El.
  - destruct Hready as (Hfn & Hf & Hk). destruct Hfile as [Hh Hne].
    by apply (Hstep l s).
  - rewrite new_absent by done.
    apply (Hstep (ItemLog.mk (path_child d "dropped-invalid.log.csv")
                    DROPPED_INVALID_FIELDNAMES "id" true ∅)
                 (set_invalid_items _ s)); try done.
    cbn. by rewrite Hready.
Qed.

(** [drop_failed] in the loop logs one record, to the failed ledger. *)
Lemma drop_failed_entry (i : option Item.t) (lr reason : string)
      (s : State) :
  in_loop s →
  ∃ s', drop_failed i lr reason s = (s', Return ())
        ∧ in_loop s'
        ∧ completed_entries s' = completed_entries s
        ∧ failed_entries s' = S (failed_entries s)
        ∧ invalid_entries s' = invalid_entries s.
Proof.
  intros Hloop.
  destruct (ledger_paths s Hloop) as (d & Hd & Hfp & Hip & Hcf & Hci & Hfi).
  assert (Hloop' := Hloop).
  destruct Hloop' as (Hledger & Hrun & Hinvalid & [(d' & Hd' & Hready) Hfile]).
  assert (d' = d) as -> by congruence.
  assert (Hstep : ∀ l s0,
    ItemLog.filename l = path_child d "dropped-failed.log.csv" →
    ItemLog.fieldnames l = DROPPED_FAILED_FIELDNAMES →
    ItemLog.keyfield l = "id" → ItemLog.write_header l = true →
    fs s !! ItemLog.filename l ≠ Some [] →
    fs s0 = fs s → job s0 = job s → run_dir s0 = run_dir s →
    _invalid_items s0 = _invalid_items s →
    ∃ s',
      bindM (datetimestamp false) (fun stamp =>
        bindM (append_to l (ledger_row i lr stamp "reason" reason))
              (fun log' s => (set_failed_items log' s, Return ()))) s0
      = (s', Return ())
      ∧ in_loop s'
      ∧ completed_entries s' = completed_entries s
      ∧ failed_entries s' = S (failed_entries s)
      ∧ invalid_entries s' = invalid_entries s).
  { intros l s0 Hfn Hf Hk Hh Hne Hfs0 Hjob0 Hdir0 Hinv0.
    unfold bindM. rewrite datetimestamp_spec.
    destruct (append_to_dropped l i lr (isoformat (clock (ticks s0))) reason
                (set_ticks (S (ticks s0)) s0) Hf Hk Hh)
      as (fs' & l' & Happ & He & Hne' & Hother & Hfn' & Hf' & Hk' & Hh').
    { cbn. by rewrite Hfs0. }
    rewrite Happ. eexists. split; [reflexivity|].
    cbn [fs set_ticks] in He, Hother. rewrite Hfs0, Hfn in *.
    split.
    - destruct Hledger as (Hcfn & Hcf' & Hck & Hkept).
      split; [|split; [|split]].
      + unfold ledger_in_place. cbn. rewrite Hjob0.
        split; [done|]. split; [done|]. split; [done|].
        eapply kept_frame; [|exact Hkept].
        apply Hother. by rewrite <- Hfp.
      + cbn. by rewrite Hjob0, Hdir0.
      + change (tidy (_invalid_items s0) "dropped-invalid.log.csv"
                  (set_failed_items l'
                     (set_fs fs' (set_ticks (S (ticks s0)) s0)))).
        rewrite Hinv0.
        eapply tidy_frame; [| |exact Hinvalid]; cbn; [by rewrite Hdir0|].
        intros d0 Hd0. assert (d0 = d) as -> by congruence.
        apply Hother. rewrite <- Hfp, <- Hip. by apply not_eq_sym.
      + split.
        * exists d. cbn. rewrite Hdir0. split; [done|].
          split; [congruence|]. split; congruence.
        * cbn. split; [done|]. by rewrite Hfn'.
    - eapply (entries_step s _ (failed_ledger_path s)); cbn;
        rewrite ?Hjob0, ?Hdir0, ?Hfp; done. }
  unfold drop_failed, bindM at 1, failed_items. rewrite Hd.
  destruct (_failed_items s) as [l|] eqn:El.
  - destruct Hready as (Hfn & Hf & Hk). destruct Hfile as [Hh Hne].
    by apply (Hstep l s).
  - rewrite new_absent by done.
    apply (Hstep (ItemLog.mk (path_child d "dropped-failed.log.csv")
                    DROPPED_FAILED_FIELDNAMES "id" true ∅)
                 (set_failed_items _ s)); try done.
    cbn. by rewrite Hready.
Qed.

(** [complete] in the loop logs one record, to the completed ledger. *)
Lemma complete_entry (i : Item.t) (lr : string) (st : ImportedItemStatus)
      (s : State) :
  in_loop s →
  ∃ s', complete i lr st s = (s', Return ())
        ∧ in_loop s'
        ∧ completed_entries s' = S (completed_entries s)
        ∧ failed_entries s' = failed_entries s
        ∧ invalid_entries s' = invalid_entries s.
Proof.
  intros Hloop.
  destruct (ledger_paths s Hloop) as (d & Hd & Hfp & Hip & Hcf & Hci & Hfi).
  assert (Hloop' := Hloop).
  destruct Hloop' as ((Hfn & Hf & Hk & Hkept) & Hrun & Hinvalid & Hfailed).
  destruct (complete_spec i lr st s Hf Hk)
    as (s' & l' & Hcomplete & Happ & Hjob & _ & Hdir & Hinv & Hfl).
  exists s'. split; [done|].
  destruct (kept_append (completed_log (job s))
              (ledger_row (Some i) lr (isoformat (clock (ticks s))) "status"
                          (status_value st)) (fs s))
    as (fs1 & l1 & Happ1 & Hkept1 & Hfn1 & Hf1 & Hk1 & Hh1 & _ & Hother).
  { rewrite Hf, Hk. apply (bool_decide_unpack _). vm_compute. exact I. }
  { done. }
  { rewrite Hf, Hk. apply completed_row_accepted. }
  rewrite Happ in Happ1. injection Happ1 as <- <-.
  assert (Hentry : entries (fs s') (ItemLog.filename (completed_log (job s)))
                   = S (entries (fs s)
                          (ItemLog.filename (completed_log (job s))))).
  { destruct (append_returns _ _ _ _ _ Happ) as (_ & _ & _ & _ & _ & Hfs).
    unfold entries. rewrite Hfs, write_record_lookup, writer_lookup.
    destruct Hkept as [(Hnone & _ & Hh)|(body & Hsome & _)].
    - rewrite Hnone, Hh. done.
    - rewrite Hsome. cbn. rewrite length_app. cbn. lia. }
  split.
  - split; [|split; [|split]].
    + unfold ledger_in_place. rewrite Hjob. cbn. split_and!; congruence.
    + rewrite Hjob. cbn. by rewrite Hdir.
    + rewrite Hinv. eapply tidy_frame; [done| |exact Hinvalid].
      intros d0 Hd0. assert (d0 = d) as -> by congruence.
      apply Hother. rewrite <- Hip. by apply not_eq_sym.
    + rewrite Hfl. eapply tidy_frame; [done| |exact Hfailed].
      intros d0 Hd0. assert (d0 = d) as -> by congruence.
      apply Hother. rewrite <- Hfp. by apply not_eq_sym.
  - eapply (entries_step s s' (ItemLog.filename (completed_log (job s))));
      try done.
    rewrite Hjob. cbn. done.
Qed.

Ltac counters :=
  repeat (rewrite counter_add_eq || rewrite counter_get_add_ne by done).

(** What one row that the body of the loop gets through adds to the
    ledgers of the run, against what it adds to the counters. *)
Lemma process_row_ledgers (validate_only : bool) (start : Z)
      (count c' : Counter) (r : SourceRow) (s s' : State)
      (snap : option Snapshot) :
  process_row validate_only start count r s = (s', Return (c', snap)) →
  in_loop s →
  in_loop s'
  ∧ completed_entries s' + completed_count count
    = completed_entries s + completed_count c'
  ∧ failed_entries s' + counter_get count "items_with_errors"
    = failed_entries s + counter_get c' "items_with_errors"
  ∧ invalid_entries s' + counter_get count "invalid_items"
    = invalid_entries s + counter_get c' "invalid_items"
      + (if is_marker r then 1 else 0)
  ∧ (validate_only = false → logged s' = S (logged s)).
Proof.
  intros Hrow Hloop. unfold process_row in Hrow. unfold logged.
  destruct r as [r|inv]; cbn [is_marker].
  - destruct (validate_item _) as [v|e]; [|done].
    destruct (ok v).
    + destruct validate_only.
      { injection Hrow as <- <- _. unfold completed_count. counters.
        split_and!; try done; lia. }
      unfold try_import in Hrow.
      destruct (update_repo _ (repo s)) as [i [h [st|e]]].
      * destruct (in_loop_frame s (set_repo h s)
                    eq_refl eq_refl eq_refl eq_refl eq_refl Hloop)
          as (Hloop1 & Hc1 & Hf1 & Hi1).
        destruct (complete_entry i (Row.line_reference r) st _ Hloop1)
          as (s1 & Hcomplete & Hloop2 & Hc2 & Hf2 & Hi2).
        unfold bindM, ret in Hrow. cbn [row ImportRow_new] in Hrow.
        rewrite Hcomplete, yield_status_spec in Hrow.
        injection Hrow as <- <- _.
        destruct (in_loop_frame s1 (set_ticks (S (ticks s1)) s1)
                    eq_refl eq_refl eq_refl eq_refl eq_refl Hloop2)
          as (Hloop3 & Hc3 & Hf3 & Hi3).
        split; [exact Hloop3|].
        rewrite Hc3, Hf3, Hi3, Hc2, Hf2, Hi2, Hc1, Hf1, Hi1.
        rewrite count_status_completed. unfold completed_count.
        destruct st; cbn [count_status]; counters; split_and!; lia.
      * destruct e; try done.
        destruct (in_loop_frame s (set_repo h s)
                    eq_refl eq_refl eq_refl eq_refl eq_refl Hloop)
          as (Hloop1 & Hc1 & Hf1 & Hi1).
        unfold bindM in Hrow.
        destruct (drop_failed_entry
                    (Some (item_after_update
                             (ImportRow_new (job s) r false) (repo s)))
                    (Row.line_reference r) (exn_str (JobError args))
                    _ Hloop1)
          as (s1 & Hdrop & Hloop2 & Hc2 & Hf2 & Hi2).
        rewrite Hdrop, yield_status_spec in Hrow.
        injection Hrow as <- <- _.
        destruct (in_loop_frame s1 (set_ticks (S (ticks s1)) s1)
                    eq_refl eq_refl eq_refl eq_refl eq_refl Hloop2)
          as (Hloop3 & Hc3 & Hf3 & Hi3).
        split; [exact Hloop3|].
        rewrite Hc3, Hf3, Hi3, Hc2, Hf2, Hi2, Hc1, Hf1, Hi1.
        unfold completed_count. counters. split_and!; lia.
    + unfold bindM in Hrow.
      destruct (drop_invalid_entry
                  (Some (item (ImportRow_new (job s) r validate_only)))
                  (Row.line_reference r)
                  ("Validation failures: "
                   +:+ join "; "
                         ((fun e => e.1 +:+ " " +:+ result_str e.2)
                            <$> failures v)) s Hloop)
        as (s1 & Hdrop & Hloop1 & Hc1 & Hf1 & Hi1).
      rewrite Hdrop in Hrow. injection Hrow as <- <- _.
      split; [done|]. rewrite Hc1, Hf1, Hi1.
      unfold completed_count. counters. split_and!; lia.
  - unfold bindM in Hrow.
    destruct (drop_invalid_entry None (InvalidRow.line_reference inv)
                (InvalidRow.reason inv) s Hloop)
      as (s1 & Hdrop & Hloop1 & Hc1 & Hf1 & Hi1).
    rewrite Hdrop in Hrow. injection Hrow as <- <- _.
    split; [done|]. rewrite Hc1, Hf1, Hi1. split_and!; lia.
Qed.

Lemma run_rows_ledgers (validate_only : bool) (start : Z)
      (rs : list SourceRow) (count c : Counter)
      (s s' : State) (snaps : list Snapshot) :
  run_rows validate_only start count rs s = (s', (snaps, Return c)) →
  in_loop s →
  completed_entries s' + completed_count count
  = completed_entries s + completed_count c
  ∧ failed_entries s' + counter_get count "items_with_errors"
    = failed_entries s + counter_get c "items_with_errors"
  ∧ invalid_entries s' + counter_get count "invalid_items"
    = invalid_entries s + counter_get c "invalid_items" + markers rs
  ∧ (validate_only = false → logged s' = logged s + length rs).
Proof.
  revert count s s' snaps.
  induction rs as [|r rs IH]; intros count s s' snaps; cbn [run_rows].
  - intros [= <- _ <-] Hloop. unfold markers. cbn. split_and!; try lia.
  - destruct (process_row validate_only start count r s)
      as [s1 [[c1 snap]|e]] eqn:Erow; [|done].
    destruct (run_rows validate_only start c1 rs s1)
      as [s2 [snaps' o']] eqn:Erest.
    intros [= <- _ ->] Hloop.
    destruct (process_row_ledgers _ _ _ _ _ _ _ _ Erow Hloop)
      as (Hloop1 & Hc1 & Hf1 & Hi1 & Hl1).
    destruct (IH _ _ _ _ Erest Hloop1) as (Hc2 & Hf2 & Hi2 & Hl2).
    unfold markers in *. cbn [List.filter length].
    split_and!; try lia.
    + destruct (is_marker r); cbn [length]; lia.
    + intros Hvo. rewrite (Hl2 Hvo), (Hl1 Hvo). lia.
Qed.

(** The loop starts in a new directory of the run. *)
Lemma start_run_in_loop (f : option string) (s s1 : State) (start : Z)
      (md : MetadataSpreadsheet) :
  ledger_in_place s → run_dir s = None →
  _invalid_items s = None → _failed_items s = None →
  (∀ name,
     fs s !! path_child
               (path_child (dir (job s))
                           (digits_of (isoformat (clock (ticks s))))) name
     = None) →
  start_run f s = (s1, Return (start, md)) →
  in_loop s1
  ∧ completed_entries s1 = completed_entries s
  ∧ failed_entries s1 = 0 ∧ invalid_entries s1 = 0.
Proof.
  intros Hledger Hd Hinv Hfailed Hnew Estart.
  destruct (start_run_fresh _ _ _ _ Hd Estart)
    as (Hfs & _ & Hjob & _ & _ & Hdir & _ & Hinv1 & Hfailed1 & _).
  split.
  - destruct Hledger as (Hfn & Hf & Hk & Hkept). split; [|split; [|split]].
    + unfold ledger_in_place. rewrite Hjob, Hfs. done.
    + eexists. by rewrite Hjob, Hdir.
    + rewrite Hinv1, Hinv. split; [|done]. eexists. split; [exact Hdir|].
      rewrite Hfs. apply Hnew.
    + rewrite Hfailed1, Hfailed. split; [|done]. eexists.
      split; [exact Hdir|]. rewrite Hfs. apply Hnew.
  - unfold completed_entries, failed_entries, invalid_entries,
      failed_ledger_path, invalid_ledger_path, entries.
    rewrite Hdir, Hjob, Hfs. cbn. by rewrite !Hnew.
Qed.

(** X24: in import mode every row leaves one record.  For a job that
    holds its completed ledger in place and a run object that has not
    been used, whose directory is new, a run that returns has added to
    its three ledgers (of the completed, the failed and the invalid
    items) as many records as its stream has rows, the markers of the
    invalid rows included: each row is in one ledger, once. *)
Theorem every_row_leaves_one_record (limit pct : option nat)
        (f : option string) (s : State) :
  ledger_in_place s → run_dir s = None →
  _invalid_items s = None → _failed_items s = None →
  (∀ name,
     fs s !! path_child
               (path_child (dir (job s))
                           (digits_of (isoformat (clock (ticks s))))) name
     = None) →
  match run limit pct false f s with
  | (s', (snaps, Return res)) =>
      ∃ s1 start md,
        start_run f s = (s1, Return (start, md))
        ∧ logged s'
          = completed_entries s + length (row_stream md limit pct s1)
  | (s', (snaps, Raise e)) => True
  end.
Proof.
  intros Hledger Hd Hinv Hfailed Hnew.
  destruct (run limit pct false f s) as [s' [snaps [res|e]]] eqn:Erun; [|done].
  destruct (run_cases _ _ _ _ _ _ _ _ Erun)
    as [(e & _ & _ & [=])|(s1 & start & md & oc & Estart & Erows & Ho)].
  destruct oc as [c|e]; [|done].
  exists s1, start, md. split; [done|].
  destruct (start_run_in_loop _ _ _ _ _ Hledger Hd Hinv Hfailed Hnew Estart)
    as (Hloop & Hc & Hf & Hi).
  destruct (run_rows_ledgers _ _ _ _ _ _ _ _ Erows Hloop) as (_ & _ & _ & Hlog).
  rewrite (Hlog eq_refl). unfold logged. rewrite Hc, Hf, Hi. lia.
Qed.

(** X25: the ledgers of a run agree with its counters.  For a job that
    holds its completed ledger in place and a run object that has not
    been used, whose directory is new, a run that returns, in either
    mode, has added to the completed ledger as many records as it counts
    created, updated and unchanged items; the failed ledger holds as
    many records as it counts items with errors; and the invalid ledger
    holds as many as it counts invalid items, and one more for each
    marker of an invalid row in its stream. *)
Theorem ledgers_agree_with_the_counters (limit pct : option nat)
        (validate_only : bool) (f : option string) (s : State) :
  ledger_in_place s → run_dir s = None →
  _invalid_items s = None → _failed_items s = None →
  (∀ name,
     fs s !! path_child
               (path_child (dir (job s))
                           (digits_of (isoformat (clock (ticks s))))) name
     = None) →
  match run limit pct validate_only f s with
  | (s', (snaps, Return res)) =>
      ∃ s1 start md,
        start_run f s = (s1, Return (start, md))
        ∧ completed_entries s'
          = completed_entries s + completed_count (result_count res)
        ∧ failed_entries s'
          = counter_get (result_count res) "items_with_errors"
        ∧ invalid_entries s'
          = counter_get (result_count res) "invalid_items"
            + markers (row_stream md limit pct s1)
  | (s', (snaps, Raise e)) => True
  end.
Proof.
  intros Hledger Hd Hinv Hfailed Hnew.
  destruct (run limit pct validate_only f s)
    as [s' [snaps [res|e]]] eqn:Erun; [|done].
  destruct (run_cases _ _ _ _ _ _ _ _ Erun)
    as [(e & _ & _ & [=])|(s1 & start & md & oc & Estart & Erows & Ho)].
  destruct oc as [c|e]; [|done]. injection Ho as ->.
  exists s1, start, md. split; [done|]. cbn [result_count].
  destruct (start_run_in_loop _ _ _ _ _ Hledger Hd Hinv Hfailed Hnew Estart)
    as (Hloop & Hc & Hf & Hi).
  destruct (run_rows_ledgers _ _ _ _ _ _ _ _ Erows Hloop)
    as (Hc' & Hf' & Hi' & _).
  destruct (initial_count_get md (job s1)) as [_ Hzero].
  destruct (initial_count_completed md (job s1)) as [_ Hcc].
  repeat (apply Forall_cons in Hzero as [? Hzero]).
  split_and!; lia.
Qed.

End WithCollaborators.
End Accounting.

Module ResourceListFacts.
Import ItemLogFacts LedgerFacts.
Import ResourceList.

Lemma completed_row_is_accepted (uri title timestamp : string) :
  ItemLog.accepted completed_fieldnames "uri"
                   (completed_row uri title timestamp).
Proof.
  split.
  - unfold completed_row, completed_fieldnames.
    rewrite !dom_insert_L, dom_empty_L. set_solver.
  - unfold completed_row. rewrite lookup_insert_eq. by eexists.
Qed.

Lemma completed_row_record (uri title timestamp : string) :
  ItemLog.written completed_fieldnames (completed_row uri title timestamp)
  = record_of (uri, title, timestamp).
Proof.
  unfold ItemLog.written, completed_row, completed_fieldnames, record_of.
  simpl. by simplify_map_eq.
Qed.

(** A ledger over a file without a record, or over no file, is empty. *)
Lemma new_no_records (fs : ItemLog.filesystem) (fn : string)
      (fields : list string) (kf : string) (h : bool) :
  default [] (fs !! fn) = [] →
  ItemLog.new fs fn fields kf h = Return (ItemLog.mk fn fields kf h ∅).
Proof.
  intros Hfs. destruct (fs !! fn) as [recs|] eqn:E.
  - cbn in Hfs. subst recs. unfold ItemLog.new, ItemLog.exists_.
    cbn [ItemLog.filename]. rewrite E.
    rewrite bool_decide_eq_true_2 by by eexists.
    unfold ItemLog.load_keys, ItemLog.iter. cbn [ItemLog.filename].
    by rewrite E.
  - by apply new_absent.
Qed.

(** The items that are logged in a transaction go to the buffer, record
    after record and without a header, and the completed ledger stays
    as it is. *)
Lemma log_all_buffer (items : list (string * string * string))
      (c b : ItemLog.t) (fs : ItemLog.filesystem) :
  ItemLog.fieldnames b = completed_fieldnames →
  ItemLog.keyfield b = "uri" →
  ItemLog.write_header b = false →
  ∃ fs1 b1,
    log_all (mk (Some c) true (Some b)) items fs
    = (fs1, Return (mk (Some c) true (Some b1)))
    ∧ ItemLog.filename b1 = ItemLog.filename b
    ∧ (∀ p, p ≠ ItemLog.filename b → fs1 !! p = fs !! p)
    ∧ fs1 !! ItemLog.filename b
      = match items with
        | [] => fs !! ItemLog.filename b
        | _ => Some (default [] (fs !! ItemLog.filename b)
                     ++ (record_of <$> items))
        end.
Proof.
  revert b fs. induction items as [|[[u t] ts] items IH];
    intros b fs Hf Hk Hh.
  - exists fs, b. done.
  - cbn [log_all]. unfold log_completed.
    cbn [completed use_transaction completed_buffer]. unfold ItemLog.writerow.
    rewrite append_accepted
      by (rewrite Hf, Hk; apply completed_row_is_accepted).
    rewrite Hf, completed_row_record.
    set (b' := ItemLog.mk _ _ _ _ _).
    set (fs' := ItemLog.write_record _ _ _).
    destruct (IH b' fs') as (fs1 & b1 & Hlog & Hfn & Hother & Hfile);
      try done.
    exists fs1, b1. rewrite Hlog. split; [done|]. split; [done|].
    assert (Hfs' : fs' !! ItemLog.filename b
                   = Some (default [] (fs !! ItemLog.filename b)
                           ++ [record_of (u, t, ts)])).
    { unfold fs'. rewrite write_record_lookup, writer_lookup, Hh. done. }
    split.
    + intros p Hp. rewrite Hother by done. unfold fs'.
      unfold ItemLog.write_record, ItemLog.writer, ItemLog.create.
      rewrite lookup_insert_ne by done.
      destruct (ItemLog.exists_ b fs); [done|]. by rewrite lookup_insert_ne.
    + cbn [ItemLog.filename b'] in Hfile. rewrite Hfile.
      destruct items as [|i items]; [done|].
      rewrite Hfs'. cbn [default from_option id].
      by rewrite <- app_assoc.
Qed.

(** X26: in a transaction, the items that are logged do not reach a
    completed ledger that is empty.  The items go to the buffer; the
    ledger in memory stays as it is; and at the end, since an empty
    ledger is not true, nothing is copied: the file of the completed
    ledger is as it was before the transaction. *)
Theorem transaction_log_skips_an_empty_ledger
        (items : list (string * string * string)) (rl : t) (c : ItemLog.t)
        (tmp : string) (fs : ItemLog.filesystem) :
  completed rl = Some c → ItemLog.len c = 0 →
  default [] (fs !! tmp) = [] → tmp ≠ ItemLog.filename c →
  ∃ rl0 fs1 rl1,
    open_buffer rl tmp fs = Return rl0
    ∧ log_all rl0 items fs = (fs1, Return rl1)
    ∧ completed rl1 = Some c
    ∧ copy_completed rl1 fs1 = Copied fs1
    ∧ fs1 !! ItemLog.filename c = fs !! ItemLog.filename c.
Proof.
  intros Hc Hlen Htmp Hne.
  unfold open_buffer. rewrite new_no_records by done. cbn. rewrite Hc.
  destruct (log_all_buffer items c
              (ItemLog.mk tmp completed_fieldnames "uri" false ∅) fs)
    as (fs1 & b1 & Hlog & Hfn & Hother & Hfile); try done.
  eexists _, fs1, _. split; [reflexivity|]. split; [exact Hlog|].
  split; [done|]. split.
  - unfold copy_completed. cbn. by rewrite Hlen.
  - apply Hother. cbn. done.
Qed.

(** X27: in a transaction, a completed ledger that is not empty is
    replaced by the buffer.  At the end the file of the ledger holds the
    records of the items that were logged and nothing else: its header
    and its earlier records are gone.  The first record is then read as
    the header: when it does not hold the text "uri" and another record
    follows it, the construction of a list over the file raises a
    KeyError. *)
Theorem transaction_log_replaces_the_file
        (item : string * string * string)
        (items : list (string * string * string)) (rl : t) (c : ItemLog.t)
        (tmp : string) (fs : ItemLog.filesystem) :
  completed rl = Some c → ItemLog.len c ≠ 0 →
  default [] (fs !! tmp) = [] → tmp ≠ ItemLog.filename c →
  ∃ rl0 fs1 rl1 fs2,
    open_buffer rl tmp fs = Return rl0
    ∧ log_all rl0 (item :: items) fs = (fs1, Return rl1)
    ∧ copy_completed rl1 fs1 = Copied fs2
    ∧ fs2 !! ItemLog.filename c = Some (record_of <$> item :: items)
    ∧ ("uri" ∉ record_of item → items ≠ [] →
       new fs2 (Some (ItemLog.filename c)) = Raise (KeyError "uri")).
Proof.
  intros Hc Hlen Htmp Hne.
  unfold open_buffer. rewrite new_no_records by done. cbn. rewrite Hc.
  destruct (log_all_buffer (item :: items) c
              (ItemLog.mk tmp completed_fieldnames "uri" false ∅) fs)
    as (fs1 & b1 & Hlog & Hfn & Hother & Hfile); try done.
  cbn [ItemLog.filename] in Hfn, Hother, Hfile.
  rewrite Htmp in Hfile. cbn [app] in Hfile.
  eexists _, fs1, _, _. split; [reflexivity|]. split; [exact Hlog|].
  assert (Hcopy : copy_completed (mk (Some c) true (Some b1)) fs1
                  = Copied (<[ItemLog.filename c := record_of <$> item :: items]> fs1)).
  { unfold copy_completed. cbn [completed completed_buffer].
    destruct (Nat.eqb_spec (ItemLog.len c) 0) as [?|_]; [done|]. cbn.
    unfold copyfile. rewrite Hfn, Hfile.
    by rewrite bool_decide_eq_false_2. }
  split; [exact Hcopy|]. split; [by rewrite lookup_insert_eq|].
  intros Huri Hitems. unfold new.
  destruct items as [|item' items]; [done|].
  unfold completed_fieldnames.
  erewrite (new_without_key_field _ _ (record_of item)
              (record_of <$> item' :: items) _ _ _ (record_of item'));
    [done| |done| |done].
  - by rewrite lookup_insert_eq.
  - left.
Qed.

End ResourceListFacts.


Module Cases_checked.
Import Imports Scenario Cases Tally JobDir.
Import ItemLogFacts LedgerFacts RunFacts RunInvariants JobDirFacts.
Import Accounting ResourceListFacts.

(** The first row of a ledger of two fields. *)
Lemma first_append_creates_the_file_witness :
  ∃ l fs' l',
    ItemLog.new ∅ "items.csv" ["id"; "title"] "id" true = Return l
    ∧ ItemLog.len l = 0 ∧ (∀ k, ItemLog.contains l k = false)
    ∧ ItemLog.iter l ∅ = []
    ∧ ItemLog.append l ledger_row_a ∅ = (fs', Return l')
    ∧ fs' !! "items.csv"
      = Some ((if true then [["id"; "title"]] else [])
              ++ [ItemLog.written ["id"; "title"] ledger_row_a])
    ∧ ItemLog.len l' = 1
    ∧ ItemLog.contains l' (Some (ItemLog.row_key "id" ledger_row_a)) = true.
Proof.
  apply (first_append_creates_the_file ∅ "items.csv" ["id"; "title"] "id"
           true ledger_row_a).
  - reflexivity.
  - split; [apply (bool_decide_unpack _); vm_compute; exact I
           |eexists; vm_compute; reflexivity].
Defined.

(** A row with a title and no id. *)
Lemma keyless_row_is_written_then_refused_witness :
  ∃ fs' before re,
    ItemLog.append small_ledger keyless_row ∅
    = (fs', Raise (KeyError (ItemLog.keyfield small_ledger)))
    ∧ fs' !! ItemLog.filename small_ledger
      = Some (before
              ++ [ItemLog.written (ItemLog.fieldnames small_ledger)
                    keyless_row])
    ∧ ItemLog.new fs' (ItemLog.filename small_ledger)
        (ItemLog.fieldnames small_ledger) (ItemLog.keyfield small_ledger)
        (ItemLog.write_header small_ledger)
      = Return re
    ∧ ItemLog.item_keys re = {[Some ""]} ∪ ItemLog.item_keys small_ledger.
Proof.
  apply (keyless_row_is_written_then_refused small_ledger keyless_row ∅).
  - apply list_elem_of_here.
  - left. split_and!; reflexivity.
  - apply (bool_decide_unpack _). vm_compute. exact I.
  - vm_compute. reflexivity.
Defined.

(** A row with a colour, which the ledger has no field for. *)
Lemma foreign_field_writes_no_record_witness :
  (∃ msg, (ItemLog.append small_ledger foreign_row ∅).2
          = Raise (ValueError msg))
  ∧ (ItemLog.append small_ledger foreign_row ∅).1
      !! ItemLog.filename small_ledger
    = Some (default (if ItemLog.write_header small_ledger
                     then [ItemLog.fieldnames small_ledger] else [])
                    ((∅ : ItemLog.filesystem) !! ItemLog.filename small_ledger))
  ∧ ∀ p, p ≠ ItemLog.filename small_ledger →
         (ItemLog.append small_ledger foreign_row ∅).1 !! p
         = (∅ : ItemLog.filesystem) !! p.
Proof.
  apply (foreign_field_writes_no_record small_ledger foreign_row ∅).
  apply (bool_decide_unpack _). vm_compute. exact I.
Defined.

(** A file of the fields "uri" and "title", read for the key "id". *)
Lemma ledger_reads_under_the_file_header_witness :
  ("id" ∈ ["uri"; "title"] →
     ItemLog.new foreign_file "items.csv" ["id"; "title"] "id" true
     = Return (ItemLog.mk "items.csv" ["id"; "title"] "id" true
                 (ItemLog.file_keys ["uri"; "title"] "id" [["u1"; "First"]])))
  ∧ ("id" ∉ ["uri"; "title"] →
     Forall (fun rec => rec = []) [["u1"; "First"]] →
       ItemLog.new foreign_file "items.csv" ["id"; "title"] "id" true
       = Return (ItemLog.mk "items.csv" ["id"; "title"] "id" true ∅))
  ∧ ("id" ∉ ["uri"; "title"] → ∀ rec, rec ∈ [["u1"; "First"]] → rec ≠ [] →
       ItemLog.new foreign_file "items.csv" ["id"; "title"] "id" true
       = Raise (KeyError "id")).
Proof.
  apply (ledger_reads_under_the_file_header foreign_file "items.csv"
           ["uri"; "title"] [["u1"; "First"]] ["id"; "title"] "id" true).
  vm_compute. reflexivity.
Defined.

(** A file whose only record holds a title and stops there. *)
Lemma short_record_has_the_key_none_witness :
  ∃ l, ItemLog.new short_file "items.csv" ["title"; "id"] "id" true = Return l
       ∧ ItemLog.contains l None = true.
Proof.
  apply (short_record_has_the_key_none short_file "items.csv"
           ["title"; "id"] [["First"]] ["First"] ["title"; "id"] "id" true).
  - vm_compute. reflexivity.
  - apply list_elem_of_here.
  - discriminate.
  - simpl. apply list_elem_of_here.
Defined.


(** The first run of the job of the scenario, in validate-only mode
    and with an import file. *)
Lemma validate_only_run_imports_nothing_witness :
  let r := @run collaborators None None true (Some "id,title")
                (fresh None) in
  repo r.1 = repo (fresh None) ∧ job r.1 = job (fresh None)
  ∧ _failed_items r.1 = _failed_items (fresh None)
  ∧ r.2.1 = []
  ∧ (∀ p, p ≠ invalid_ledger_path r.1 → fs r.1 !! p = fs (fresh None) !! p)
  ∧ source_csv (fresh None) = None
  ∧ source_csv r.1 = Some "id,title".
Proof.
  pose proof (@validate_only_run_imports_nothing collaborators None None
                (Some "id,title") (fresh None) eq_refl)
    as (Hrepo & Hjob & Hfailed & Hsnaps & Hfs & Hsrc).
  split; [exact Hrepo|]. split; [exact Hjob|]. split; [exact Hfailed|].
  split; [exact Hsnaps|]. split; [exact Hfs|]. split; [reflexivity|].
  exact Hsrc.
Defined.

(** The row "new1", which the repository creates. *)
Lemma committed_row_is_completed_witness :
  let s := running None in
  let r := mkrow "new1" ["a.tif"] in
  ∃ v i h st s' snap before,
    @validate_item collaborators (@ImportRow_new collaborators (job s) r false)
    = Return v
    ∧ ok v = true
    ∧ @update_repo collaborators
        (@ImportRow_new collaborators (job s) r false) (repo s)
      = (i, (h, Return st))
    ∧ @process_row collaborators false 0 ∅ (WellFormed r) s
      = (s', Return (count_status
                       (counter_add (counter_add ∅ "files" 1) "valid_items" 1)
                       st, Some snap))
    ∧ fs s' !! ItemLog.filename (completed_log (job s))
      = Some (before
              ++ [completed_record i (Row.line_reference r)
                    (@isoformat collaborators
                       (@clock collaborators (ticks s))) st])
    ∧ ItemLog.contains (completed_log (job s'))
        (Some (getattr_identifier (Some i) (Row.line_reference r))) = true
    ∧ repo s' = h.
Proof.
  intros s r.
  destruct (@committed_row_is_completed collaborators s r 0%Z ∅
              [("title", ValidationSuccess (Some "title") "ok");
               ("FILES", ValidationSuccess None "All files present");
               ("ITEM_FILES", ValidationSuccess None "All files present")]
              (object_of r)
              [TxnBegin; CreateChild (Some "/objects") (object_of r);
               TxnCommit]
              CREATED)
    as (s' & snap & before & Hrow & _ & Hfile & _ & Hc & Hrepo & _).
  - vm_compute; reflexivity.
  - vm_compute; reflexivity.
  - vm_compute; reflexivity.
  - reflexivity.
  - reflexivity.
  - eexists _, _, _, _, s', snap, before.
    split; [vm_compute; reflexivity|].
    split; [vm_compute; reflexivity|].
    split; [vm_compute; reflexivity|].
    split; [exact Hrow|]. split; [exact Hfile|]. split; [exact Hc|exact Hrepo].
Defined.

(** The job without a binaries location over the sheet of the scenario,
    which has a FILES column. *)
Lemma missing_binaries_location_stops_the_run_witness :
  ∃ s',
    @run collaborators None None false None bare
    = (s', ([], Raise (RuntimeError
         "Must specify --binaries-location if the metadata has a FILES column")))
    ∧ fs s' = fs bare ∧ repo s' = repo bare ∧ job s' = job bare
    ∧ is_Some (run_dir s')
    ∧ source_csv s' = source_csv bare.
Proof.
  apply (@missing_binaries_location_stops_the_run collaborators None None
           false None bare sheet); reflexivity.
Defined.

(** The row "new1", which names a.tif, in the job without a binaries
    location. *)
Lemma files_need_a_binaries_location_witness :
  let r := mkrow "new1" ["a.tif"] in
  let self := @ImportRow_new collaborators (job bare) r false in
  @validate_files collaborators self []
  = Return (ValidationSuccess None "All files present")
  ∧ (∀ name names,
       @validate_files collaborators self (name :: names)
       = Raise (AttributeError
                  "'NoneType' object has no attribute 'startswith'"))
  ∧ (Row.filenames r ≠ [] ∨ Row.item_filenames r ≠ [] →
     @process_row collaborators false 0 ∅ (WellFormed r) bare
     = (bare, Raise (AttributeError
                       "'NoneType' object has no attribute 'startswith'"))).
Proof.
  apply (@files_need_a_binaries_location collaborators false 0%Z ∅
           (mkrow "new1" ["a.tif"]) bare
           [("title", ValidationSuccess (Some "title") "ok")]);
    reflexivity.
Defined.


(** The first run of the job of the scenario, which starts at the
    reading 100 of the clock. *)
Lemma run_directory_is_named_by_the_start_witness :
  let s' := (@run collaborators None None false None (fresh None)).1 in
  let stamp :=
    digits_of (@isoformat collaborators
                 (@clock collaborators (ticks (fresh None)))) in
  timestamp s' = Some stamp
  ∧ run_dir s' = Some (path_child (dir (job (fresh None))) stamp)
  ∧ dir (job s') = dir (job (fresh None))
  ∧ digits_of stamp = stamp
  ∧ Forall (fun c => is_digit c = true) (String.list_ascii_of_string stamp).
Proof.
  apply (@run_directory_is_named_by_the_start collaborators None None false
           None (fresh None)).
  reflexivity.
Defined.

(** The ids "foo/bar" and "foo%2Fbar". *)
Lemma job_directories_are_distinct_witness :
  safe_id "foo/bar" ≠ safe_id "foo%2Fbar"
  ∧ path_child "jobs" (safe_id "foo/bar")
    ≠ path_child "jobs" (safe_id "foo%2Fbar")
  ∧ ∀ fs key key' j j',
      ImportJob_init fs "foo/bar" "jobs" key = Return j →
      ImportJob_init fs "foo%2Fbar" "jobs" key' = Return j' →
      dir j ≠ dir j'
      ∧ ItemLog.filename (completed_log j)
        ≠ ItemLog.filename (completed_log j').
Proof.
  apply (job_directories_are_distinct "jobs" "foo/bar" "foo%2Fbar").
  - split; discriminate.
  - split; discriminate.
  - discriminate.
Defined.

(** The first run of the job of the scenario, in a new directory. *)
Lemma every_row_leaves_one_record_witness :
  match @run collaborators None None false None (fresh None) with
  | (s', (snaps, Return res)) =>
      ∃ s1 start md,
        @start_run collaborators None (fresh None)
        = (s1, Return (start, md))
        ∧ logged s'
          = completed_entries (fresh None)
            + length (@row_stream collaborators md None None s1)
  | (s', (snaps, Raise e)) => True
  end.
Proof.
  apply (@every_row_leaves_one_record collaborators None None None
           (fresh None)).
  - split_and!; try reflexivity. left. split_and!; reflexivity.
  - reflexivity.
  - reflexivity.
  - reflexivity.
  - intros name. apply lookup_empty.
Defined.

(** The first run of the job of the scenario, in validate-only mode. *)
Lemma ledgers_agree_with_the_counters_witness :
  match @run collaborators None None true None (fresh None) with
  | (s', (snaps, Return res)) =>
      ∃ s1 start md,
        @start_run collaborators None (fresh None)
        = (s1, Return (start, md))
        ∧ completed_entries s'
          = completed_entries (fresh None)
            + completed_count (result_count res)
        ∧ failed_entries s'
          = counter_get (result_count res) "items_with_errors"
        ∧ invalid_entries s'
          = counter_get (result_count res) "invalid_items"
            + markers (@row_stream collaborators md None None s1)
  | (s', (snaps, Raise e)) => True
  end.
Proof.
  apply (@ledgers_agree_with_the_counters collaborators None None true None
           (fresh None)).
  - split_and!; try reflexivity. left. split_and!; reflexivity.
  - reflexivity.
  - reflexivity.
  - reflexivity.
  - intros name. apply lookup_empty.
Defined.

(** Two items logged in a transaction of a list whose log is empty. *)
Lemma transaction_log_skips_an_empty_ledger_witness :
  ∃ rl0 fs1 rl1,
    ResourceList.open_buffer (ResourceList.mk (Some empty_log) true None)
      "/tmp/tmp0" ∅ = Return rl0
    ∧ ResourceList.log_all rl0 [item_two; item_three] ∅ = (fs1, Return rl1)
    ∧ ResourceList.completed rl1 = Some empty_log
    ∧ ResourceList.copy_completed rl1 fs1 = ResourceList.Copied fs1
    ∧ fs1 !! ItemLog.filename empty_log
      = (∅ : ItemLog.filesystem) !! ItemLog.filename empty_log.
Proof.
  apply (transaction_log_skips_an_empty_ledger [item_two; item_three]
           (ResourceList.mk (Some empty_log) true None) empty_log
           "/tmp/tmp0" ∅).
  - reflexivity.
  - reflexivity.
  - reflexivity.
  - discriminate.
Defined.

(** Two items logged in a transaction of a list whose log holds an
    item. *)
Lemma transaction_log_replaces_the_file_witness :
  ∃ rl0 fs1 rl1 fs2,
    ResourceList.open_buffer (ResourceList.mk (Some one_item_log) true None)
      "/tmp/tmp0" one_item_files = Return rl0
    ∧ ResourceList.log_all rl0 (item_two :: [item_three]) one_item_files
      = (fs1, Return rl1)
    ∧ ResourceList.copy_completed rl1 fs1 = ResourceList.Copied fs2
    ∧ fs2 !! ItemLog.filename one_item_log
      = Some (ResourceList.record_of <$> item_two :: [item_three])
    ∧ ("uri" ∉ ResourceList.record_of item_two → [item_three] ≠ [] →
       ResourceList.new fs2 (Some (ItemLog.filename one_item_log))
       = Raise (KeyError "uri")).
Proof.
  apply (transaction_log_replaces_the_file item_two [item_three]
           (ResourceList.mk (Some one_item_log) true None) one_item_log
           "/tmp/tmp0" one_item_files).
  - reflexivity.
  - unfold ItemLog.len. cbn [ItemLog.item_keys one_item_log].
    rewrite size_singleton. discriminate.
  - vm_compute. reflexivity.
  - discriminate.
Defined.

End Cases_checked.
